(** * Bill OCR pipeline ([server/ocr_api.py]): a shallow embedding and its properties

    The development follows the layout of the Python module: the data the
    endpoints exchange (JSON values, Python dictionaries in insertion order,
    [PageResult]), then the grouping of classified pages, the merge of the
    per-page extraction records, the retry and polling loops of the remote
    calls, the reply parser, the per-page workflow and the endpoints. *)

From Stdlib Require Import String Ascii ZArith QArith Bool Lia.
From Stdlib Require Import List Permutation SpecFloat Qabs.
Import ListNotations.

Set Warnings "-register-all".

Local Open Scope string_scope.
Local Open Scope Z_scope.
Local Open Scope list_scope.

(** ** Python dictionaries

    A [dict] keeps its keys in insertion order and the endpoints iterate over
    them ([groups.items()], [page_data.items()]), so a dictionary is an
    association list: the first binding of a key is the binding. *)

Module Dict.

Definition dict (V : Type) : Type := list (string * V).

Definition keys {V} (d : dict V) : list string := map fst d.

Definition values {V} (d : dict V) : list V := map snd d.

(** [d.get(k)] *)
Fixpoint get {V} (k : string) (d : dict V) : option V :=
  match d with
  | [] => None
  | (k', v) :: d' => if String.eqb k' k then Some v else get k d'
  end.

(** [k in d] *)
Definition mem {V} (k : string) (d : dict V) : bool :=
  existsb (String.eqb k) (keys d).

(** [d[k] = v]: an existing key keeps its position, a new key goes last. *)
Fixpoint set {V} (k : string) (v : V) (d : dict V) : dict V :=
  match d with
  | [] => [(k, v)]
  | (k', v') :: d' =>
      if String.eqb k' k then (k', v) :: d' else (k', v') :: set k v d'
  end.

(** [d.setdefault(k, []).append(x)] *)
Fixpoint setdefault_append {A} (d : dict (list A)) (k : string) (x : A)
  : dict (list A) :=
  match d with
  | [] => [(k, [x])]
  | (k', v) :: d' =>
      if String.eqb k' k then (k', v ++ [x]) :: d'
      else (k', v) :: setdefault_append d' k x
  end.

End Dict.

Import Dict.

(** ** Python floats

    A Python [float] is a finite binary64 value, an infinity or a NaN. The
    finite values are rationals; [min] and [max] only compare and select, so
    no rounding is involved in what is proved about them. *)

Inductive pyfloat : Type :=
| Fin (q : Q)
| PInf
| NInf
| NaN.

(** [a < b] on floats: every comparison with a NaN is false. *)
Definition flt (a b : pyfloat) : bool :=
  match a, b with
  | NaN, _ | _, NaN => false
  | Fin x, Fin y => negb (Qle_bool y x)
  | Fin _, PInf => true
  | Fin _, NInf => false
  | PInf, _ => false
  | NInf, NInf => false
  | NInf, _ => true
  end.

(** [min(a, b)] returns [a] unless [b < a]; [max(a, b)] returns [a] unless
    [b > a] (CPython's [min]/[max] keep the first argument on ties and on
    incomparable values). *)
Definition py_min (a b : pyfloat) : pyfloat := if flt b a then b else a.
Definition py_max (a b : pyfloat) : pyfloat := if flt a b then b else a.

(** ** JSON values, as [json.loads] builds them *)

Inductive json : Type :=
| JNull
| JBool (b : bool)
| JInt (z : Z)
| JFloat (f : pyfloat)
| JStr (s : string)
| JList (l : list json)
| JObj (o : list (string * json)).

Definition is_none (v : json) : bool :=
  match v with JNull => true | _ => false end.

Definition is_list (v : json) : bool :=
  match v with JList _ => true | _ => false end.

Definition is_dict (v : json) : bool :=
  match v with JObj _ => true | _ => false end.

(** Truth value of a JSON value in a Python condition. *)
Definition truthy (v : json) : bool :=
  match v with
  | JNull => false
  | JBool b => b
  | JInt z => negb (z =? 0)
  | JFloat (Fin q) => negb (Qeq_bool q 0)
  | JFloat _ => true
  | JStr s => negb (String.eqb s "")
  | JList l => match l with [] => false | _ => true end
  | JObj o => match o with [] => false | _ => true end
  end.

(** ** Exceptions and results

    [HTTPException] carries its status code and the fixed part of its
    [detail]; where the source formats a caught exception or a response field
    into the detail ([f"...: {e}"]) that suffix is left out. The other
    constructors are the built-in exceptions the modelled code can raise, the
    failure of a request in the HTTP client ([TransportError]) and the status
    error of the OpenAI client ([APIStatusError]). *)

Inductive exn : Type :=
| HTTPException (status_code : Z) (detail : string)
| JSONDecodeError
| AttributeError
| TypeError
| ValueError
| OverflowError
| KeyError
| IndexError
| TransportError (msg : string)
| APIStatusError (status_code : Z).

Inductive result (A : Type) : Type :=
| Ok (a : A)
| Raise (e : exn).
Arguments Ok {A} a.
Arguments Raise {A} e.

Definition bind {A B} (r : result A) (k : A -> result B) : result B :=
  match r with
  | Ok a => k a
  | Raise e => Raise e
  end.

Notation "x <- r ;; k" := (bind r (fun x => k))
  (at level 61, r at next level, right associativity).

(** [try: r except Exception: h] *)
Definition try_except {A} (r : result A) (h : exn -> result A) : result A :=
  match r with
  | Ok a => Ok a
  | Raise e => h e
  end.

(** ** Configuration constants *)

Definition RENDER_DPI : Z := 200.
Definition MAX_CONCURRENCY : nat := 2.
Definition RETRY_MAX : nat := 4.
Definition RETRY_BASE_DELAY : Q := 5 # 4.

Definition TYPE_ORDER : list string :=
  [ "TaxInvoice"; "EWayBill"; "LorryReceipt"; "PackingList"; "DeliveryChallan";
    "PurchaseOrder"; "CreditNote"; "DebitNote"; "PaymentAdvice";
    "ZetwerkInspectionReport"; "MaterialReport"; "WeighmentSlip";
    "TestCertificate"; "GatePass"; "BillOfLading"; "QuotationProforma";
    "Unknown" ].

(** [class PageResult(BaseModel)] *)
Record PageResult : Type := mkPageResult {
  page_index : Z;
  doc_type : string;
  confidence : pyfloat;
  brief_summary : option json;
  key_hints : option json
}.

(** ** Grouping: [chunk_consecutive_by_type] *)

Module Grouping.

(** The [for p in pages[1:]] loop, with its three variables. *)
Fixpoint chunk_loop (groups : dict (list (list Z))) (cur_type : string)
         (cur_chunk : list Z) (pages : list PageResult)
  : dict (list (list Z)) :=
  match pages with
  | [] => setdefault_append groups cur_type cur_chunk
  | p :: rest =>
      if String.eqb (doc_type p) cur_type
      then chunk_loop groups cur_type (cur_chunk ++ [page_index p]) rest
      else chunk_loop (setdefault_append groups cur_type cur_chunk)
                      (doc_type p) [page_index p] rest
  end.

Definition chunk_consecutive_by_type (pages : list PageResult)
  : dict (list (list Z)) :=
  match pages with
  | [] => []
  | p0 :: rest => chunk_loop [] (doc_type p0) [page_index p0] rest
  end.

(** [pages_flat = [i for span in spans for i in span]] *)
Definition pages_flat (spans : list (list Z)) : list Z := concat spans.

(** The indices of all groups, in the order [grouped_spans.items()] yields
    the groups. *)
Definition emitted_indices (groups : dict (list (list Z))) : list Z :=
  concat (map pages_flat (values groups)).

(** *** What the grouping is compared with

    The maximal runs of adjacent pages of one type, each with its type, in
    page order. *)
Fixpoint runs_from (cur_type : string) (cur : list Z) (pages : list PageResult)
  : list (string * list Z) :=
  match pages with
  | [] => [(cur_type, cur)]
  | p :: rest =>
      if String.eqb (doc_type p) cur_type
      then runs_from cur_type (cur ++ [page_index p]) rest
      else (cur_type, cur) :: runs_from (doc_type p) [page_index p] rest
  end.

Definition runs (pages : list PageResult) : list (string * list Z) :=
  match pages with
  | [] => []
  | p0 :: rest => runs_from (doc_type p0) [page_index p0] rest
  end.

(** The pages of a run, each as (type, index). *)
Definition expand (r : string * list Z) : list (string * Z) :=
  map (pair (fst r)) (snd r).

Definition page_key (p : PageResult) : string * Z := (doc_type p, page_index p).

(** No two neighbours of the list are equal. *)
Fixpoint adjacent_differ (l : list string) : Prop :=
  match l with
  | a :: ((b :: _) as l') => a <> b /\ adjacent_differ l'
  | _ => True
  end.

(** The distinct elements of a list, in the order of their first occurrence. *)
Fixpoint first_appearance (l : list string) : list string :=
  match l with
  | [] => []
  | x :: l' => x :: filter (fun y => negb (String.eqb y x)) (first_appearance l')
  end.

Definition spans_of (t : string) (groups : dict (list (list Z)))
  : list (list Z) :=
  match get t groups with Some spans => spans | None => [] end.

(** One step of the grouping seen on the dictionary: a closed run is filed
    under its type. *)
Definition file_run (g : dict (list (list Z))) (r : string * list Z) :=
  setdefault_append g (fst r) (snd r).

Definition notin (ks : list string) (y : string) : bool :=
  negb (existsb (String.eqb y) ks).

Definition mk (t : string) (i : Z) : PageResult :=
  mkPageResult i t (Fin 0) None None.

End Grouping.

(** ** The retry loop of the remote calls

    What a request made with [aiohttp] comes back with: a response with its
    HTTP status, or an exception raised by the transport. For the calls that
    read an identifier from the body ([result["id"]]), [body_id] is [None]
    when the body has none. *)

Inductive outcome : Type :=
| Responded (status : Z) (body_id : option string) (text : string)
| Failed (msg : string).

(** What one turn of a [for attempt in range(RETRY_MAX)] loop does. *)
Inductive control (A : Type) : Type :=
| Return (a : A)
| Continue (slept : Q)
| NextAttempt
| Throw (e : exn).
Arguments Return {A} a.
Arguments Continue {A} slept.
Arguments NextAttempt {A}.
Arguments Throw {A} e.

(** A finished call: its value or exception, the arguments of the
    [asyncio.sleep] calls in order, and the number of requests made. *)
Record run (A : Type) : Type := mkRun {
  value : result A;
  sleeps : list Q;
  requests : nat
}.
Arguments mkRun {A} value sleeps requests.
Arguments value {A} r.
Arguments sleeps {A} r.
Arguments requests {A} r.

Module Retry.

(** [response.status in [429, 500, 502, 503, 504]] *)
Definition transient_status (status : Z) : bool :=
  existsb (Z.eqb status) [429; 500; 502; 503; 504].

(** [RETRY_BASE_DELAY * (2 ** attempt)]; for the attempts of the loops, 0 to
    3, the product of the floats is exact: 1.25, 2.5, 5 and 10. *)
Definition retry_delay (attempt : nat) : Q :=
  RETRY_BASE_DELAY * inject_Z (2 ^ Z.of_nat attempt).

(** [for attempt in attempts: body(attempt)], then the statement after the
    loop, which raises [after]. *)
Fixpoint for_attempts {A} (body : nat -> control A) (attempts : list nat)
         (after : exn) : run A :=
  match attempts with
  | [] => mkRun (Raise after) [] 0
  | attempt :: rest =>
      match body attempt with
      | Return a => mkRun (Ok a) [] 1
      | Throw e => mkRun (Raise e) [] 1
      | Continue d =>
          let r := for_attempts body rest after in
          mkRun (value r) (d :: sleeps r) (S (requests r))
      | NextAttempt =>
          let r := for_attempts body rest after in
          mkRun (value r) (sleeps r) (S (requests r))
      end
  end.

(** The [try] block of [create_openai_thread]. *)
Definition create_thread_try (attempt : nat) (o : outcome)
  : result (control string) :=
  match o with
  | Failed msg => Raise (TransportError msg)
  | Responded status body_id text =>
      if (status =? 200) || (status =? 201) then
        match body_id with
        | Some id => Ok (Return id)
        | None => Raise KeyError
        end
      else if transient_status status then
        if (attempt <? RETRY_MAX - 1)%nat
        then Ok (Continue (retry_delay attempt))
        else Ok NextAttempt
      else Raise (HTTPException 502 ("Failed to create thread: " ++ text)%string)
  end.

(** The [try] block with its [except Exception as e] handler. *)
Definition create_thread_attempt (net : nat -> outcome) (attempt : nat)
  : control string :=
  match create_thread_try attempt (net attempt) with
  | Ok c => c
  | Raise e =>
      if (attempt <? RETRY_MAX - 1)%nat
      then Continue (retry_delay attempt)
      else Throw (HTTPException 502 "Failed to create thread after 4 attempts")
  end.

(** [create_openai_thread]; [net attempt] is what the request of that attempt
    comes back with. *)
Definition create_openai_thread (net : nat -> outcome) : run string :=
  for_attempts (create_thread_attempt net) (seq 0 RETRY_MAX)
               (HTTPException 502 "Failed to create thread after 4 attempts").

(** The request of [_upload_image_data_url_get_file_id], made once the data
    URL has passed the checks ([Upload.upload_image_data_url_get_file_id] has
    the checks and the registry): one request, no loop around it. An
    identifier that is missing or empty fails the test [if not file_id]. *)
Definition upload_image (o : outcome) : run string :=
  match o with
  | Failed msg => mkRun (Raise (TransportError msg)) [] 1
  | Responded status body_id text =>
      if negb (status =? 200)
      then mkRun (Raise (HTTPException 502 ("Image upload failed: " ++ text)%string)) [] 1
      else match body_id with
           | Some id =>
               if String.eqb id ""
               then mkRun (Raise (HTTPException 502
                             "Image upload succeeded but no file_id returned")) [] 1
               else mkRun (Ok id) [] 1
           | None =>
               mkRun (Raise (HTTPException 502
                        "Image upload succeeded but no file_id returned")) [] 1
           end
  end.

(** A signal the retry policy calls transient: a rate-limit or server-side
    status, or a transport failure. *)
Definition transient (o : outcome) : bool :=
  match o with
  | Failed _ => true
  | Responded status _ _ => transient_status status
  end.

(** [Forall2 Qeq]: two lists of delays with equal values. *)
Definition same_delays (l1 l2 : list Q) : Prop := Forall2 Qeq l1 l2.

End Retry.

(** ** The reply parser

    A Python [str] is a sequence of code points: the byte-order mark is the
    single code point U+FEFF, and [str.strip] and the pattern [\s] go by the
    Unicode white-space property. *)

Module ReplyParser.

Definition text : Type := list N.

(** An ASCII literal as a [str]. *)
Definition str (s : string) : text := map N_of_ascii (list_ascii_of_string s).

Definition BOM : N := 65279.
Definition backtick : N := 96.
Definition lbrace : N := 123.
Definition rbrace : N := 125.

(** The opening and closing fence of a code block. *)
Definition fence : text := [backtick; backtick; backtick].

(** [c.isspace()], which is also what [\s] matches in a [str] pattern. *)
Definition is_space (c : N) : bool :=
  ((9 <=? c) && (c <=? 13) || (28 <=? c) && (c <=? 32)
   || (c =? 133) || (c =? 160) || (c =? 5760)
   || (8192 <=? c) && (c <=? 8202)
   || (c =? 8232) || (c =? 8233) || (c =? 8239) || (c =? 8287)
   || (c =? 12288))%N.

(** [s.lstrip()] *)
Fixpoint skip_ws (s : text) : text :=
  match s with
  | c :: r => if is_space c then skip_ws r else s
  | [] => []
  end.

(** [s.strip()] *)
Definition strip (s : text) : text := rev (skip_ws (rev (skip_ws s))).

(** [s.lstrip(BOM)], for the one-character string of the byte-order mark *)
Fixpoint lstrip_bom (s : text) : text :=
  match s with
  | c :: r => if (c =? BOM)%N then lstrip_bom r else s
  | [] => []
  end.

(** [cleaned = content.strip().lstrip(BOM)] *)
Definition clean (content : text) : text := lstrip_bom (strip content).

(** [s] without its prefix [p], when it starts with [p]. *)
Fixpoint strip_prefix (p s : text) : option text :=
  match p, s with
  | [], _ => Some s
  | a :: p', b :: s' => if (a =? b)%N then strip_prefix p' s' else None
  | _ :: _, [] => None
  end.

Definition starts_with (p s : text) : bool :=
  match strip_prefix p s with Some _ => true | None => false end.

(** The end of the pattern, [\s*```], matched at [s]: the white space is
    skipped whole, as the fence does not start with white space. *)
Definition closes (s : text) : bool := starts_with fence (skip_ws s).

(** [.*?\}] followed by the end of the pattern, with [re.DOTALL]: the
    shortest run of characters up to a closing brace after which the pattern
    ends. The result is that run with the brace. *)
Fixpoint lazy_body (s : text) : option text :=
  match s with
  | [] => None
  | c :: r =>
      if (c =? rbrace)%N && closes r then Some [c]
      else match lazy_body r with
           | Some b => Some (c :: b)
           | None => None
           end
  end.

(** [\s*(\{.*?\})\s*```] matched at [s]: the group. *)
Definition match_group (s : text) : option text :=
  match skip_ws s with
  | c :: r =>
      if (c =? lbrace)%N
      then match lazy_body r with
           | Some b => Some (c :: b)
           | None => None
           end
      else None
  | [] => None
  end.

(** The whole pattern [```(?:json)?\s*(\{.*?\})\s*```] matched at the start
    of [s]: the optional [json] is taken when it is there, and given up when
    the rest does not match after it. *)
Definition match_here (s : text) : option text :=
  match strip_prefix fence s with
  | None => None
  | Some s1 =>
      match strip_prefix (str "json") s1 with
      | Some s2 =>
          match match_group s2 with
          | Some g => Some g
          | None => match_group s1
          end
      | None => match_group s1
      end
  end.

(** [re.search(pattern, s, re.DOTALL)]: the match that starts leftmost;
    the result is [group(1)]. *)
Fixpoint fence_search (s : text) : option text :=
  match match_here s with
  | Some g => Some g
  | None =>
      match s with
      | [] => None
      | _ :: r => fence_search r
      end
  end.

(** The text before and after the first [```] of [s]. *)
Fixpoint find_fence (s : text) : option (text * text) :=
  match strip_prefix fence s with
  | Some rest => Some ([], rest)
  | None =>
      match s with
      | [] => None
      | c :: r =>
          match find_fence r with
          | Some (before, rest) => Some (c :: before, rest)
          | None => None
          end
      end
  end.

(** [t] occurs in [s]. *)
Definition occurs (t s : text) : Prop := exists a b, s = a ++ t ++ b.

(** The first fenced code block of a reply, as Markdown has it: the text
    between the first [```] and the next one. *)
Definition first_fenced_block (s : text) : option text :=
  match find_fence s with
  | Some (_, rest) =>
      match find_fence rest with
      | Some (block, _) => Some block
      | None => None
      end
  | None => None
  end.

Section Chain.

(** [json.loads], from the standard library: [None] when it raises
    [JSONDecodeError]. *)
Variable json_loads : text -> option json.

(** The three attempts of the parser on one reply text, as the nested
    [try]/[except] blocks of [run_thread_with_assistant] and of
    [openai_json_response] make them. *)
Definition parse_reply (content : text) : result json :=
  match json_loads content with
  | Some v => Ok v
  | None =>
      let cleaned := clean content in
      match json_loads cleaned with
      | Some v => Ok v
      | None =>
          match fence_search content with
          | Some g =>
              match json_loads g with
              | Some v => Ok v
              | None => Raise JSONDecodeError
              end
          | None => Raise JSONDecodeError
          end
      end
  end.

(** The loop of [run_thread_with_assistant] over the text blocks of the
    run's messages: the first block that parses is returned, a block that
    does not is passed over ([continue]). *)
Fixpoint first_parsable (blocks : list text) : result json :=
  match blocks with
  | [] => Raise (HTTPException 502 "No valid JSON response found for this run")
  | content :: rest =>
      match parse_reply content with
      | Ok v => Ok v
      | Raise _ => first_parsable rest
      end
  end.

(** The chain as the specification words it: the candidates in order, the
    first that decodes wins. *)
Fixpoint first_success (candidates : list (option text)) : option json :=
  match candidates with
  | [] => None
  | None :: rest => first_success rest
  | Some c :: rest =>
      match json_loads c with
      | Some v => Some v
      | None => first_success rest
      end
  end.

Definition fallback_chain (content : text) : list (option text) :=
  [Some content; Some (clean content); fence_search content].

End Chain.

(** The line feed, used in the examples. *)
Definition LF : N := 10.

End ReplyParser.

(** ** [openai_json_response]: the chat-completion call with its retry loop *)

Module ChatCompletions.
Import ReplyParser Retry.

(** The double quote, written by its code so that no literal holds one. *)
Definition dquote : N := 34.

(** [json.dumps({"error": "empty_output"})] *)
Definition empty_output : text :=
  str "{" ++ [dquote] ++ str "error" ++ [dquote] ++ str ": "
  ++ [dquote] ++ str "empty_output" ++ [dquote] ++ str "}".

Section Call.

Variable json_loads : text -> option json.

(** The [try] block: the call, whose [content] may be [None] or empty, and
    the parse of the reply. *)
Definition chat_try (called : result (option text)) : result json :=
  content <- called ;;
  let reply :=
    match content with
    | Some (c :: r) => c :: r
    | _ => empty_output
    end in
  parse_reply json_loads reply.

(** The [try] block with its [except Exception as e] handler, which sleeps
    and lets the loop go on. *)
Definition chat_attempt (api : nat -> result (option text)) (attempt : nat)
  : control json :=
  match chat_try (api attempt) with
  | Ok v => Return v
  | Raise e => Continue (retry_delay (attempt - 1))
  end.

(** [for attempt in range(1, RETRY_MAX + 1)]; [api attempt] is what the call
    of that attempt returns or raises. *)
Definition openai_json_response (api : nat -> result (option text)) : run json :=
  for_attempts (chat_attempt api) (seq 1 RETRY_MAX)
               (HTTPException 502 "OpenAI call failed").

End Call.

End ChatCompletions.

(** ** The completion-polling loop of [run_thread_with_assistant] *)

Module Polling.
Import Retry.

(** What a status request comes back with. *)
Inductive poll_reply : Type :=
| PollStatus (http_status : Z) (run_status : string) (text : string)
| PollFailed (msg : string).

(** [status in ["failed", "cancelled", "expired"]] *)
Definition terminal_failure (run_status : string) : bool :=
  existsb (String.eqb run_status) ["failed"; "cancelled"; "expired"].

(** The polling delay is a Python [float], a binary64 number: the Standard
    Library's [spec_float], multiplied with 53 bits of precision and rounded
    to nearest even. The literals [0.1], [2.0] and [1.5] are the binary64
    numbers nearest to them, written with a 53-bit mantissa:
    [0x1.999999999999ap-4], [0x1p+1] and [0x1.8p+0]. *)
Definition float64 : Type := spec_float.

Definition initial_delay : float64 := S754_finite false 7205759403792794 (-56).
Definition max_delay : float64 := S754_finite false 4503599627370496 (-51).
Definition one_and_a_half : float64 := S754_finite false 6755399441055744 (-52).

(** [delay * 1.5] *)
Definition times_one_and_a_half (delay : float64) : float64 :=
  SFmul 53 1024 delay one_and_a_half.

(** [min(delay * 1.5, max_delay)]: the second argument when it is less than
    the first, else the first. *)
Definition next_delay (delay : float64) : float64 :=
  let d := times_one_and_a_half delay in
  if SFltb max_delay d then max_delay else d.

(** The rational a finite binary64 number stands for: the seconds that
    [asyncio.sleep(delay)] sleeps. *)
Definition seconds (delay : float64) : Q :=
  match delay with
  | S754_finite s m e =>
      let v := if 0 <=? e then inject_Z (Z.pos m * 2 ^ e)
               else Z.pos m # Z.to_pos (2 ^ (- e)) in
      if s then Qopp v else v
  | _ => 0%Q
  end.

(** What one turn of the inner [for attempt in range(RETRY_MAX)] loop does. *)
Inductive poll_control : Type :=
| PCompleted
| PPollAgain (slept : Q) (delay' : float64)
| PRetry (slept : Q)
| PThrow (e : exn).

(** The [try] block of the status request. *)
Definition poll_try (attempt : nat) (delay : float64) (o : poll_reply)
  : result poll_control :=
  match o with
  | PollFailed msg => Raise (TransportError msg)
  | PollStatus http_status run_status text =>
      if http_status =? 200 then
        if String.eqb run_status "completed" then Ok PCompleted
        else if terminal_failure run_status
        then Raise (HTTPException 502 ("Run " ++ run_status)%string)
        else Ok (PPollAgain (seconds delay) (next_delay delay))
      else if transient_status http_status && (attempt <? RETRY_MAX - 1)%nat
      then Ok (PRetry (retry_delay attempt))
      else Raise (HTTPException 502 ("Failed to check run status: " ++ text)%string)
  end.

(** The [try] block with its [except Exception as e] handler. *)
Definition poll_attempt (attempt : nat) (delay : float64) (o : poll_reply)
  : poll_control :=
  match poll_try attempt delay o with
  | Ok c => c
  | Raise e =>
      if (attempt <? RETRY_MAX - 1)%nat
      then PRetry (retry_delay attempt)
      else PThrow (HTTPException 502 "Failed to check run status after 4 attempts")
  end.

(** How the loop stands after the replies it was given: it left with
    [completed] set (the messages are fetched next), it raised, or it is
    still polling. *)
Inductive poll_end : Type :=
| Completed
| Raised (e : exn)
| StillPolling.

Record poll_run : Type := mkPoll {
  ended : poll_end;
  poll_sleeps : list Q;
  polls : nat
}.

(** [while True: for attempt in range(RETRY_MAX): ...], one status request
    per reply of the list; [attempt] and [delay] are the loop variables. *)
Fixpoint poll_loop (attempt : nat) (delay : float64) (replies : list poll_reply)
  : poll_run :=
  if (RETRY_MAX <=? attempt)%nat
  then mkPoll (Raised (HTTPException 502
                 "Failed to check run status after 4 attempts")) [] 0
  else
    match replies with
    | [] => mkPoll StillPolling [] 0
    | o :: rest =>
        match poll_attempt attempt delay o with
        | PCompleted => mkPoll Completed [] 1
        | PThrow e => mkPoll (Raised e) [] 1
        | PPollAgain d delay' =>
            let r := poll_loop 0 delay' rest in
            mkPoll (ended r) (d :: poll_sleeps r) (S (polls r))
        | PRetry d =>
            let r := poll_loop (S attempt) delay rest in
            mkPoll (ended r) (d :: poll_sleeps r) (S (polls r))
        end
    end.

(** The polling of a run, from its first status request. *)
Definition poll_until_done (replies : list poll_reply) : poll_run :=
  poll_loop 0 initial_delay replies.

(** The delays of [n] successive polls of a run that is not done. *)
Fixpoint backoff (delay : float64) (n : nat) : list Q :=
  match n with
  | O => []
  | S n' => seconds delay :: backoff (next_delay delay) n'
  end.

(** The delays the backoff goes through from [0.1]: eight products, each
    rounded, and then the cap. *)
Definition backoff_delays : list float64 :=
  [initial_delay;
   S754_finite false 5404319552844596 (-55);
   S754_finite false 8106479329266894 (-55);
   S754_finite false 6079859496950170 (-54);
   S754_finite false 4559894622712628 (-53);
   S754_finite false 6839841934068942 (-53);
   S754_finite false 5129881450551706 (-52);
   S754_finite false 7694822175827559 (-52);
   max_delay].

(** A status request answered with 200 and a status that is neither
    [completed] nor one of the three failures. *)
Definition pending (o : poll_reply) : bool :=
  match o with
  | PollStatus http_status run_status _ =>
      (http_status =? 200) && negb (String.eqb run_status "completed")
      && negb (terminal_failure run_status)
  | PollFailed _ => false
  end.

(** Three status replies: a run under way, a run that failed, a run that is
    done. *)
Definition running : poll_reply := PollStatus 200 "in_progress" "".
Definition failed : poll_reply := PollStatus 200 "failed" "".
Definition completed : poll_reply := PollStatus 200 "completed" "".

End Polling.

(** ** A decoder for the examples of the reply parser *)

Module ReplyExamples.
Import ReplyParser.

Fixpoint text_eqb (a b : text) : bool :=
  match a, b with
  | [], [] => true
  | x :: a', y :: b' => (x =? y)%N && text_eqb a' b'
  | _, _ => false
  end.

(** A decoder that knows a single document, the empty object [{}]; on the
    texts of the examples it answers as [json.loads] does. *)
Definition loads_empty_object (t : text) : option json :=
  if text_eqb t (str "{}") then Some (JObj []) else None.

(** A reply with its object in a block tagged [json]. *)
Definition tagged_json : text :=
  fence ++ str "json" ++ [LF] ++ str "{}" ++ [LF] ++ fence.

(** The same reply with the tag in capitals. *)
Definition tagged_JSON : text :=
  fence ++ str "JSON" ++ [LF] ++ str "{}" ++ [LF] ++ fence.

End ReplyExamples.

(** ** The merge of the per-page extraction records

    [combined_extraction_data[key] = value] binds the accumulator's key to the
    very object of the page record, and [.extend] then changes that object in
    place. The page records ([extraction_data_per_page]) are therefore the
    store, and the accumulator maps a key to the page whose record holds the
    object, under the same key. *)

Module Merge.

Definition store : Type := list json.

(** The items of a record; only a [dict] has any. *)
Definition fields (rec : json) : dict json :=
  match rec with JObj o => o | _ => [] end.

(** The object under [key] in the record of page [slot]. *)
Definition cell (st : store) (slot : nat) (key : string) : option json :=
  match nth_error st slot with
  | Some rec => get key (fields rec)
  | None => None
  end.

Fixpoint update_nth {A} (n : nat) (f : A -> A) (l : list A) : list A :=
  match l, n with
  | [], _ => []
  | x :: l', O => f x :: l'
  | x :: l', S n' => x :: update_nth n' f l'
  end.

(** The object under [key] in the record of page [slot] becomes [v]. *)
Definition set_cell (st : store) (slot : nat) (key : string) (v : json) : store :=
  update_nth slot
    (fun rec => match rec with JObj o => JObj (set key v o) | _ => rec end) st.

(** The body of [for key, value in page_data.items()] for the page at
    [slot]. An accumulator key always points to an object that exists
    ([MergeFacts.merge_items_bound]), so the last branch is not reached. *)
Definition merge_item (slot : nat) (acc : dict nat * store)
           (item : string * json) : dict nat * store :=
  let '(combined, st) := acc in
  let '(key, value) := item in
  match get key combined with
  | None => (set key slot combined, st)
  | Some owner =>
      match cell st owner key with
      | Some current =>
          match value, current with
          | JList l', JList l =>
              (combined, set_cell st owner key (JList (l ++ l')))
          | _, _ =>
              if negb (is_none value) && is_none current
              then (set key slot combined, st)
              else (combined, st)
          end
      | None => (combined, st)
      end
  end.

Definition merge_items (slot : nat) (items : dict json)
           (acc : dict nat * store) : dict nat * store :=
  fold_left (merge_item slot) items acc.

(** [l[i]] for a Python list: the position, counted from the end when [i] is
    negative. *)
Definition py_index {A} (l : list A) (i : Z) : result nat :=
  let n := Z.of_nat (List.length l) in
  if (0 <=? i) && (i <? n) then Ok (Z.to_nat i)
  else if (i <? 0) && (0 <=? n + i) then Ok (Z.to_nat (n + i))
  else Raise IndexError.

(** The body of [for page_idx in pages_flat]. *)
Definition merge_page (acc : dict nat * store) (page_idx : Z)
  : result (dict nat * store) :=
  let '(combined, st) := acc in
  if page_idx <? Z.of_nat (List.length st) then
    slot <- py_index st page_idx ;;
    match nth_error st slot with
    | Some rec =>
        if truthy rec then
          match rec with
          | JObj o => Ok (merge_items slot o (combined, st))
          | _ => Raise AttributeError
          end
        else Ok (combined, st)
    | None => Raise IndexError
    end
  else Ok (combined, st).

Fixpoint merge_pages (acc : dict nat * store) (pages : list Z)
  : result (dict nat * store) :=
  match pages with
  | [] => Ok acc
  | page_idx :: rest =>
      acc' <- merge_page acc page_idx ;;
      merge_pages acc' rest
  end.

(** The accumulator as the dictionary of values it stands for. *)
Fixpoint view (st : store) (combined : dict nat) : dict json :=
  match combined with
  | [] => []
  | (key, owner) :: rest =>
      match cell st owner key with
      | Some v => (key, v) :: view st rest
      | None => view st rest
      end
  end.

(** The merged record of a group before [pages_used] is set, with the page
    records as the loop leaves them. *)
Definition merged (st : store) (pages : list Z) : result (dict json * store) :=
  acc <- merge_pages ([], st) pages ;;
  Ok (view (snd acc) (fst acc), snd acc).

(** *** The loop over the groups

    [for doc_type, spans in grouped_spans.items()], as both [/ocr] and
    [/ocr/stream] have it. The dictionary of a group holds the objects of the
    page records, not copies of them: a list that a later group extends is
    the same list in a group built before. So a group is kept as its
    accumulator, which names the objects, and read against the page records
    as the whole loop leaves them ([Stream.group_of]). *)
Record built_group : Type := mkBuilt {
  built_doc_type : string;
  built_spans : list (list Z);
  built_data : dict nat
}.

(** The groups in the order they are built, and the page records the loop
    leaves. A group is built [if spans and spans[0]]. *)
Fixpoint combine_loop (st : store) (groups : dict (list (list Z)))
  : result (list built_group * store) :=
  match groups with
  | [] => Ok ([], st)
  | (doc_type, spans) :: rest =>
      match spans with
      | (_ :: _) :: _ =>
          acc <- merge_pages ([], st) (Grouping.pages_flat spans) ;;
          r <- combine_loop (snd acc) rest ;;
          Ok (mkBuilt doc_type spans (fst acc) :: fst r, snd r)
      | _ => combine_loop st rest
      end
  end.

(** A group as the grouping makes them: its first span has a first page. *)
Definition has_first_page (g : string * list (list Z)) : Prop :=
  exists i span rest, snd g = (i :: span) :: rest.

(** *** The merge as the specification words it *)

Definition spec_merge_field (acc : dict json) (item : string * json)
  : dict json :=
  let '(key, value) := item in
  match get key acc with
  | None => set key value acc
  | Some current =>
      match current, value with
      | JList l, JList l' => set key (JList (l ++ l')) acc
      | JNull, _ => if is_none value then acc else set key value acc
      | _, _ => acc
      end
  end.

Definition spec_merge_record (acc : dict json) (rec : json) : dict json :=
  fold_left spec_merge_field (fields rec) acc.

Definition spec_merge (records : list json) : dict json :=
  fold_left spec_merge_record records [].

(** The record of page [i] in index-aligned page records. *)
Definition record_at (st : store) (i : Z) : json :=
  nth (Z.to_nat i) st JNull.

(** Every key of the accumulator points to an object of the store. *)
Definition bound (st : store) (combined : dict nat) : Prop :=
  Forall (fun e => cell st (snd e) (fst e) <> None) combined.

(** The objects of the accumulator belong to the pages [done], or to the
    page [p] under one of the keys [ks]. *)
Definition owned (done : list nat) (p : nat) (ks : list string)
           (combined : dict nat) : Prop :=
  Forall (fun e => In (snd e) done \/ (snd e = p /\ In (fst e) ks)) combined.

(** What the loops keep true while the pages [done] have been merged and
    the keys [ks] of page [p]: the pages not yet merged are as in the store
    [st0] the merge started with. *)
Definition inv (st0 : store) (done : list nat) (p : nat) (ks : list string)
           (acc : dict nat * store) : Prop :=
  NoDup (keys (fst acc))
  /\ bound (snd acc) (fst acc)
  /\ owned done p ks (fst acc)
  /\ (forall s, ~ In s done -> nth_error (snd acc) s = nth_error st0 s)
  /\ List.length (snd acc) = List.length st0.

Definition view_of (acc : dict nat * store) : dict json :=
  view (snd acc) (fst acc).

(** Strictly ascending page indices. *)
Fixpoint ascending (l : list Z) : Prop :=
  match l with
  | [] => True
  | x :: l' => Forall (Z.lt x) l' /\ ascending l'
  end.

(** Page results whose [page_index] is their position, and page records
    beside them. *)
Definition index_aligned (pages : list PageResult) (st : store) : Prop :=
  map page_index pages = map Z.of_nat (seq 0 (List.length pages))
  /\ List.length st = List.length pages.

(** A page record the merge is meant for: a JSON object, whose keys are
    distinct as those of every [dict], or a value that counts as false. *)
Definition record_ok (rec : json) : Prop :=
  match rec with
  | JObj o => NoDup (keys o)
  | _ => truthy rec = false
  end.

End Merge.

(** ** The per-page workflow: [process_page_with_thread] and [classify_pages]

    What the remote service does for one page is given from outside: the
    value or the exception of each awaited call, in the order the workflow
    makes them. The extraction calls get the checked [doc_type], which is all
    of the prompt that the workflow computes. *)

Module PageProcessor.

Record remote : Type := mkRemote {
  assistants_ready : bool;
  created_thread : result string;
  sent_classification : result unit;
  classification_reply : result json;
  sent_extraction : string -> result unit;
  extraction_reply : string -> result json
}.

(** [obj.get(key, default)]; a value that is no [dict] has no [get]. *)
Definition dict_get (obj : json) (key : string) (default : json) : result json :=
  match obj with
  | JObj o => Ok (match get key o with Some v => v | None => default end)
  | _ => Raise AttributeError
  end.

(** [doc_type if doc_type in TYPE_ORDER else "Unknown"]: the list holds
    strings only, so a value of another type is not in it. *)
Definition checked_type (v : json) : string :=
  match v with
  | JStr s => if existsb (String.eqb s) TYPE_ORDER then s else "Unknown"
  | _ => "Unknown"
  end.

(** [max(0.0, min(1.0, conf))] *)
Definition clamp (conf : pyfloat) : pyfloat :=
  py_max (Fin 0) (py_min (Fin 1) conf).

(** [int(x)] of a finite float: truncation towards zero. *)
Definition trunc (q : Q) : Z := Z.quot (Qnum q) (Zpos (Qden q)).

(** The result a page gets when anything fails. *)
Definition degraded (page_index : Z) : PageResult * json :=
  (mkPageResult page_index "Unknown" (Fin 0) None None, JObj []).

(** [if isinstance(extraction_data, dict): extraction_data["pages_used"] =
    [page_index]] *)
Definition stamp_pages_used (page_index : Z) (extraction_data : json) : json :=
  match extraction_data with
  | JObj o => JObj (set "pages_used" (JList [JInt page_index]) o)
  | _ => extraction_data
  end.

(** [extract_for_group]: [if isinstance(obj, dict) and "pages_used" not in
    obj: obj["pages_used"] = pages_flat] *)
Definition stamp_if_absent (pages_flat : list Z) (obj : json) : json :=
  match obj with
  | JObj o =>
      if mem "pages_used" o then obj
      else JObj (set "pages_used" (JList (map JInt pages_flat)) o)
  | _ => obj
  end.

Section Builtins.

(** The conversions of the built-ins [float] and [int] that depend on the
    float format or on the syntax of numerals: [float] of an [int] (which
    rounds, or raises [OverflowError]) and [float] and [int] of a [str]
    (which parse, or raise [ValueError]). *)
Variable float_of_int : Z -> result pyfloat.
Variable float_of_str : string -> result pyfloat.
Variable int_of_str : string -> result Z.

(** Pydantic's validation of the two optional fields of [PageResult]. *)
Variable summary_field : json -> result (option json).
Variable hints_field : json -> result (option json).

(** [float(x)] *)
Definition py_float (x : json) : result pyfloat :=
  match x with
  | JFloat f => Ok f
  | JInt z => float_of_int z
  | JBool b => Ok (Fin (if b then 1 else 0))
  | JStr s => float_of_str s
  | JNull | JList _ | JObj _ => Raise TypeError
  end.

(** [int(x)] *)
Definition py_int (x : json) : result Z :=
  match x with
  | JInt z => Ok z
  | JBool b => Ok (if b then 1 else 0)
  | JFloat (Fin q) => Ok (trunc q)
  | JFloat NaN => Raise ValueError
  | JFloat _ => Raise OverflowError
  | JStr s => int_of_str s
  | JNull | JList _ | JObj _ => Raise TypeError
  end.

(** [try: conf = float(obj.get("confidence", 0.0)) except Exception: conf =
    0.0], then the clamp. *)
Definition confidence_of (obj : json) : pyfloat :=
  let conf :=
    match (c <- dict_get obj "confidence" (JFloat (Fin 0)) ;; py_float c) with
    | Ok f => f
    | Raise _ => Fin 0
    end in
  clamp conf.

(** The [try] block of [process_page_with_thread]. *)
Definition process_page_try (page_index : Z) (r : remote)
  : result (PageResult * json) :=
  thread_id <- created_thread r ;;
  _ <- sent_classification r ;;
  classification_result <- classification_reply r ;;
  reply_type <- dict_get classification_result "doc_type" (JStr "Unknown") ;;
  let doc_type := checked_type reply_type in
  _ <- sent_extraction r doc_type ;;
  extraction_result <- extraction_reply r doc_type ;;
  let conf := confidence_of classification_result in
  reply_index <- dict_get classification_result "page_index" (JInt page_index) ;;
  index <- py_int reply_index ;;
  Ok (mkPageResult index doc_type conf None None,
      stamp_pages_used page_index extraction_result).

(** [process_page_with_thread]: the early return, and the [try] block with
    its [except Exception] handler. The [finally] clause deletes the thread
    with [delete_thread], which logs what fails and returns. *)
Definition process_page_with_thread (page_index : Z) (r : remote)
  : result (PageResult * json) :=
  if negb (assistants_ready r) then Ok (degraded page_index)
  else try_except (process_page_try page_index r)
                  (fun _ => Ok (degraded page_index)).

(** [_one] of [classify_pages]; [reply] is what [openai_json_response]
    returns or raises. *)
Definition classify_one (i : Z) (reply : result json) : result PageResult :=
  obj <- reply ;;
  let doc_type :=
    checked_type (match obj with
                  | JObj o => match get "doc_type" o with
                              | Some v => v
                              | None => JNull
                              end
                  | _ => JNull
                  end) in
  let conf := confidence_of obj in
  reply_index <- dict_get obj "page_index" (JInt i) ;;
  index <- py_int (if truthy reply_index then reply_index else JInt i) ;;
  summary <- (v <- dict_get obj "brief_summary" JNull ;; summary_field v) ;;
  hints <- (v <- dict_get obj "key_hints" JNull ;; hints_field v) ;;
  Ok (mkPageResult index doc_type conf summary hints).

(** [page_tasks = [create_task(process_page_with_thread(i, b64_images[i]))
    for i in range(len(b64_images))]], the tasks from page [i] on; [remotes]
    is what the service does for each page. *)
Fixpoint page_tasks (i : nat) (remotes : list remote)
  : list (result (PageResult * json)) :=
  match remotes with
  | [] => []
  | r :: rest => process_page_with_thread (Z.of_nat i) r :: page_tasks (S i) rest
  end.

End Builtins.

(** [0 <= f <= 1] for a float. *)
Definition in_unit_interval (f : pyfloat) : Prop :=
  exists q, f = Fin q /\ (0 <= q <= 1)%Q.

(** [asyncio.gather] awaited on the tasks: the results in the order of the tasks,
    or the exception of a task that raised. *)
Fixpoint gather {A} (tasks : list (result A)) : result (list A) :=
  match tasks with
  | [] => Ok []
  | t :: rest =>
      match t, gather rest with
      | Raise e, _ => Raise e
      | Ok _, Raise e => Raise e
      | Ok a, Ok l => Ok (a :: l)
      end
  end.

(** [page_results_with_extraction = await asyncio.gather] of the page
    tasks, in [ocr_endpoint]. *)
Definition process_pages float_of_int float_of_str int_of_str
           (remotes : list remote) : result (list (PageResult * json)) :=
  gather (page_tasks float_of_int float_of_str int_of_str 0 remotes).

(** The workflow fails for a page: the assistants are missing or the [try]
    block raises. *)
Definition fails float_of_int float_of_str int_of_str (page_index : Z)
           (r : remote) : Prop :=
  assistants_ready r = false
  \/ exists e,
       process_page_try float_of_int float_of_str int_of_str page_index r
       = Raise e.

End PageProcessor.

(** ** Replies and builtins of the examples *)

Module PageExamples.
Import PageProcessor.

(** [float(n)] for the integers of the examples, which a float holds
    exactly, and the conversions of strings, of which the examples have
    none that is a numeral. *)
Definition float_of_small_int (z : Z) : result pyfloat := Ok (Fin (inject_Z z)).
Definition no_numeral_float (s : string) : result pyfloat := Raise ValueError.
Definition no_numeral_int (s : string) : result Z := Raise ValueError.

(** A service that answers every call; [classification] and [extraction]
    are the parsed replies of the two runs. *)
Definition answering (classification extraction : json) : remote :=
  mkRemote true (Ok "thread") (Ok tt) (Ok classification)
           (fun _ => Ok tt) (fun _ => Ok extraction).

(** A service that cannot be reached: the thread is not created. *)
Definition unreachable : remote :=
  mkRemote true (Raise (HTTPException 502 "Failed to create thread after 4 attempts"))
           (Ok tt) (Ok JNull) (fun _ => Ok tt) (fun _ => Ok JNull).

Definition invoice_reply : json :=
  JObj [("doc_type", JStr "TaxInvoice"); ("confidence", JFloat (Fin (9 # 10)))].

(** The same classification with a page index of the reply's own. *)
Definition invoice_reply_page_7 : json :=
  JObj [("doc_type", JStr "TaxInvoice"); ("confidence", JFloat (Fin (9 # 10)));
        ("page_index", JInt 7)].

(** An extraction reply that fills [pages_used], as the prompt asks. *)
Definition extraction_with_pages_used : json :=
  JObj [("pages_used", JList [JInt 5]); ("invoice_number", JStr "INV-1")].

End PageExamples.

(** ** The streaming endpoints

    A generator yields server-sent events while it runs and may stop with an
    exception: a computation is the list of the events it has yielded and
    the value or exception it ends with. *)

Module Stream.
Import PageProcessor Merge.

(** [class ExtractedGroup(BaseModel)] and [class OCRResponse(BaseModel)] *)
Record ExtractedGroup : Type := mkGroup {
  group_doc_type : string;
  page_spans : list (list Z);
  data : dict json
}.

Record OCRResponse : Type := mkResponse {
  num_pages : nat;
  page_results : list PageResult;
  grouped_results : list ExtractedGroup;
  timings_ms : dict Z
}.

(** [ExtractedGroup(doc_type=doc_type, page_spans=spans,
    data=combined_extraction_data)] as it reads when the response is
    serialised, with the page records [st] that the loop over the groups has
    left. The last assignment of the loop body,
    [combined_extraction_data["pages_used"] = pages_flat], binds a list of
    the group's own: the key keeps the place it has in the dictionary, or
    comes last. *)
Definition group_of (st : store) (b : built_group) : ExtractedGroup :=
  mkGroup (built_doc_type b) (built_spans b)
          (set "pages_used"
               (JList (map JInt (Grouping.pages_flat (built_spans b))))
               (view st (built_data b))).

(** [grouped_results] for the page records [st] and the groups
    [grouped_spans]. *)
Definition grouped_results_of (st : store) (grouped_spans : dict (list (list Z)))
  : result (list ExtractedGroup) :=
  r <- combine_loop st grouped_spans ;;
  Ok (map (group_of (snd r)) (fst r)).

(** The record of a group holds the flattened spans under [pages_used]. *)
Definition stamped_with_spans (g : ExtractedGroup) : Prop :=
  get "pages_used" (data g)
  = Some (JList (map JInt (Grouping.pages_flat (page_spans g)))).

(** The text of a [status] event: a literal, or the f-string
    [Found {len(grouped_spans)} document groups]. *)
Inductive message : Type :=
| Text (s : string)
| FoundGroups (n : nat).

(** The events, by their [type] (and [stage]) and with their other fields.
    [CompleteCounts] is the [complete] event of [/ocr-stream], with
    [total_pages] and [processed_pages]; [CompleteData] is the one of
    [/ocr/stream], with [data]. [Done] is the line [data: [DONE]]. *)
Inductive event : Type :=
| Start (total_pages : nat)
| PageResultEvent (page_index : nat) (page_result : PageResult)
                  (extraction_data : json)
| PageError (page_index : nat) (error : string)
| CompleteCounts (total_pages processed_pages : nat)
| Status (text : message)
| ProgressRender (duration_ms : Z) (pages : nat)
| ProgressProcess (page : nat) (doc_type : string) (confidence : pyfloat)
| ProgressClassifyComplete (duration_ms : Z)
| ProgressCombine (doc_type : string) (pages : list Z)
| CompleteData (response : OCRResponse)
| Error (text : string)
| Done.

(** *** The generator monad *)

Definition stream (A : Type) : Type := list event * result A.

Definition ret {A} (a : A) : stream A := ([], Ok a).

(** [yield] of an event *)
Definition yield (e : event) : stream unit := ([e], Ok tt).

(** [await] of a call that returns or raises *)
Definition await {A} (r : result A) : stream A := ([], r).

Definition sbind {A B} (m : stream A) (k : A -> stream B) : stream B :=
  match snd m with
  | Ok a => (fst m ++ fst (k a), snd (k a))
  | Raise e => (fst m, Raise e)
  end.

Notation "x <~ m ;; k" := (sbind m (fun x => k))
  (at level 61, m at next level, right associativity).

(** [try: m except Exception as e: h(e)] *)
Definition try_stream {A} (m : stream A) (h : exn -> stream A) : stream A :=
  match snd m with
  | Ok _ => m
  | Raise e => (fst m ++ fst (h e), snd (h e))
  end.

(** What [await asyncio.wait_for(results_queue.get(), ...)] gives when it
    does not time out. *)
Inductive queue_item : Type :=
| PageDone (page_index : nat) (page_result : PageResult) (extraction_data : json)
| PageFailed (page_index : nat) (error : string).

(** [page_results[page_index] = page_result] on the list of slots *)
Definition assign {A} (slots : list (option A)) (i : nat) (a : A)
  : result (list (option A)) :=
  if (i <? List.length slots)%nat
  then Ok (update_nth i (fun _ => Some a) slots)
  else Raise IndexError.

(** [sum(1 for r in page_results if r is not None)] *)
Definition count_some {A} (slots : list (option A)) : nat :=
  List.length (filter (fun s => match s with Some _ => true | None => false end)
                      slots).

(** The clock readings that go into the events, in milliseconds. *)
Record clock : Type := mkClock {
  render_ms : Z;
  classify_ms : Z;
  extract_ms : Z;
  total_ms : Z
}.

Definition timings (t : clock) : dict Z :=
  [("render_ms", render_ms t); ("classify_ms", classify_ms t);
   ("extract_ms", extract_ms t); ("total_ms", total_ms t)].

Section Endpoints.

Variable float_of_int : Z -> result pyfloat.
Variable float_of_str : string -> result pyfloat.
Variable int_of_str : string -> result Z.

(** [str(e)] *)
Variable describe : exn -> string.

(** *** [/ocr-stream]: the pages are processed concurrently *)

(** [process_single_page]: the result of the page, put on the queue. *)
Definition process_single_page (i : nat) (r : remote) : queue_item :=
  match process_page_with_thread float_of_int float_of_str int_of_str
                                 (Z.of_nat i) r with
  | Ok (page_result, extraction_data) => PageDone i page_result extraction_data
  | Raise e => PageFailed i (describe e)
  end.

(** The queue when the tasks finish in the order [order]. *)
Definition arrivals (remotes : list remote) (order : list nat)
  : list (result queue_item) :=
  flat_map (fun i => match nth_error remotes i with
                     | Some r => [Ok (process_single_page i r)]
                     | None => []
                     end) order.

(** The [while completed_pages < len(b64_images)] loop over what the queue
    gives. *)
Fixpoint drain (slots : list (option PageResult))
         (got : list (result queue_item)) : stream (list (option PageResult)) :=
  match got with
  | [] => ret slots
  | g :: rest =>
      item <~ await g ;;
      match item with
      | PageDone i page_result extraction_data =>
          slots' <~ await (assign slots i page_result) ;;
          _ <~ yield (PageResultEvent i page_result extraction_data) ;;
          drain slots' rest
      | PageFailed i error =>
          _ <~ yield (PageError i error) ;;
          drain slots rest
      end
  end.

(** The [try] block of [generate_stream] for [n] pages. *)
Definition concurrent_try (n : nat) (got : list (result queue_item))
  : stream unit :=
  _ <~ yield (Start n) ;;
  slots <~ drain (repeat None n) (firstn n got) ;;
  yield (CompleteCounts n (count_some slots)).

(** [generate_stream] of [/ocr-stream]: the events it yields. *)
Definition concurrent_stream (n : nat) (got : list (result queue_item))
  : list event :=
  fst (try_stream (concurrent_try n got) (fun e => yield (Error (describe e)))).

(** *** [/ocr/stream]: the pages are processed one after the other *)

(** [for i, b64_image in enumerate(b64_images)] *)
Fixpoint process_each (i : nat) (remotes : list remote)
  : stream (list (PageResult * json)) :=
  match remotes with
  | [] => ret []
  | r :: rest =>
      res <~ await (process_page_with_thread float_of_int float_of_str
                                             int_of_str (Z.of_nat i) r) ;;
      _ <~ yield (ProgressProcess i (doc_type (fst res)) (confidence (fst res))) ;;
      others <~ process_each (S i) rest ;;
      ret (res :: others)
  end.

(** [for doc_type, spans in grouped_spans.items()]: [Merge.combine_loop]
    with the [progress] event that follows each group. *)
Fixpoint combine_groups (st : store) (groups : dict (list (list Z)))
  : stream (list built_group * store) :=
  match groups with
  | [] => ret ([], st)
  | (doc_type, spans) :: rest =>
      match spans with
      | (_ :: _) :: _ =>
          let flat := Grouping.pages_flat spans in
          acc <~ await (merge_pages ([], st) flat) ;;
          _ <~ yield (ProgressCombine doc_type flat) ;;
          r <~ combine_groups (snd acc) rest ;;
          ret (mkBuilt doc_type spans (fst acc) :: fst r, snd r)
      | _ => combine_groups st rest
      end
  end.

(** What follows the opening of the document. *)
Definition sequential_pipeline (rendered : result unit)
           (remotes : list remote) (t : clock) : stream unit :=
  _ <~ yield (Status (Text "Rendering pages...")) ;;
  _ <~ await rendered ;;
  _ <~ yield (ProgressRender (render_ms t) (List.length remotes)) ;;
  _ <~ yield (Status (Text "Processing pages...")) ;;
  results <~ process_each 0 remotes ;;
  _ <~ yield (ProgressClassifyComplete (classify_ms t)) ;;
  let grouped_spans := Grouping.chunk_consecutive_by_type (map fst results) in
  _ <~ yield (Status (FoundGroups (List.length grouped_spans))) ;;
  _ <~ yield (Status (Text "Combining extraction data...")) ;;
  r <~ combine_groups (map snd results) grouped_spans ;;
  _ <~ yield (CompleteData (mkResponse (List.length remotes) (map fst results)
                                       (map (group_of (snd r)) (fst r))
                                       (timings t))) ;;
  yield Done.

(** The [try] block of [generate_stream]: [read] is [await file.read()],
    [opened] is [fitz.open], [rendered] the rendering of the pages. A
    document that does not open ends the generator with a [return]. *)
Definition sequential_try (read opened rendered : result unit)
           (remotes : list remote) (t : clock) : stream unit :=
  _ <~ yield (Status (Text "Processing started...")) ;;
  _ <~ await read ;;
  match opened with
  | Raise e => yield (Error ("Invalid PDF: " ++ describe e))
  | Ok _ => sequential_pipeline rendered remotes t
  end.

(** [generate_stream] of [/ocr/stream]: the events it yields. *)
Definition sequential_stream (read opened rendered : result unit)
           (remotes : list remote) (t : clock) : list event :=
  fst (try_stream (sequential_try read opened rendered remotes t)
                  (fun e => _ <~ yield (Error (describe e)) ;; yield Done)).

End Endpoints.

(** The last event of a stream. *)
Definition last_event (events : list event) : option event :=
  List.last (map Some events) None.

(** [events] ends with the events [tail]. *)
Definition ends_with (events tail : list event) : Prop :=
  exists before, events = before ++ tail.

(** An event of the page loop of [/ocr-stream]. *)
Definition page_event (e : event) : Prop :=
  match e with
  | PageResultEvent _ _ _ | PageError _ _ => True
  | _ => False
  end.

(** The event the loop of [/ocr-stream] yields for a result taken from the
    queue, and the pages whose slot such a result can fill. *)
Definition event_of_item (item : queue_item) : event :=
  match item with
  | PageDone i page_result extraction_data =>
      PageResultEvent i page_result extraction_data
  | PageFailed i error => PageError i error
  end.

Definition item_in_range (n : nat) (item : queue_item) : Prop :=
  match item with
  | PageDone i _ _ => (i < n)%nat
  | PageFailed _ _ => True
  end.

(** The [progress] event of [/ocr/stream] for a page and for a group. *)
Definition process_event (numbered : nat * (PageResult * json)) : event :=
  ProgressProcess (fst numbered) (doc_type (fst (snd numbered)))
                  (confidence (fst (snd numbered))).

Definition combine_event (g : ExtractedGroup) : event :=
  ProgressCombine (group_doc_type g) (Grouping.pages_flat (page_spans g)).

(** A rendering of exceptions for the examples. *)
Definition describe_status (e : exn) : string :=
  match e with
  | HTTPException _ detail => detail
  | TransportError msg => msg
  | _ => "error"
  end.

End Stream.

(** ** Other remote calls: [delete_thread], [send_message_to_thread] and the
    registry of uploaded files *)

Module RemoteCalls.
Import Retry.


(** The sum of the sleeps of a call, in seconds. *)
Definition total_sleep (l : list Q) : Q := fold_right Qplus 0%Q l.

(** *** [delete_thread] *)




(** *** [send_message_to_thread] *)






End RemoteCalls.

(** ** The registry of uploaded files, [FILES_BY_THREAD] *)

Module Files.

Definition registry : Type := dict (list string).

(** [del d[k]] for a key that is there *)
Fixpoint remove {V} (k : string) (d : dict V) : dict V :=
  match d with
  | [] => []
  | (k', v) :: d' => if String.eqb k' k then d' else (k', v) :: remove k d'
  end.

(** The end of [_upload_image_data_url_get_file_id]: [if track_thread_id:
    FILES_BY_THREAD[track_thread_id].append(file_id)], on a [defaultdict]. *)
Definition track (reg : registry) (track_thread_id : option string)
           (file_id : string) : registry :=
  match track_thread_id with
  | None => reg
  | Some t => if String.eqb t "" then reg else setdefault_append reg t file_id
  end.

(** [_delete_files_for_thread]: the registry it leaves and the files it asks
    the service to delete, in order. A request that fails is logged and the
    loop goes on, so the outcome of the requests does not show. *)
Definition delete_files_for_thread (reg : registry) (thread_id : string)
  : registry * list string :=
  match get thread_id reg with
  | None | Some [] => (reg, [])
  | Some files => (remove thread_id reg, files)
  end.

End Files.

(** ** The upload of a page image, [_upload_image_data_url_get_file_id]

    The checks of the data URL come before the request, and the identifier
    of the file is filed under the thread after it. The MIME type and the
    file name read from the header only go into the form that is posted. *)

Module Upload.
Import Retry Files.

(** [header, b64part = data_url.split(",", 1)]: [None] when there is no
    comma and the unpacking raises [ValueError]. *)
Fixpoint split_at_comma (s : string) : option (string * string) :=
  match s with
  | EmptyString => None
  | String c rest =>
      if Ascii.eqb c ","%char then Some (EmptyString, rest)
      else match split_at_comma rest with
           | Some (header, b64part) => Some (String c header, b64part)
           | None => None
           end
  end.

Section Upload.

(** Whether [base64.b64decode(b64part, validate=True)] returns. *)
Variable b64decode_returns : string -> bool.

(** The registry the call leaves and its run; [o] is what the request to
    the files endpoint comes back with. *)
Definition upload_image_data_url_get_file_id (reg : registry)
           (data_url : string) (track_thread_id : option string) (o : outcome)
  : registry * run string :=
  if negb (String.prefix "data:image/" data_url) then
    (reg, mkRun (Raise (HTTPException 400 "Expected data URL for image upload"))
                [] 0)
  else
    match split_at_comma data_url with
    | None => (reg, mkRun (Raise (HTTPException 400 "Malformed data URL")) [] 0)
    | Some (header, b64part) =>
        if negb (b64decode_returns b64part) then
          (reg, mkRun (Raise (HTTPException 400 "Invalid base64 in data URL"))
                      [] 0)
        else
          match value (upload_image o) with
          | Ok file_id => (track reg track_thread_id file_id, upload_image o)
          | Raise _ => (reg, upload_image o)
          end
    end.

End Upload.

End Upload.

(** ** The reply of a run among the messages of a thread

    Step 4 of [run_thread_with_assistant]: the messages are sorted by
    [created_at], newest first, and the first text block of an assistant
    message of this run that parses is the reply. *)

Module RunReply.
Import ReplyParser.

(** A block of [message["content"]]: its [type], and [text.value] when it
    has one. *)
Record block : Type := mkBlock {
  block_type : option string;
  block_value : option text
}.

Record message : Type := mkMessage {
  role : string;
  message_run_id : option string;
  created_at : Z;
  content : list block
}.





Section Replies.

Variable json_loads : text -> option json.




End Replies.


End RunReply.

(** ** The batch endpoint [/ocr] *)

Module Batch.
Import PageProcessor Merge Stream.

(** Whether [json.dumps(..., allow_nan=False)], which [JSONResponse] calls,
    takes the value: it raises [ValueError] for a float that is a NaN or an
    infinity. Strings are held here as what they encode to, so a string with
    a lone surrogate, which the encoding of the response refuses, is not
    among the values. *)
Fixpoint json_compliant (v : json) : bool :=
  match v with
  | JFloat (Fin _) => true
  | JFloat _ => false
  | JList l =>
      (fix all (l : list json) : bool :=
         match l with
         | [] => true
         | x :: rest => json_compliant x && all rest
         end) l
  | JObj o =>
      (fix all (o : list (string * json)) : bool :=
         match o with
         | [] => true
         | (_, x) :: rest => json_compliant x && all rest
         end) o
  | _ => true
  end.

(** The same for [final_response.dict()]: the floats of a response are the
    confidences of the page results and those of the records of the
    groups. *)
Definition response_compliant (response : OCRResponse) : bool :=
  forallb (fun pr => json_compliant (JFloat (confidence pr)))
          (page_results response)
  && forallb (fun g => json_compliant (JObj (data g)))
             (grouped_results response).

(** The [timings_ms] of [/ocr]. *)
Definition batch_timings (t : clock) : dict Z :=
  [("render_ms", render_ms t); ("process_ms", classify_ms t);
   ("combine_ms", extract_ms t); ("total_ms", total_ms t)].

Section Endpoint.

Variable float_of_int : Z -> result pyfloat.
Variable float_of_str : string -> result pyfloat.
Variable int_of_str : string -> result Z.

(** [ocr_endpoint]: [is_pdf] is the test of the file name, [read] is
    [await file.read()], [opened] is [fitz.open], [rendered] the rendering
    of the pages, [remotes] what the service does for each page, [saved] the
    writing of [ocr_response.json]. The response is what [JSONResponse]
    serialises. *)
Definition ocr_endpoint (is_pdf : bool) (read opened rendered : result unit)
           (remotes : list remote) (saved : result unit) (t : clock)
  : result OCRResponse :=
  if negb is_pdf then Raise (HTTPException 400 "Please upload a PDF file.")
  else
    _ <- read ;;
    match opened with
    | Raise _ => Raise (HTTPException 400 "Invalid PDF")
    | Ok _ =>
        _ <- rendered ;;
        results <- process_pages float_of_int float_of_str int_of_str remotes ;;
        let page_results := map fst results in
        let grouped_spans := Grouping.chunk_consecutive_by_type page_results in
        grouped_results <- grouped_results_of (map snd results) grouped_spans ;;
        let final_response :=
          mkResponse (List.length remotes) page_results grouped_results
                     (batch_timings t) in
        _ <- saved ;;
        if response_compliant final_response then Ok final_response
        else Raise ValueError
    end.

End Endpoint.

End Batch.

(** * Properties *)

(** ** Facts on dictionaries *)

Module DictFacts.

Lemma keys_setdefault_append {A} (d : dict (list A)) k x :
  keys (setdefault_append d k x) = if mem k d then keys d else keys d ++ [k].
Proof.
  unfold mem. induction d as [|[k' v] d IH]; simpl; [reflexivity|].
  rewrite (String.eqb_sym k k').
  destruct (String.eqb k' k); simpl; [reflexivity|].
  rewrite IH. destruct (existsb (String.eqb k) (keys d)); reflexivity.
Qed.

Lemma get_setdefault_append {A} (d : dict (list A)) k x t :
  get t (setdefault_append d k x) =
  if String.eqb k t
  then Some (match get t d with Some v => v ++ [x] | None => [x] end)
  else get t d.
Proof.
  induction d as [|[k' v] d IH]; simpl.
  - destruct (String.eqb k t); reflexivity.
  - destruct (String.eqb k' k) eqn:Ek; simpl.
    + apply String.eqb_eq in Ek. subst k'.
      destruct (String.eqb k t); reflexivity.
    + destruct (String.eqb k' t) eqn:Et.
      * apply String.eqb_eq in Et. subst k'.
        rewrite String.eqb_sym, Ek. reflexivity.
      * apply IH.
Qed.

Lemma setdefault_append_fresh {A} (d : dict (list A)) k x :
  mem k d = false -> setdefault_append d k x = d ++ [(k, [x])].
Proof.
  unfold mem. induction d as [|[k' v] d IH]; simpl; intros H; [reflexivity|].
  apply orb_false_iff in H. destruct H as [H1 H2].
  rewrite String.eqb_sym, H1. f_equal. auto.
Qed.

Lemma mem_In {V} (d : dict V) k : mem k d = true <-> In k (keys d).
Proof.
  unfold mem. rewrite existsb_exists. split.
  - intros [x [Hx E]]. apply String.eqb_eq in E. now subst.
  - intros H. exists k. split; [assumption|apply String.eqb_refl].
Qed.

End DictFacts.

(** ** Grouping *)

Module GroupingFacts.
Import Grouping DictFacts.

Lemma chunk_loop_runs g t cur ps :
  chunk_loop g t cur ps = fold_left file_run (runs_from t cur ps) g.
Proof.
  revert g t cur. induction ps as [|p ps IH]; intros g t cur; simpl.
  - reflexivity.
  - destruct (String.eqb (doc_type p) t); simpl; apply IH.
Qed.

Lemma runs_from_head t cur ps :
  exists c rs, runs_from t cur ps = (t, c) :: rs.
Proof.
  revert cur. induction ps as [|p ps IH]; intros cur; simpl.
  - now exists cur, [].
  - destruct (String.eqb (doc_type p) t).
    + apply IH.
    + now exists cur, (runs_from (doc_type p) [page_index p] ps).
Qed.

Lemma runs_from_expand t cur ps :
  flat_map expand (runs_from t cur ps) = map (pair t) cur ++ map page_key ps.
Proof.
  revert t cur. induction ps as [|p ps IH]; intros t cur; simpl.
  - reflexivity.
  - destruct (String.eqb (doc_type p) t) eqn:E.
    + apply String.eqb_eq in E. rewrite IH, map_app, <- app_assoc. simpl.
      unfold page_key at 2. now rewrite E.
    + simpl. rewrite IH. reflexivity.
Qed.

Lemma runs_from_nonempty t cur ps :
  cur <> [] -> Forall (fun r => snd r <> []) (runs_from t cur ps).
Proof.
  revert t cur. induction ps as [|p ps IH]; intros t cur Hc; simpl.
  - constructor; [assumption|constructor].
  - destruct (String.eqb (doc_type p) t).
    + apply IH. intros H. now apply app_eq_nil in H as [_ H].
    + constructor; [assumption|]. apply IH. discriminate.
Qed.

Lemma runs_from_adjacent t cur ps :
  adjacent_differ (map fst (runs_from t cur ps)).
Proof.
  revert t cur. induction ps as [|p ps IH]; intros t cur; simpl.
  - exact I.
  - destruct (String.eqb (doc_type p) t) eqn:E.
    + apply IH.
    + specialize (IH (doc_type p) [page_index p]).
      destruct (runs_from_head (doc_type p) [page_index p] ps) as [c [rs Hrs]].
      rewrite Hrs in *. simpl in *. split; [|assumption].
      intros H. subst t. now rewrite String.eqb_refl in E.
Qed.

Lemma filter_neq_idem x (l : list string) :
  filter (fun y => negb (String.eqb y x)) (filter (fun y => negb (String.eqb y x)) l)
  = filter (fun y => negb (String.eqb y x)) l.
Proof.
  induction l as [|a l IH]; simpl; [reflexivity|].
  destruct (negb (String.eqb a x)) eqn:E; simpl; [rewrite E|]; now rewrite IH.
Qed.

Lemma first_appearance_runs_from t cur ps :
  first_appearance (map fst (runs_from t cur ps))
  = first_appearance (t :: map doc_type ps).
Proof.
  revert t cur. induction ps as [|p ps IH]; intros t cur; simpl.
  - reflexivity.
  - destruct (String.eqb (doc_type p) t) eqn:E.
    + apply String.eqb_eq in E. rewrite IH, E. simpl.
      now rewrite filter_neq_idem.
    + simpl. rewrite IH. simpl. now rewrite E.
Qed.

Lemma filter_notin_seen ks k (l : list string) :
  existsb (String.eqb k) ks = true ->
  filter (notin ks) (filter (fun y => negb (String.eqb y k)) l)
  = filter (notin ks) l.
Proof.
  intros Hk. induction l as [|a l IH]; simpl; [reflexivity|].
  destruct (String.eqb a k) eqn:E; simpl.
  - apply String.eqb_eq in E. subst a. unfold notin at 2. now rewrite Hk.
  - now rewrite IH.
Qed.

Lemma filter_notin_snoc ks k (l : list string) :
  filter (notin (ks ++ [k])) l
  = filter (notin ks) (filter (fun y => negb (String.eqb y k)) l).
Proof.
  induction l as [|a l IH]; simpl; [reflexivity|].
  unfold notin at 1. rewrite existsb_app. simpl. rewrite orb_false_r.
  destruct (String.eqb a k) eqn:E; simpl.
  - rewrite orb_true_r. simpl. apply IH.
  - rewrite orb_false_r. fold (notin ks a).
    destruct (notin ks a); now rewrite IH.
Qed.

Lemma filter_notin_nil (l : list string) : filter (notin []) l = l.
Proof.
  induction l as [|a l IH]; simpl; [reflexivity|]. now rewrite IH.
Qed.

Lemma keys_fold_file_run rs g :
  keys (fold_left file_run rs g)
  = keys g ++ filter (notin (keys g)) (first_appearance (map fst rs)).
Proof.
  revert g. induction rs as [|[k c] rs IH]; intros g; simpl.
  - now rewrite app_nil_r.
  - rewrite IH. unfold file_run. simpl.
    rewrite keys_setdefault_append. unfold mem.
    replace (notin (keys g) k) with (negb (existsb (String.eqb k) (keys g)))
      by reflexivity.
    destruct (existsb (String.eqb k) (keys g)) eqn:Hk; simpl.
    + now rewrite filter_notin_seen.
    + now rewrite <- app_assoc, filter_notin_snoc.
Qed.

Lemma spans_of_fold_file_run t rs g :
  spans_of t (fold_left file_run rs g)
  = spans_of t g ++ map snd (filter (fun r => String.eqb (fst r) t) rs).
Proof.
  revert g. induction rs as [|[k c] rs IH]; intros g; simpl.
  - now rewrite app_nil_r.
  - rewrite IH. unfold spans_of, file_run. simpl.
    rewrite get_setdefault_append.
    destruct (String.eqb k t); simpl.
    + destruct (get t g); now rewrite <- ?app_assoc.
    + reflexivity.
Qed.

Lemma emitted_file_run g r :
  Permutation (emitted_indices (file_run g r)) (emitted_indices g ++ snd r).
Proof.
  destruct r as [k c]. unfold file_run, emitted_indices, values, pages_flat. simpl.
  induction g as [|[k' v] g IH]; simpl.
  - now rewrite !app_nil_r.
  - destruct (String.eqb k' k); simpl.
    + rewrite concat_app. simpl. rewrite app_nil_r, <- !app_assoc.
      apply Permutation_app_head, Permutation_app_comm.
    + rewrite <- app_assoc. now apply Permutation_app_head.
Qed.

Lemma emitted_fold_file_run rs g :
  Permutation (emitted_indices (fold_left file_run rs g))
              (emitted_indices g ++ concat (map snd rs)).
Proof.
  revert g. induction rs as [|r rs IH]; intros g; simpl.
  - now rewrite app_nil_r.
  - rewrite IH. rewrite app_assoc.
    apply Permutation_app_tail, emitted_file_run.
Qed.

Lemma concat_runs_expand (rs : list (string * list Z)) :
  concat (map snd rs) = map snd (flat_map expand rs).
Proof.
  induction rs as [|[k c] rs IH]; simpl; [reflexivity|].
  rewrite map_app, IH. f_equal. unfold expand. simpl.
  rewrite map_map. simpl. now rewrite map_id.
Qed.

Lemma fold_file_run_fresh rs g :
  NoDup (map fst rs) ->
  (forall r, In r rs -> mem (fst r) g = false) ->
  fold_left file_run rs g = g ++ map (fun r => (fst r, [snd r])) rs.
Proof.
  revert g. induction rs as [|[k c] rs IH]; intros g Hnd Hfresh; simpl.
  - now rewrite app_nil_r.
  - inversion Hnd as [|? ? Hk Hnd']; subst.
    unfold file_run at 2. simpl.
    rewrite setdefault_append_fresh by (apply (Hfresh (k, c)); now left).
    rewrite IH; [now rewrite <- app_assoc|assumption|].
    intros r Hr. unfold mem, keys. rewrite map_app, existsb_app. simpl.
    fold (keys g). fold (mem (fst r) g).
    rewrite (Hfresh r) by now right. simpl. rewrite orb_false_r.
    apply not_true_is_false. intros E. apply String.eqb_eq in E.
    apply Hk. rewrite <- E. now apply in_map.
Qed.

Lemma emitted_singletons (rs : list (string * list Z)) :
  emitted_indices (map (fun r => (fst r, [snd r])) rs) = concat (map snd rs).
Proof.
  unfold emitted_indices, values, pages_flat.
  induction rs as [|r rs IH]; simpl; [reflexivity|].
  now rewrite app_nil_r, IH.
Qed.

(** The three-page document A, B, A used below. *)
Lemma chunk_example_interleaved :
  chunk_consecutive_by_type
    [mk "TaxInvoice" 0; mk "EWayBill" 1; mk "TaxInvoice" 2]
  = [("TaxInvoice", [[0]; [2]]); ("EWayBill", [[1]])].
Proof. reflexivity. Qed.

(** C1, as stated, fails: for pages of types TaxInvoice, EWayBill, TaxInvoice
    the dictionary has one group per type, the TaxInvoice group holds the two
    separated runs [0] and [2], and the groups' spans concatenated in the
    order they are emitted give 0, 2, 1 and not 0, 1, 2. *)
Lemma chunk_concat_not_original :
  let pages := [mk "TaxInvoice" 0; mk "EWayBill" 1; mk "TaxInvoice" 2] in
  let groups := chunk_consecutive_by_type pages in
  List.length groups = 2%nat
  /\ List.length (runs pages) = 3%nat
  /\ emitted_indices groups = [0; 2; 1]
  /\ emitted_indices groups <> map page_index pages.
Proof.
  cbv zeta. rewrite chunk_example_interleaved.
  repeat split; try reflexivity. discriminate.
Qed.

(** C1 (amended): [runs pages] is the partition of the page sequence into
    maximal runs of adjacent pages of one type (expanding the runs gives back
    the pages in order, no run is empty, neighbouring runs differ in type);
    [chunk_consecutive_by_type] files every run under its type: the keys are
    the types in first-appearance order, the spans of a type are its runs in
    page order, and the indices of all groups are a permutation of the page
    indices. When no type comes back after another type, every group is one
    run and the groups' spans concatenated reconstruct the index sequence. *)
Theorem chunk_consecutive_by_type_runs (pages : list PageResult) :
  let groups := chunk_consecutive_by_type pages in
  flat_map expand (runs pages) = map page_key pages
  /\ Forall (fun r => snd r <> []) (runs pages)
  /\ adjacent_differ (map fst (runs pages))
  /\ keys groups = first_appearance (map doc_type pages)
  /\ (forall t, spans_of t groups
                = map snd (filter (fun r => String.eqb (fst r) t) (runs pages)))
  /\ Permutation (emitted_indices groups) (map page_index pages)
  /\ (NoDup (map fst (runs pages)) ->
      groups = map (fun r => (fst r, [snd r])) (runs pages)
      /\ emitted_indices groups = map page_index pages).
Proof.
  cbv zeta. destruct pages as [|p0 rest].
  - simpl. repeat split; try reflexivity; constructor.
  - assert (Hidx : concat (map snd (runs (p0 :: rest)))
                   = map page_index (p0 :: rest)).
    { rewrite concat_runs_expand. simpl runs.
      rewrite runs_from_expand. simpl. now rewrite map_map. }
    unfold chunk_consecutive_by_type. rewrite chunk_loop_runs.
    fold (runs (p0 :: rest)).
    split; [|split; [|split; [|split; [|split; [|split]]]]].
    + simpl runs. now rewrite runs_from_expand.
    + apply runs_from_nonempty. discriminate.
    + apply runs_from_adjacent.
    + rewrite keys_fold_file_run. simpl runs.
      rewrite first_appearance_runs_from. change (keys []) with (@nil string).
      apply filter_notin_nil.
    + intros t. now rewrite spans_of_fold_file_run.
    + rewrite <- Hidx. apply (emitted_fold_file_run _ []).
    + intros Hnd. rewrite fold_file_run_fresh by (assumption || reflexivity).
      simpl app. split; [reflexivity|].
      now rewrite emitted_singletons.
Qed.

(** The amended statement at the pages A, A, B: two groups, spans [0,1] and
    [2], concatenation 0, 1, 2. *)
Lemma chunk_consecutive_by_type_runs_witness :
  let pages := [mk "TaxInvoice" 0; mk "TaxInvoice" 1; mk "EWayBill" 2] in
  chunk_consecutive_by_type pages
  = [("TaxInvoice", [[0; 1]]); ("EWayBill", [[2]])]
  /\ emitted_indices (chunk_consecutive_by_type pages) = [0; 1; 2].
Proof.
  cbv zeta.
  pose proof (chunk_consecutive_by_type_runs
                [mk "TaxInvoice" 0; mk "TaxInvoice" 1; mk "EWayBill" 2]) as H.
  cbv zeta in H.
  destruct H as (_ & _ & _ & _ & _ & _ & H).
  assert (Hnd : NoDup (map fst (runs [mk "TaxInvoice" 0; mk "TaxInvoice" 1;
                                       mk "EWayBill" 2]))).
  { simpl. constructor; [|constructor; [|constructor]]; simpl; intuition discriminate. }
  destruct (H Hnd) as [H1 H2]. split; [exact H1 | exact H2].
Defined.

End GroupingFacts.

(** ** The retry loop *)

Module RetryFacts.
Import Retry ChatCompletions.

Lemma retry_delay_values :
  retry_delay 0 == 5 # 4 /\ retry_delay 1 == 5 # 2 /\ retry_delay 2 == 5 # 1
  /\ retry_delay 3 == 10 # 1.
Proof. repeat split; reflexivity. Qed.

(** A transient signal before the last attempt: sleep and go on. *)
Lemma transient_attempt_continues net attempt :
  transient (net attempt) = true -> (attempt < RETRY_MAX - 1)%nat ->
  create_thread_attempt net attempt = Continue (retry_delay attempt).
Proof.
  intros Ht Hlt. apply Nat.ltb_lt in Hlt.
  unfold create_thread_attempt, create_thread_try.
  destruct (net attempt) as [status body_id txt|msg]; simpl in *.
  - assert (H200 : (status =? 200) || (status =? 201) = false).
    { unfold transient_status in Ht. simpl in Ht.
      destruct (Z.eqb_spec status 200) as [->|]; [discriminate|].
      destruct (Z.eqb_spec status 201) as [->|]; [discriminate|reflexivity]. }
    rewrite H200, Ht, Hlt. reflexivity.
  - now rewrite Hlt.
Qed.

(** A transient signal on the last attempt: the loop is left without a
    sleep, either by falling through or by the handler's [raise]. *)
Lemma transient_last_attempt net :
  transient (net 3%nat) = true ->
  create_thread_attempt net 3 = NextAttempt
  \/ exists detail, create_thread_attempt net 3 = Throw (HTTPException 502 detail).
Proof.
  intros Ht. unfold create_thread_attempt, create_thread_try.
  destruct (net 3%nat) as [status body_id txt|msg]; simpl in *.
  - assert (H200 : (status =? 200) || (status =? 201) = false).
    { unfold transient_status in Ht. simpl in Ht.
      destruct (Z.eqb_spec status 200) as [->|]; [discriminate|].
      destruct (Z.eqb_spec status 201) as [->|]; [discriminate|reflexivity]. }
    rewrite H200, Ht. now left.
  - right. eexists. reflexivity.
Qed.

(** A 200 or 201 response with an identifier ends the call. *)
Lemma success_attempt_returns net attempt status id txt :
  net attempt = Responded status (Some id) txt ->
  status = 200 \/ status = 201 ->
  create_thread_attempt net attempt = Return id.
Proof.
  intros Hn Hs. unfold create_thread_attempt, create_thread_try. rewrite Hn.
  destruct Hs as [-> | ->]; reflexivity.
Qed.

Lemma for_attempts_continue {A} (body : nat -> control A) a rest after :
  body a = Continue (retry_delay a) ->
  for_attempts body (a :: rest) after
  = mkRun (value (for_attempts body rest after))
          (retry_delay a :: sleeps (for_attempts body rest after))
          (S (requests (for_attempts body rest after))).
Proof. intros H. simpl. now rewrite H. Qed.

Lemma create_openai_thread_exhausted net :
  (forall a, (a < RETRY_MAX)%nat -> transient (net a) = true) ->
  (exists detail, value (create_openai_thread net) = Raise (HTTPException 502 detail))
  /\ requests (create_openai_thread net) = RETRY_MAX
  /\ sleeps (create_openai_thread net) = map retry_delay (seq 0 (RETRY_MAX - 1)).
Proof.
  intros H. unfold create_openai_thread, RETRY_MAX in *. simpl seq.
  rewrite !for_attempts_continue
    by (apply transient_attempt_continues; [apply H|]; unfold RETRY_MAX; lia).
  destruct (transient_last_attempt net (H 3%nat ltac:(lia))) as [E|[d E]];
    simpl; rewrite E; simpl; repeat split; eauto.
Qed.

Lemma create_openai_thread_recovers net k status id txt :
  (k < RETRY_MAX)%nat ->
  (forall a, (a < k)%nat -> transient (net a) = true) ->
  net k = Responded status (Some id) txt -> status = 200 \/ status = 201 ->
  value (create_openai_thread net) = Ok id
  /\ requests (create_openai_thread net) = S k
  /\ sleeps (create_openai_thread net) = map retry_delay (seq 0 k).
Proof.
  intros Hk H Hn Hs. unfold create_openai_thread, RETRY_MAX in *. simpl seq.
  pose proof (success_attempt_returns net k status id txt Hn Hs) as Hret.
  destruct k as [|[|[|[|k]]]]; [| | | |lia];
    rewrite ?for_attempts_continue
      by (apply transient_attempt_continues; [apply H|]; unfold RETRY_MAX; lia);
    simpl; rewrite Hret; simpl; repeat split.
Qed.

Section Chat.

Variable json_loads : ReplyParser.text -> option json.

Lemma chat_failed_attempt_continues api attempt e :
  chat_try json_loads (api attempt) = Raise e ->
  chat_attempt json_loads api attempt = Continue (retry_delay (attempt - 1)).
Proof. intros H. unfold chat_attempt. now rewrite H. Qed.

Lemma openai_json_response_exhausted api :
  (forall a, (1 <= a <= RETRY_MAX)%nat ->
             exists e, chat_try json_loads (api a) = Raise e) ->
  value (openai_json_response json_loads api)
  = Raise (HTTPException 502 "OpenAI call failed")
  /\ requests (openai_json_response json_loads api) = RETRY_MAX
  /\ sleeps (openai_json_response json_loads api)
     = map retry_delay (seq 0 RETRY_MAX).
Proof.
  intros H. unfold openai_json_response, RETRY_MAX in *. simpl seq.
  destruct (H 1%nat ltac:(lia)) as [e1 E1].
  destruct (H 2%nat ltac:(lia)) as [e2 E2].
  destruct (H 3%nat ltac:(lia)) as [e3 E3].
  destruct (H 4%nat ltac:(lia)) as [e4 E4].
  simpl.
  rewrite (chat_failed_attempt_continues _ _ _ E1),
          (chat_failed_attempt_continues _ _ _ E2),
          (chat_failed_attempt_continues _ _ _ E3),
          (chat_failed_attempt_continues _ _ _ E4).
  simpl. repeat split.
Qed.

Lemma openai_json_response_recovers api k v :
  (k < RETRY_MAX)%nat ->
  (forall a, (1 <= a <= k)%nat -> exists e, chat_try json_loads (api a) = Raise e) ->
  chat_try json_loads (api (S k)) = Ok v ->
  value (openai_json_response json_loads api) = Ok v
  /\ requests (openai_json_response json_loads api) = S k
  /\ sleeps (openai_json_response json_loads api) = map retry_delay (seq 0 k).
Proof.
  intros Hk H Hv. unfold openai_json_response, RETRY_MAX in *. simpl seq.
  assert (Hret : chat_attempt json_loads api (S k) = Return v).
  { unfold chat_attempt. now rewrite Hv. }
  destruct k as [|[|[|[|k]]]]; [| | | |lia]; simpl.
  - rewrite Hret. simpl. repeat split.
  - destruct (H 1%nat ltac:(lia)) as [e1 E1].
    rewrite (chat_failed_attempt_continues _ _ _ E1), Hret. simpl. repeat split.
  - destruct (H 1%nat ltac:(lia)) as [e1 E1].
    destruct (H 2%nat ltac:(lia)) as [e2 E2].
    rewrite (chat_failed_attempt_continues _ _ _ E1),
            (chat_failed_attempt_continues _ _ _ E2), Hret. simpl. repeat split.
  - destruct (H 1%nat ltac:(lia)) as [e1 E1].
    destruct (H 2%nat ltac:(lia)) as [e2 E2].
    destruct (H 3%nat ltac:(lia)) as [e3 E3].
    rewrite (chat_failed_attempt_continues _ _ _ E1),
            (chat_failed_attempt_continues _ _ _ E2),
            (chat_failed_attempt_continues _ _ _ E3), Hret. simpl. repeat split.
Qed.

End Chat.

(** What [create_openai_thread] does with a status outside the transient
    list: its [raise] is inside the [try], the handler of the same loop
    catches it, and the request is repeated like a transient one. *)
Lemma create_openai_thread_client_error_retried :
  let r := create_openai_thread (fun _ => Responded 400 None "bad request") in
  requests r = 4%nat
  /\ same_delays (sleeps r) [5 # 4; 5 # 2; 5 # 1]
  /\ value r = Raise (HTTPException 502 "Failed to create thread after 4 attempts").
Proof.
  cbv zeta. repeat split. repeat constructor; reflexivity.
Qed.

(** C4, as stated, fails: [openai_json_response] does not tell a transient
    signal from another. A call that is refused with status 400 on every
    attempt is made four times, and the loop sleeps after each failure, the
    last included: 1.25, 2.5, 5 and 10 seconds. *)
Lemma openai_json_response_retries_any_error :
  let r := openai_json_response (fun _ => None)
                                (fun _ => Raise (APIStatusError 400)) in
  requests r = 4%nat
  /\ same_delays (sleeps r) [5 # 4; 5 # 2; 5 # 1; 10 # 1]
  /\ value r = Raise (HTTPException 502 "OpenAI call failed").
Proof.
  cbv zeta. repeat split. repeat constructor; reflexivity.
Qed.

(** C4 (amended): in [create_openai_thread] a transient signal (status 429,
    500, 502, 503 or 504, or an exception of the transport) before the last
    of the [RETRY_MAX] = 4 attempts is followed by a sleep of
    [RETRY_BASE_DELAY * 2 ** attempt] and another attempt: four transient
    signals in a row make four requests with sleeps 1.25, 2.5 and 5 between
    them and raise an [HTTPException] with status 502; a success after [k]
    transient signals returns after [k + 1] requests and the first [k]
    sleeps. [openai_json_response] makes at most four calls, takes every
    exception alike, sleeps after every failed call (1.25, 2.5, 5, 10) and
    raises status 502 after the fourth. The image upload is a single
    request that is never repeated. *)
Theorem retry_policy (json_loads : ReplyParser.text -> option json)
        (net : nat -> outcome)
        (api : nat -> result (option ReplyParser.text)) :
  ((forall a, (a < RETRY_MAX)%nat -> transient (net a) = true) ->
   (exists detail,
       value (create_openai_thread net) = Raise (HTTPException 502 detail))
   /\ requests (create_openai_thread net) = RETRY_MAX
   /\ same_delays (sleeps (create_openai_thread net)) [5 # 4; 5 # 2; 5 # 1])
  /\ (forall k status id txt,
        (k < RETRY_MAX)%nat ->
        (forall a, (a < k)%nat -> transient (net a) = true) ->
        net k = Responded status (Some id) txt -> status = 200 \/ status = 201 ->
        value (create_openai_thread net) = Ok id
        /\ requests (create_openai_thread net) = S k
        /\ sleeps (create_openai_thread net) = map retry_delay (seq 0 k))
  /\ ((forall a, (1 <= a <= RETRY_MAX)%nat ->
                 exists e, chat_try json_loads (api a) = Raise e) ->
      value (openai_json_response json_loads api)
      = Raise (HTTPException 502 "OpenAI call failed")
      /\ requests (openai_json_response json_loads api) = RETRY_MAX
      /\ same_delays (sleeps (openai_json_response json_loads api))
                     [5 # 4; 5 # 2; 5 # 1; 10 # 1])
  /\ (forall k v,
        (k < RETRY_MAX)%nat ->
        (forall a, (1 <= a <= k)%nat ->
                   exists e, chat_try json_loads (api a) = Raise e) ->
        chat_try json_loads (api (S k)) = Ok v ->
        value (openai_json_response json_loads api) = Ok v
        /\ requests (openai_json_response json_loads api) = S k
        /\ sleeps (openai_json_response json_loads api)
           = map retry_delay (seq 0 k))
  /\ (forall o, requests (upload_image o) = 1%nat /\ sleeps (upload_image o) = []).
Proof.
  split; [|split; [|split; [|split]]].
  - intros H. destruct (create_openai_thread_exhausted net H) as (Hv & Hr & Hs).
    split; [exact Hv|split; [exact Hr|]].
    rewrite Hs. repeat constructor; reflexivity.
  - intros k status id txt. apply create_openai_thread_recovers.
  - intros H.
    destruct (openai_json_response_exhausted json_loads api H) as (Hv & Hr & Hs).
    split; [exact Hv|split; [exact Hr|]].
    rewrite Hs. repeat constructor; reflexivity.
  - intros k v. apply openai_json_response_recovers.
  - intros o. destruct o as [status body_id txt|msg]; simpl; [|now split].
    destruct (negb (status =? 200)); [now split|].
    destruct body_id as [id|]; [destruct (String.eqb id "")|]; now split.
Qed.

(** The amended statement at a service that answers 503 to every request
    and a chat call that always times out. *)
Lemma retry_policy_witness :
  requests (create_openai_thread (fun _ => Responded 503 None "unavailable"))
  = 4%nat
  /\ same_delays
       (sleeps (create_openai_thread (fun _ => Responded 503 None "unavailable")))
       [5 # 4; 5 # 2; 5 # 1]
  /\ requests (openai_json_response (fun _ => None)
                 (fun _ => Raise (TransportError "timeout"))) = 4%nat.
Proof.
  destruct (retry_policy (fun _ => None)
              (fun _ => Responded 503 None "unavailable")
              (fun _ => Raise (TransportError "timeout")))
    as (Hthread & _ & Hchat & _).
  destruct Hthread as (_ & Hr & Hs); [intros a _; reflexivity|].
  destruct Hchat as (_ & Hr' & _);
    [intros a _; exists (TransportError "timeout"); reflexivity|].
  split; [exact Hr|split; [exact Hs|exact Hr']].
Defined.

End RetryFacts.

(** ** The completion-polling loop *)

Module PollingFacts.
Import Retry Polling.

(** The backoff never exceeds the cap: the cap is not less than the next
    delay, whatever the delay. *)
Lemma next_delay_capped delay : SFltb max_delay (next_delay delay) = false.
Proof.
  unfold next_delay. cbv zeta.
  destruct (SFltb max_delay (times_one_and_a_half delay)) eqn:E.
  - reflexivity.
  - exact E.
Qed.

(** The delays of the backoff from [0.1] are the nine of [backoff_delays]:
    the next delay of each is the one after it, and the cap stays. *)
Lemma next_delay_backoff_delays :
  map next_delay backoff_delays = tl backoff_delays ++ [max_delay].
Proof. vm_compute. reflexivity. Qed.

Lemma backoff_delays_closed d : In d backoff_delays -> In (next_delay d) backoff_delays.
Proof.
  intros H.
  assert (Hin : In (next_delay d) (map next_delay backoff_delays))
    by now apply in_map.
  rewrite next_delay_backoff_delays in Hin.
  apply in_app_or in Hin as [Hin|[<-|[]]].
  - right. exact Hin.
  - unfold backoff_delays. do 8 right. now left.
Qed.

(** None of them is longer than two seconds. *)
Lemma backoff_delays_at_most_2 d : In d backoff_delays -> (seconds d <= 2)%Q.
Proof.
  unfold backoff_delays.
  intros H; repeat (destruct H as [<-|H]; [discriminate|]); destruct H.
Qed.

(** A run that is not done is polled again: every pending reply costs one
    request and one sleep of the current delay, the delay then grows by half
    up to the cap, and the loop goes on for as many replies as it is given. *)
Lemma poll_pending_goes_on replies delay :
  forallb pending replies = true ->
  poll_loop 0 delay replies
  = mkPoll StillPolling (backoff delay (List.length replies))
           (List.length replies).
Proof.
  revert delay. induction replies as [|o rest IH]; intros delay H.
  - reflexivity.
  - simpl in H. apply andb_true_iff in H as [Ho Hrest].
    destruct o as [http run_status txt|msg]; [|discriminate].
    simpl in Ho. apply andb_true_iff in Ho as [Ho Hterm].
    apply andb_true_iff in Ho as [H200 Hcomp].
    apply negb_true_iff in Hcomp, Hterm.
    cbn [poll_loop]. change (RETRY_MAX <=? 0)%nat with false. cbv iota.
    unfold poll_attempt, poll_try. rewrite H200, Hcomp, Hterm.
    rewrite (IH _ Hrest). reflexivity.
Qed.

(** A [completed] status leaves the loop for the fetch of the messages. *)
Lemma poll_completed_exits replies delay rest :
  forallb pending replies = true ->
  ended (poll_loop 0 delay (replies ++ completed :: rest)) = Completed
  /\ polls (poll_loop 0 delay (replies ++ completed :: rest))
     = S (List.length replies).
Proof.
  revert delay. induction replies as [|o replies IH]; intros delay H.
  - split; reflexivity.
  - simpl in H. apply andb_true_iff in H as [Ho Hrest].
    destruct o as [http run_status txt|msg]; [|discriminate].
    simpl in Ho. apply andb_true_iff in Ho as [Ho Hterm].
    apply andb_true_iff in Ho as [H200 Hcomp].
    apply negb_true_iff in Hcomp, Hterm.
    simpl app. cbn [poll_loop]. change (RETRY_MAX <=? 0)%nat with false. cbv iota.
    unfold poll_attempt, poll_try. rewrite H200, Hcomp, Hterm.
    destruct (IH (next_delay delay) Hrest) as [He Hp].
    cbn [ended polls]. now rewrite He, Hp.
Qed.

(** C6 at its failing input. A [failed] status does not end the polling:
    the exception raised for it is caught by the handler of the retry loop
    around the status request, which sleeps 1.25 seconds and asks again.
    When the next status is [completed] the loop is left as for a run that
    succeeded and the reply is fetched; a status that stays [failed] costs
    four requests and sleeps of 1.25, 2.5 and 5 seconds before status 502 is
    raised. *)
Theorem poll_failed_status_is_polled_again :
  ended (poll_until_done [failed; completed]) = Completed
  /\ polls (poll_until_done [failed; completed]) = 2%nat
  /\ same_delays (poll_sleeps (poll_until_done [failed; completed])) [5 # 4]
  /\ ended (poll_until_done [failed; failed; failed; failed])
     = Raised (HTTPException 502 "Failed to check run status after 4 attempts")
  /\ polls (poll_until_done [failed; failed; failed; failed]) = 4%nat
  /\ same_delays (poll_sleeps (poll_until_done [failed; failed; failed; failed]))
                 [5 # 4; 5 # 2; 5 # 1].
Proof.
  repeat split; repeat constructor; reflexivity.
Qed.

(** The first delays of the backoff, and 2 from the ninth poll on. Each is
    within a billionth of a second of 0.1, 0.15, 0.225, ..., the products in
    exact arithmetic, but only the first, 0.1 as a binary64 number, and the
    cap are what the decimal says: the second is 0.15000000000000002. *)
Lemma backoff_first_delays :
  backoff initial_delay 10 = map seconds (backoff_delays ++ [max_delay])
  /\ Forall2 (fun s q => (Qabs (s - q) <= 1 # 1000000000)%Q)
             (backoff initial_delay 10)
             [1 # 10; 3 # 20; 9 # 40; 27 # 80; 81 # 160; 243 # 320; 729 # 640;
              2187 # 1280; 2 # 1; 2 # 1]
  /\ ~ (seconds (next_delay initial_delay) == 3 # 20)%Q.
Proof.
  split; [vm_compute; reflexivity|]. split.
  - repeat constructor; vm_compute; discriminate.
  - vm_compute. discriminate.
Qed.

End PollingFacts.

(** ** The reply parser *)

Module ParserFacts.
Import ReplyParser ReplyExamples.

Local Arguments N.eqb : simpl never.

Lemma strip_prefix_fence s : strip_prefix fence (fence ++ s) = Some s.
Proof. reflexivity. Qed.

Lemma skip_ws_app ws s :
  forallb is_space ws = true -> skip_ws (ws ++ s) = skip_ws s.
Proof.
  induction ws as [|c ws IH]; simpl; intros H; [reflexivity|].
  apply andb_true_iff in H as [Hc Hws]. rewrite Hc. now apply IH.
Qed.

Lemma find_fence_tail c s : find_fence (c :: s) = None -> find_fence s = None.
Proof.
  intros H. cbn [find_fence] in H.
  destruct (strip_prefix fence (c :: s)); [discriminate|].
  destruct (find_fence s) as [[before rest]|]; [discriminate|reflexivity].
Qed.

Lemma find_fence_head s : find_fence s = None -> strip_prefix fence s = None.
Proof.
  destruct s as [|c s]; [reflexivity|].
  intros H. cbn [find_fence] in H.
  destruct (strip_prefix fence (c :: s)); [discriminate|reflexivity].
Qed.

(** A fence that is not in [b ++ "}"] is not at the start of what follows
    [b] in a longer text either. *)
Lemma strip_prefix_fence_brace b rest :
  strip_prefix fence (b ++ [rbrace]) = None ->
  strip_prefix fence (b ++ rbrace :: rest) = None.
Proof.
  destruct b as [|x [|y [|z b]]]; simpl;
    repeat match goal with
           | |- context [(?a =? ?b)%N] => destruct (a =? b)%N eqn:?; simpl
           end; congruence.
Qed.

(** The closing fence is not found before the last brace of a text that
    holds no fence. *)
Lemma closes_needs_fence b rest :
  find_fence (b ++ [rbrace]) = None -> closes (b ++ rbrace :: rest) = false.
Proof.
  induction b as [|c b IH]; intros H; [reflexivity|].
  unfold closes. simpl skip_ws.
  destruct (is_space c) eqn:Hc.
  - apply IH. exact (find_fence_tail _ _ H).
  - unfold starts_with.
    change (c :: b ++ rbrace :: rest) with ((c :: b) ++ rbrace :: rest).
    now rewrite (strip_prefix_fence_brace (c :: b) rest (find_fence_head _ H)).
Qed.

Lemma closes_at_fence ws post :
  forallb is_space ws = true -> closes (ws ++ fence ++ post) = true.
Proof.
  intros H. unfold closes. rewrite (skip_ws_app _ _ H). reflexivity.
Qed.

(** The lazy body stops at the last brace of an object that holds no
    fence and is followed by the closing fence. *)
Lemma lazy_body_object body ws post :
  find_fence (body ++ [rbrace]) = None ->
  forallb is_space ws = true ->
  lazy_body (body ++ rbrace :: ws ++ fence ++ post) = Some (body ++ [rbrace]).
Proof.
  intros Hnf Hws. induction body as [|c body IH].
  - cbn [app lazy_body]. rewrite (closes_at_fence _ _ Hws). reflexivity.
  - cbn [app lazy_body].
    rewrite (closes_needs_fence body _ (find_fence_tail _ _ Hnf)).
    rewrite andb_false_r. now rewrite (IH (find_fence_tail _ _ Hnf)).
Qed.

Lemma match_group_object ws1 body ws2 post :
  forallb is_space ws1 = true -> forallb is_space ws2 = true ->
  find_fence (body ++ [rbrace]) = None ->
  match_group (ws1 ++ lbrace :: body ++ rbrace :: ws2 ++ fence ++ post)
  = Some (lbrace :: body ++ [rbrace]).
Proof.
  intros H1 H2 Hnf. unfold match_group.
  rewrite (skip_ws_app _ _ H1).
  change (skip_ws (lbrace :: body ++ rbrace :: ws2 ++ fence ++ post))
    with (lbrace :: body ++ rbrace :: ws2 ++ fence ++ post).
  change (lbrace =? lbrace)%N with true. cbv iota.
  now rewrite (lazy_body_object _ _ _ Hnf H2).
Qed.

(** White space followed by an opening brace does not start with [json]. *)
Lemma no_tag_before_brace ws s :
  forallb is_space ws = true ->
  strip_prefix (str "json") (ws ++ lbrace :: s) = None.
Proof.
  destruct ws as [|c ws]; [reflexivity|].
  simpl. intros H. apply andb_true_iff in H as [Hc _].
  destruct (106 =? c)%N eqn:E; [|reflexivity].
  apply N.eqb_eq in E. subst c. discriminate.
Qed.

Lemma match_here_object tag ws1 body ws2 post :
  tag = [] \/ tag = str "json" ->
  forallb is_space ws1 = true -> forallb is_space ws2 = true ->
  find_fence (body ++ [rbrace]) = None ->
  match_here (fence ++ tag ++ ws1 ++ lbrace :: body ++ rbrace :: ws2 ++ fence ++ post)
  = Some (lbrace :: body ++ [rbrace]).
Proof.
  intros [-> | ->] H1 H2 Hnf; unfold match_here; rewrite strip_prefix_fence.
  - simpl app. rewrite (no_tag_before_brace _ _ H1).
    now apply match_group_object.
  - replace (strip_prefix (str "json")
               (str "json" ++ ws1 ++ lbrace :: body ++ rbrace :: ws2 ++ fence ++ post))
      with (Some (ws1 ++ lbrace :: body ++ rbrace :: ws2 ++ fence ++ post))
      by reflexivity.
    cbv beta iota. now rewrite (match_group_object _ _ _ _ H1 H2 Hnf).
Qed.

Lemma strip_prefix_split p s r : strip_prefix p s = Some r -> s = p ++ r.
Proof.
  revert s. induction p as [|a p IH]; intros s H.
  - simpl in H. now injection H as ->.
  - destruct s as [|b s]; [discriminate|]. simpl in H.
    destruct (a =? b)%N eqn:E; [|discriminate].
    apply N.eqb_eq in E. subst b. simpl. f_equal. now apply IH.
Qed.

(** The search starts its match at the first fence when the pattern matches
    there. *)
Lemma fence_search_first_fence s pre rest g :
  find_fence s = Some (pre, rest) ->
  match_here (fence ++ rest) = Some g ->
  fence_search s = Some g.
Proof.
  revert pre. induction s as [|c s IH]; intros pre Hf Hm.
  - discriminate.
  - cbn [find_fence] in Hf.
    destruct (strip_prefix fence (c :: s)) as [r|] eqn:E.
    + injection Hf as <- <-. apply strip_prefix_split in E.
      rewrite <- E in Hm. cbn [fence_search]. now rewrite Hm.
    + destruct (find_fence s) as [[before rest']|] eqn:E2; [|discriminate].
      injection Hf as <- <-.
      cbn [fence_search]. unfold match_here at 1. rewrite E.
      now apply (IH before).
Qed.

Section ChainFacts.

Variable json_loads : text -> option json.

(** The nested handlers are the chain: the raw text, the cleaned text and
    the group of the pattern are decoded in this order and the first that
    decodes is the result. *)
Lemma parse_reply_first_success content :
  parse_reply json_loads content
  = match first_success json_loads (fallback_chain content) with
    | Some v => Ok v
    | None => Raise JSONDecodeError
    end.
Proof.
  unfold parse_reply, fallback_chain. cbv zeta. simpl first_success.
  destruct (json_loads content); [reflexivity|].
  destruct (json_loads (clean content)); [reflexivity|].
  destruct (fence_search content) as [g|]; [|reflexivity].
  destruct (json_loads g); reflexivity.
Qed.

(** The pattern finds the object of the first fence when the fence is bare
    or tagged [json]. *)
Lemma fence_search_object content pre tag ws1 body ws2 post :
  find_fence content
  = Some (pre, tag ++ ws1 ++ lbrace :: body ++ rbrace :: ws2 ++ fence ++ post) ->
  tag = [] \/ tag = str "json" ->
  forallb is_space ws1 = true -> forallb is_space ws2 = true ->
  find_fence (body ++ [rbrace]) = None ->
  fence_search content = Some (lbrace :: body ++ [rbrace]).
Proof.
  intros Hf Htag H1 H2 Hnf.
  apply (fence_search_first_fence _ _ _ _ Hf).
  now apply match_here_object.
Qed.

End ChainFacts.

(** C7, as stated, fails: a reply whose first fenced block holds the valid
    object [{}] under the tag [JSON] is not parsed. The pattern finds
    nothing in it, so whenever the raw and the cleaned text do not decode (as
    they do not for [json.loads]) the parser raises. *)
Lemma fenced_object_with_other_tag_not_found :
  first_fenced_block tagged_JSON = Some (str "JSON" ++ [LF] ++ str "{}" ++ [LF])
  /\ loads_empty_object (str "{}") = Some (JObj [])
  /\ fence_search tagged_JSON = None
  /\ parse_reply loads_empty_object tagged_JSON = Raise JSONDecodeError
  /\ first_parsable loads_empty_object [tagged_JSON]
     = Raise (HTTPException 502 "No valid JSON response found for this run")
  /\ (forall json_loads,
        json_loads tagged_JSON = None -> json_loads (clean tagged_JSON) = None ->
        parse_reply json_loads tagged_JSON = Raise JSONDecodeError).
Proof.
  repeat (split; [reflexivity|]).
  intros json_loads Hraw Hclean. unfold parse_reply. cbv zeta.
  now rewrite Hraw, Hclean.
Qed.

(** C7 (amended): the parser is an ordered chain whose first success wins:
    the raw text, then the text stripped of surrounding white space and of
    leading byte-order marks, then the group of the first match of the
    pattern in the raw text; when none decodes it raises, and the loop over
    the blocks of a run ends with status 502. The pattern finds the object
    of the first fence of the reply when that fence is bare or tagged
    [json], is followed after white space only by the object, and the object
    holds no fence and is followed after white space only by the closing
    fence; the object is then returned when the first two steps fail. *)
Theorem parse_reply_fallback_chain (json_loads : text -> option json)
        (content : text) :
  parse_reply json_loads content
  = match first_success json_loads (fallback_chain content) with
    | Some v => Ok v
    | None => Raise JSONDecodeError
    end
  /\ (first_success json_loads (fallback_chain content) = None ->
      first_parsable json_loads [content]
      = Raise (HTTPException 502 "No valid JSON response found for this run"))
  /\ (forall pre tag ws1 body ws2 post v,
        find_fence content
        = Some (pre, tag ++ ws1 ++ lbrace :: body ++ rbrace :: ws2 ++ fence ++ post) ->
        tag = [] \/ tag = str "json" ->
        forallb is_space ws1 = true -> forallb is_space ws2 = true ->
        find_fence (body ++ [rbrace]) = None ->
        json_loads content = None -> json_loads (clean content) = None ->
        json_loads (lbrace :: body ++ [rbrace]) = Some v ->
        parse_reply json_loads content = Ok v).
Proof.
  split; [apply parse_reply_first_success|split].
  - intros H. cbn [first_parsable].
    now rewrite parse_reply_first_success, H.
  - intros pre tag ws1 body ws2 post v Hf Htag H1 H2 Hnf Hraw Hclean Hobj.
    unfold parse_reply. cbv zeta. rewrite Hraw, Hclean.
    rewrite (fence_search_object _ _ _ _ _ _ _ Hf Htag H1 H2 Hnf).
    now rewrite Hobj.
Qed.

(** The amended statement at the reply whose block is tagged [json]. *)
Lemma parse_reply_fallback_chain_witness :
  parse_reply loads_empty_object tagged_json = Ok (JObj []).
Proof.
  apply (proj2 (proj2 (parse_reply_fallback_chain loads_empty_object tagged_json))
           [] (str "json") [LF] [] [LF] [] (JObj []));
    solve [reflexivity | right; reflexivity].
Defined.

End ParserFacts.

(** ** The merge of the extraction records *)

Module MergeFacts.
Import Merge.

Lemma get_set_same {V} k (v : V) d : get k (set k v d) = Some v.
Proof.
  induction d as [|[k' v'] d IH]; simpl.
  - now rewrite String.eqb_refl.
  - destruct (String.eqb k' k) eqn:E; simpl; rewrite E; [reflexivity|exact IH].
Qed.

Lemma get_set_other {V} k k' (v : V) d :
  k <> k' -> get k' (set k v d) = get k' d.
Proof.
  intros Hne. induction d as [|[k0 v0] d IH]; simpl.
  - destruct (String.eqb k k') eqn:E; [|reflexivity].
    apply String.eqb_eq in E. contradiction.
  - destruct (String.eqb k0 k) eqn:E; simpl.
    + apply String.eqb_eq in E. subst k0.
      destruct (String.eqb k k') eqn:E'; [|reflexivity].
      apply String.eqb_eq in E'. contradiction.
    + now rewrite IH.
Qed.

Lemma get_none_notin {V} k (d : dict V) : get k d = None <-> ~ In k (keys d).
Proof.
  induction d as [|[k' v'] d IH]; simpl.
  - split; [intros _ []|reflexivity].
  - destruct (String.eqb k' k) eqn:E.
    + apply String.eqb_eq in E. subst. split; [discriminate|]. intros H. now elim H; left.
    + apply String.eqb_neq in E. rewrite IH. split.
      * intros H [H'|H']; [contradiction|now apply H].
      * intros H H'. apply H. now right.
Qed.

Lemma get_some_in {V} k (v : V) d : get k d = Some v -> In (k, v) d.
Proof.
  induction d as [|[k' v'] d IH]; simpl; [discriminate|].
  destruct (String.eqb k' k) eqn:E.
  - apply String.eqb_eq in E. subst. intros [= ->]. now left.
  - intros H. right. now apply IH.
Qed.

Lemma get_first {V} pre k (v : V) post :
  ~ In k (keys pre) -> get k (pre ++ (k, v) :: post) = Some v.
Proof.
  induction pre as [|[k' v'] pre IH]; simpl; intros H.
  - now rewrite String.eqb_refl.
  - destruct (String.eqb k' k) eqn:E.
    + apply String.eqb_eq in E. subst. elim H. now left.
    + apply IH. intros H'. apply H. now right.
Qed.

Lemma set_absent {V} k (v : V) d : get k d = None -> set k v d = d ++ [(k, v)].
Proof.
  induction d as [|[k' v'] d IH]; simpl; [reflexivity|].
  destruct (String.eqb k' k); [discriminate|]. intros H. now rewrite IH.
Qed.

Lemma keys_set_present {V} k (v c : V) d :
  get k d = Some c -> keys (set k v d) = keys d.
Proof.
  induction d as [|[k' v'] d IH]; simpl; [discriminate|].
  destruct (String.eqb k' k) eqn:E; simpl; [reflexivity|].
  intros H. f_equal. now apply IH.
Qed.

Lemma NoDup_keys_set {V} k (v : V) d : NoDup (keys d) -> NoDup (keys (set k v d)).
Proof.
  intros H. destruct (get k d) as [c|] eqn:E.
  - now rewrite (keys_set_present _ _ _ _ E).
  - rewrite (set_absent _ _ _ E). unfold keys. rewrite map_app. simpl.
    apply NoDup_app_remove_l with (l := []). simpl.
    apply (Permutation_NoDup (l := k :: map fst d)).
    + apply Permutation_cons_append.
    + constructor; [|exact H]. now apply get_none_notin.
Qed.

Lemma Forall_set {V} (P : string * V -> Prop) k v d :
  Forall P d -> P (k, v) -> Forall P (set k v d).
Proof.
  intros H Hk. induction H as [|[k' v'] d Hx Hd IH]; simpl.
  - now constructor.
  - destruct (String.eqb k' k) eqn:E.
    + apply String.eqb_eq in E. subst. now constructor.
    + now constructor.
Qed.

(** *** The store *)

Lemma nth_error_update_same {A} n (f : A -> A) l :
  nth_error (update_nth n f l) n = option_map f (nth_error l n).
Proof.
  revert n. induction l as [|x l IH]; intros [|n]; simpl; auto.
Qed.

Lemma nth_error_update_other {A} n m (f : A -> A) l :
  n <> m -> nth_error (update_nth n f l) m = nth_error l m.
Proof.
  revert n m. induction l as [|x l IH]; intros [|n] [|m] H; simpl; auto.
  contradiction.
Qed.

Lemma length_update_nth {A} n (f : A -> A) l :
  List.length (update_nth n f l) = List.length l.
Proof.
  revert n. induction l as [|x l IH]; intros [|n]; simpl; auto.
Qed.

Lemma cell_set_cell_same st s k c v :
  cell st s k = Some c -> cell (set_cell st s k v) s k = Some v.
Proof.
  unfold cell, set_cell. rewrite nth_error_update_same.
  destruct (nth_error st s) as [rec|]; [|discriminate]. simpl.
  destruct rec; simpl; try discriminate. intros _. apply get_set_same.
Qed.

Lemma cell_set_cell_other_key st s k v s' k' :
  k <> k' -> cell (set_cell st s k v) s' k' = cell st s' k'.
Proof.
  intros Hne. unfold cell, set_cell.
  destruct (Nat.eq_dec s s') as [<-|Hs].
  - rewrite nth_error_update_same.
    destruct (nth_error st s) as [rec|]; [|reflexivity]. simpl.
    destruct rec; simpl; try reflexivity. now apply get_set_other.
  - now rewrite nth_error_update_other.
Qed.

Lemma cell_set_cell_bound st s k v s' k' :
  cell st s' k' <> None -> cell (set_cell st s k v) s' k' <> None.
Proof.
  destruct (String.eqb k k') eqn:E.
  - apply String.eqb_eq in E. subst k'.
    destruct (Nat.eq_dec s s') as [<-|Hs].
    + destruct (cell st s k) as [c|] eqn:Ec; [|congruence].
      intros _. now rewrite (cell_set_cell_same _ _ _ _ v Ec).
    + unfold cell, set_cell. now rewrite nth_error_update_other.
  - apply String.eqb_neq in E. now rewrite cell_set_cell_other_key.
Qed.

Lemma nth_error_set_cell_other st s k v s' :
  s <> s' -> nth_error (set_cell st s k v) s' = nth_error st s'.
Proof. intros H. unfold set_cell. now apply nth_error_update_other. Qed.

Lemma length_set_cell st s k v :
  List.length (set_cell st s k v) = List.length st.
Proof. apply length_update_nth. Qed.

(** *** The view of the accumulator *)

Lemma get_view st combined k :
  bound st combined ->
  get k (view st combined)
  = match get k combined with Some s => cell st s k | None => None end.
Proof.
  intros H. induction H as [|[k' s'] rest Hx Hrest IH]; [reflexivity|].
  simpl in Hx. cbn [view get].
  destruct (cell st s' k') as [c|] eqn:Ec; [|congruence].
  cbn [get]. destruct (String.eqb k' k) eqn:E; [|exact IH].
  apply String.eqb_eq in E. now subst k'.
Qed.

(** Binding a key to the object of another page shows as an assignment. *)
Lemma view_set st combined k p v :
  bound st combined -> cell st p k = Some v ->
  view st (set k p combined) = set k v (view st combined).
Proof.
  intros H Hv. induction H as [|[k' s'] rest Hx Hrest IH]; cbn [set view].
  - now rewrite Hv.
  - simpl in Hx. destruct (cell st s' k') as [c|] eqn:Ec; [|congruence].
    destruct (String.eqb k' k) eqn:E; cbn [view set]; rewrite E.
    + apply String.eqb_eq in E. subst k'. now rewrite Hv.
    + now rewrite Ec, IH.
Qed.

Lemma view_set_cell_notin st combined s k x :
  ~ In k (keys combined) -> view (set_cell st s k x) combined = view st combined.
Proof.
  induction combined as [|[k' s'] rest IH]; intros H; [reflexivity|].
  cbn [view]. rewrite cell_set_cell_other_key.
  - rewrite IH; [reflexivity|]. intros H'. apply H. now right.
  - intros ->. apply H. now left.
Qed.

(** Extending the object a key points to shows as an assignment to that
    key, and to no other. *)
Lemma view_set_cell st combined s k x :
  NoDup (keys combined) -> bound st combined -> get k combined = Some s ->
  view (set_cell st s k x) combined = set k x (view st combined).
Proof.
  intros Hnd H. induction H as [|[k' s'] rest Hx Hrest IH]; [discriminate|].
  simpl in Hx. cbn [get view]. inversion Hnd as [|? ? Hnotin Hnd']; subst.
  destruct (cell st s' k') as [c|] eqn:Ec; [|congruence].
  destruct (String.eqb k' k) eqn:E.
  - apply String.eqb_eq in E. subst k'. intros [= ->].
    rewrite (cell_set_cell_same _ _ _ _ x Ec).
    rewrite (view_set_cell_notin _ _ _ _ _ Hnotin).
    cbn [set]. now rewrite String.eqb_refl.
  - intros Hg. apply String.eqb_neq in E.
    rewrite cell_set_cell_other_key by congruence. rewrite Ec.
    cbn [set]. apply String.eqb_neq in E. rewrite E.
    now rewrite (IH Hnd' Hg).
Qed.

Lemma bound_set_cell st combined s k x :
  bound st combined -> bound (set_cell st s k x) combined.
Proof.
  unfold bound. apply Forall_impl. intros [k' s']. apply cell_set_cell_bound.
Qed.

Lemma owned_more done p ks ks' combined :
  incl ks ks' -> owned done p ks combined -> owned done p ks' combined.
Proof.
  intros Hi. unfold owned. apply Forall_impl.
  intros [k s] [H|[H1 H2]]; [now left|right]. split; [exact H1|now apply Hi].
Qed.

(** *** One item of a page record *)

Section Item.

Variables (st0 : store) (done : list nat) (p : nat).
Variables (pre : dict json) (k : string) (v : json).
Variables (combined : dict nat) (st : store).

Hypothesis Hinv : inv st0 done p (keys pre) (combined, st).
Hypothesis Hhere : cell st p k = Some v.

Let ks' : list string := keys (pre ++ [(k, v)]).

Lemma keys_grow : incl (keys pre) ks'.
Proof.
  unfold ks', keys. rewrite map_app. intros x Hx. apply in_or_app. now left.
Qed.

Lemma key_in_grown : In k ks'.
Proof.
  unfold ks', keys. rewrite map_app. apply in_or_app. right. now left.
Qed.

(** The accumulator is left as it is. *)
Lemma keep_inv : inv st0 done p ks' (combined, st).
Proof.
  destruct Hinv as (H1 & H2 & H3 & H4 & H5).
  repeat split; try assumption.
  exact (owned_more _ _ _ _ _ keys_grow H3).
Qed.

(** The key is bound to the object of the page. *)
Lemma rebind_inv : inv st0 done p ks' (set k p combined, st).
Proof.
  destruct Hinv as (H1 & H2 & H3 & H4 & H5). simpl in *.
  repeat split; simpl; try assumption.
  - now apply NoDup_keys_set.
  - apply Forall_set; [exact H2|]. simpl. congruence.
  - apply Forall_set; [exact (owned_more _ _ _ _ _ keys_grow H3)|].
    simpl. right. split; [reflexivity|exact key_in_grown].
Qed.

Lemma rebind_view :
  view_of (set k p combined, st) = set k v (view_of (combined, st)).
Proof.
  destruct Hinv as (H1 & H2 & H3 & H4 & H5).
  unfold view_of. simpl. now apply view_set.
Qed.

(** The object of an earlier page is extended in place. *)
Lemma extend_inv s x :
  get k combined = Some s -> In s done ->
  inv st0 done p ks' (combined, set_cell st s k x).
Proof.
  intros Hg Hs. destruct Hinv as (H1 & H2 & H3 & H4 & H5). simpl in *.
  repeat split; simpl; try assumption.
  - now apply bound_set_cell.
  - exact (owned_more _ _ _ _ _ keys_grow H3).
  - intros s' Hs'. rewrite nth_error_set_cell_other; [now apply H4|].
    intros ->. contradiction.
  - now rewrite length_set_cell.
Qed.

Lemma extend_view s x :
  get k combined = Some s ->
  view_of (combined, set_cell st s k x) = set k x (view_of (combined, st)).
Proof.
  intros Hg. destruct Hinv as (H1 & H2 & H3 & H4 & H5).
  unfold view_of. simpl. now apply view_set_cell.
Qed.

(** The owner of a key that this page has not reached yet is an earlier
    page, and the object is there. *)
Lemma owner_is_earlier s :
  ~ In k (keys pre) -> get k combined = Some s ->
  In s done /\ exists c, cell st s k = Some c.
Proof.
  intros Hk Hg. destruct Hinv as (H1 & H2 & H3 & H4 & H5). simpl in *.
  apply get_some_in in Hg.
  unfold bound in H2. unfold owned in H3. rewrite Forall_forall in H2, H3.
  specialize (H2 _ Hg). specialize (H3 _ Hg). simpl in *.
  split.
  - destruct H3 as [H3|[_ H3]]; [exact H3|contradiction].
  - destruct (cell st s k) as [c|]; [now exists c|congruence].
Qed.

End Item.

(** The body of the loop does to the accumulator's values what the
    specification says, and keeps the invariant. *)
Lemma merge_item_refines st0 done p pre k v combined st :
  inv st0 done p (keys pre) (combined, st) ->
  cell st p k = Some v ->
  ~ In k (keys pre) ->
  inv st0 done p (keys (pre ++ [(k, v)])) (merge_item p (combined, st) (k, v))
  /\ view_of (merge_item p (combined, st) (k, v))
     = spec_merge_field (view_of (combined, st)) (k, v).
Proof.
  intros Hinv Hhere Hk. unfold merge_item, spec_merge_field.
  assert (Hb : bound st combined) by apply Hinv.
  unfold view_of at 2. cbn [fst snd]. rewrite (get_view _ _ _ Hb).
  pose proof (keep_inv _ _ _ _ k v _ _ Hinv) as Hkeep.
  pose proof (rebind_inv _ _ _ _ _ v _ _ Hinv Hhere) as Hrebind.
  pose proof (rebind_view _ _ _ _ _ _ _ _ Hinv Hhere) as Hrv.
  destruct (get k combined) as [s|] eqn:Hg; [|now split].
  destruct (owner_is_earlier _ _ _ _ _ _ _ Hinv s Hk Hg) as [Hs [c Hc]].
  rewrite Hc.
  pose proof (fun x => extend_inv _ _ _ _ _ v _ _ Hinv s x Hg Hs) as Hext.
  pose proof (fun x => extend_view _ _ _ _ _ _ _ Hinv s x Hg) as Hev.
  destruct v as [| | | | |l'|]; destruct c as [| | | | |l|];
    cbn [is_none negb andb]; split;
    solve [assumption | reflexivity | apply Hext | apply Hev].
Qed.

(** *** The items of a page, and the pages of a group *)

Lemma merge_items_refines st0 done p o post :
  forall pre acc,
    o = pre ++ post -> NoDup (keys o) -> ~ In p done ->
    nth_error st0 p = Some (JObj o) ->
    inv st0 done p (keys pre) acc ->
    inv st0 done p (keys o) (merge_items p post acc)
    /\ view_of (merge_items p post acc)
       = fold_left spec_merge_field post (view_of acc).
Proof.
  induction post as [|[k v] post IH]; intros pre [combined st] Ho Hnd Hp Hrec Hinv.
  - rewrite app_nil_r in Ho. subst o. now split.
  - assert (Hk : ~ In k (keys pre)).
    { subst o. unfold keys in Hnd. rewrite map_app in Hnd. simpl in Hnd.
      apply NoDup_remove_2 in Hnd. intros H. apply Hnd.
      apply in_or_app. now left. }
    assert (Hhere : cell st p k = Some v).
    { destruct Hinv as (_ & _ & _ & Hframe & _). simpl in Hframe.
      unfold cell. rewrite (Hframe _ Hp), Hrec. simpl. subst o.
      now apply get_first. }
    destruct (merge_item_refines _ _ _ _ _ _ _ _ Hinv Hhere Hk) as [Hinv' Hview].
    cbn [merge_items fold_left].
    assert (Ho' : o = (pre ++ [(k, v)]) ++ post) by now rewrite <- app_assoc.
    destruct (IH _ _ Ho' Hnd Hp Hrec Hinv') as [Hinv'' Hview'].
    split; [exact Hinv''|].
    unfold merge_items in Hview'. now rewrite Hview', Hview.
Qed.

Lemma inv_next_page st0 done p ks p' acc :
  inv st0 done p ks acc -> inv st0 (p :: done) p' [] acc.
Proof.
  intros (H1 & H2 & H3 & H4 & H5). repeat split; try assumption.
  - revert H3. unfold owned. apply Forall_impl.
    intros [k s] [H|[H _]]; left; [now right|now left].
  - intros s Hs. apply H4. intros H. apply Hs. now right.
Qed.

Lemma inv_skip_page st0 done p p' acc :
  inv st0 done p [] acc -> inv st0 (p' :: done) p [] acc.
Proof.
  intros (H1 & H2 & H3 & H4 & H5). repeat split; try assumption.
  - revert H3. unfold owned. apply Forall_impl.
    intros [k s] [H|[_ []]]. left. now right.
  - intros s Hs. apply H4. intros H. apply Hs. now right.
Qed.

Lemma py_index_in_range {A} (l : list A) i :
  0 <= i < Z.of_nat (List.length l) -> py_index l i = Ok (Z.to_nat i).
Proof.
  intros H. unfold py_index. cbv zeta.
  destruct (Z.leb_spec 0 i); [|lia].
  destruct (Z.ltb_spec i (Z.of_nat (List.length l))); [reflexivity|lia].
Qed.

Lemma merge_page_refines st0 done acc i :
  0 <= i < Z.of_nat (List.length st0) ->
  ~ In (Z.to_nat i) done ->
  record_ok (record_at st0 i) ->
  inv st0 done 0 [] acc ->
  exists acc',
    merge_page acc i = Ok acc'
    /\ inv st0 (Z.to_nat i :: done) 0 [] acc'
    /\ view_of acc' = spec_merge_record (view_of acc) (record_at st0 i).
Proof.
  intros Hi Hfresh Hok Hinv. destruct acc as [combined st].
  assert (Hlen : List.length st = List.length st0) by apply Hinv.
  assert (Hframe : nth_error st (Z.to_nat i) = nth_error st0 (Z.to_nat i)).
  { destruct Hinv as (_ & _ & _ & Hf & _). now apply Hf. }
  assert (Hnth : nth_error st0 (Z.to_nat i) = Some (record_at st0 i)).
  { unfold record_at. apply nth_error_nth'. lia. }
  unfold merge_page. rewrite Hlen.
  destruct (Z.ltb_spec i (Z.of_nat (List.length st0))); [|lia].
  rewrite py_index_in_range by lia. cbn [bind]. rewrite Hframe, Hnth.
  set (rec := record_at st0 i) in *.
  assert (Hskip : fields rec = [] ->
                  exists acc', Ok (combined, st) = Ok acc'
                    /\ inv st0 (Z.to_nat i :: done) 0 [] acc'
                    /\ view_of acc' = spec_merge_record (view_of (combined, st)) rec).
  { intros Hf. exists (combined, st). split; [reflexivity|]. split.
    - now apply inv_skip_page.
    - unfold spec_merge_record. now rewrite Hf. }
  destruct rec as [|b|z|f|s|l|o] eqn:Erec;
    try (unfold record_ok in Hok; rewrite Hok; now apply Hskip).
  destruct (truthy (JObj o)) eqn:Et; [|destruct o; [now apply Hskip|discriminate]].
  exists (merge_items (Z.to_nat i) o (combined, st)). split; [reflexivity|].
  assert (Hinv0 : inv st0 done (Z.to_nat i) (keys (@nil (string * json))) (combined, st)).
  { destruct Hinv as (H1 & H2 & H3 & H4 & H5). repeat split; try assumption.
    revert H3. unfold owned. apply Forall_impl. intros [k s] [H'|[_ []]]. now left. }
  destruct (merge_items_refines st0 done (Z.to_nat i) o o [] _ eq_refl Hok Hfresh
              Hnth Hinv0) as [Hinv' Hview].
  split; [exact (inv_next_page _ _ _ _ _ _ Hinv')|exact Hview].
Qed.

Lemma merge_pages_refines st0 pages :
  forall done acc,
    Forall (fun i => 0 <= i < Z.of_nat (List.length st0)) pages ->
    NoDup pages ->
    (forall i, In i pages -> ~ In (Z.to_nat i) done) ->
    Forall (fun i => record_ok (record_at st0 i)) pages ->
    inv st0 done 0 [] acc ->
    exists acc',
      merge_pages acc pages = Ok acc'
      /\ view_of acc'
         = fold_left spec_merge_record (map (record_at st0) pages) (view_of acc)
      /\ inv st0 (rev (map Z.to_nat pages) ++ done) 0 [] acc'.
Proof.
  induction pages as [|i pages IH]; intros done acc Hr Hnd Hfresh Hok Hinv.
  - exists acc. split; [reflexivity|]. split; [reflexivity|exact Hinv].
  - inversion Hr as [|? ? Hi Hr']; subst. inversion Hnd as [|? ? Hni Hnd']; subst.
    inversion Hok as [|? ? Hoki Hok']; subst.
    destruct (merge_page_refines st0 done acc i Hi (Hfresh i (or_introl eq_refl))
                Hoki Hinv) as (acc1 & Hstep & Hinv1 & Hview1).
    destruct (IH (Z.to_nat i :: done) acc1 Hr' Hnd')
      as (acc' & Hrest & Hview' & Hinv');
      try assumption.
    + intros j Hj [Hji|Hjd].
      * rewrite Forall_forall in Hr'. specialize (Hr' _ Hj).
        apply Hni. replace i with j by lia. exact Hj.
      * exact (Hfresh j (or_intror Hj) Hjd).
    + exists acc'. cbn [merge_pages]. rewrite Hstep. cbn [bind].
      split; [exact Hrest|]. split.
      * cbn [map fold_left]. now rewrite Hview', Hview1.
      * cbn [map rev]. now rewrite <- app_assoc.
Qed.

Lemma inv_start (st0 : store) : inv st0 [] 0 [] (@pair (dict nat) store [] st0).
Proof.
  repeat split; simpl; try constructor. 
Qed.

(** For page records that are objects (or count as false) and page indices
    that are distinct positions of the list, the merge of the source is the
    merge the specification words. *)
Lemma merged_refines (st0 : store) pages :
  Forall (fun i => 0 <= i < Z.of_nat (List.length st0)) pages ->
  NoDup pages ->
  Forall (fun i => record_ok (record_at st0 i)) pages ->
  exists st',
    merged st0 pages = Ok (spec_merge (map (record_at st0) pages), st').
Proof.
  intros Hr Hnd Hok.
  destruct (merge_pages_refines st0 pages [] (@pair (dict nat) store [] st0) Hr Hnd
              (fun _ _ H => H) Hok (inv_start st0)) as (acc' & Hrun & Hview & _).
  exists (snd acc'). unfold merged.
  match goal with
  | |- context [merge_pages ?a pages] =>
      change a with (@pair (dict nat) store [] st0)
  end.
  rewrite Hrun. cbn [bind].
  unfold view_of in Hview. now rewrite Hview.
Qed.

(** *** The order of the pages of a group *)

Lemma ascending_app a b :
  ascending (a ++ b)
  <-> ascending a /\ ascending b /\ (forall x y, In x a -> In y b -> x < y).
Proof.
  induction a as [|x a IH]; simpl.
  - split; [intros H; repeat split; [exact H|intros ? ? []]|now intros (_ & H & _)].
  - rewrite IH, Forall_app. split.
    + intros ((Ha & Hb) & Ha' & Hb' & Hc). repeat split; try assumption.
      intros x' y [<-|Hx] Hy.
      * rewrite Forall_forall in Hb. now apply Hb.
      * now apply Hc.
    + intros ((Ha & Ha') & Hb' & Hc). repeat split; try assumption.
      * rewrite Forall_forall. intros y Hy. apply Hc; [now left|exact Hy].
      * intros x' y Hx Hy. apply Hc; [now right|exact Hy].
Qed.

Lemma ascending_NoDup l : ascending l -> NoDup l.
Proof.
  induction l as [|x l IH]; simpl; intros H; constructor.
  - destruct H as [H _]. rewrite Forall_forall in H. intros Hin.
    specialize (H _ Hin). lia.
  - now apply IH.
Qed.

Lemma ascending_positions start n : ascending (map Z.of_nat (seq start n)).
Proof.
  revert start. induction n as [|n IH]; intros start; simpl; [exact I|].
  split; [|apply IH].
  rewrite Forall_forall. intros y Hy. apply in_map_iff in Hy as (m & <- & Hm).
  apply in_seq in Hm. lia.
Qed.

Lemma in_concat_filter (f : string * list Z -> bool) rs y :
  In y (concat (map snd (filter f rs))) -> In y (concat (map snd rs)).
Proof.
  induction rs as [|r rs IH]; simpl; [tauto|].
  destruct (f r); simpl; rewrite ?in_app_iff; intros H.
  - destruct H as [H|H]; [now left|right; now apply IH].
  - right. now apply IH.
Qed.

(** The pages of one type, taken out of ascending pages, are ascending. *)
Lemma ascending_concat_filter (f : string * list Z -> bool) rs :
  ascending (concat (map snd rs)) ->
  ascending (concat (map snd (filter f rs))).
Proof.
  induction rs as [|r rs IH]; simpl; [tauto|].
  rewrite ascending_app. intros (Ha & Hb & Hc).
  destruct (f r); simpl; [|now apply IH].
  rewrite ascending_app. repeat split; [exact Ha|now apply IH|].
  intros x y Hx Hy. apply Hc; [exact Hx|]. now apply (in_concat_filter f).
Qed.

(** The flattened spans of a group are the pages of its type, in page
    order. *)
Lemma pages_flat_of_group pages t spans :
  get t (Grouping.chunk_consecutive_by_type pages) = Some spans ->
  Grouping.pages_flat spans
  = concat (map snd (filter (fun r => String.eqb (fst r) t) (Grouping.runs pages)))
  /\ concat (map snd (Grouping.runs pages)) = map page_index pages.
Proof.
  destruct pages as [|p0 rest]; [discriminate|]. intros Hg.
  split.
  - assert (Hs : Grouping.spans_of t (Grouping.chunk_consecutive_by_type (p0 :: rest))
                 = spans) by (unfold Grouping.spans_of; now rewrite Hg).
    rewrite <- Hs. unfold Grouping.chunk_consecutive_by_type.
    rewrite GroupingFacts.chunk_loop_runs, GroupingFacts.spans_of_fold_file_run.
    reflexivity.
  - rewrite GroupingFacts.concat_runs_expand. simpl Grouping.runs.
    rewrite GroupingFacts.runs_from_expand. simpl. now rewrite map_map.
Qed.

Lemma record_ok_at st i :
  Forall record_ok st -> record_ok (record_at st i).
Proof.
  intros H. unfold record_at.
  destruct (nth_in_or_default (Z.to_nat i) st JNull) as [Hin | ->].
  - rewrite Forall_forall in H. now apply H.
  - reflexivity.
Qed.

(** The merge of a group of index-aligned pages. *)
Lemma group_merge_refines pages st0 t spans :
  index_aligned pages st0 -> Forall record_ok st0 ->
  get t (Grouping.chunk_consecutive_by_type pages) = Some spans ->
  ascending (Grouping.pages_flat spans)
  /\ exists st',
       merged st0 (Grouping.pages_flat spans)
       = Ok (spec_merge (map (record_at st0) (Grouping.pages_flat spans)), st').
Proof.
  intros [Hidx Hlen] Hok Hg.
  destruct (pages_flat_of_group _ _ _ Hg) as [Hflat Hall].
  assert (Hasc : ascending (Grouping.pages_flat spans)).
  { rewrite Hflat. apply ascending_concat_filter.
    rewrite Hall, Hidx. apply ascending_positions. }
  split; [exact Hasc|].
  apply merged_refines.
  - rewrite Forall_forall. intros i Hi. rewrite Hflat in Hi.
    apply in_concat_filter in Hi. rewrite Hall, Hidx in Hi.
    apply in_map_iff in Hi as (m & <- & Hm). apply in_seq in Hm. lia.
  - now apply ascending_NoDup.
  - rewrite Forall_forall. intros i _. now apply record_ok_at.
Qed.

(** [.extend] works on the object of the page record: a page that is merged
    twice finds its own list in the accumulator and doubles it, and the page
    record shows the change. *)
Lemma merge_extends_in_place :
  merged [JObj [("items", JList [JInt 1])]] [0; 0]
  = Ok ([("items", JList [JInt 1; JInt 1])],
        [JObj [("items", JList [JInt 1; JInt 1])]]).
Proof. reflexivity. Qed.

End MergeFacts.

(** ** The per-page workflow *)

(** ** The loop over the groups *)

Module GroupLoopFacts.
Import Merge Stream MergeFacts.

Lemma setdefault_append_first_page (g : dict (list (list Z))) k x :
  x <> [] -> Forall has_first_page g ->
  Forall has_first_page (setdefault_append g k x).
Proof.
  intros Hx Hg. induction Hg as [|[k' v] g Hv Hg IH]; cbn [setdefault_append].
  - constructor; [|constructor]. destruct x as [|i span]; [contradiction|].
    now exists i, span, [].
  - destruct (String.eqb k' k).
    + constructor; [|exact Hg]. destruct Hv as (i & span & rest & Hv).
      cbn [snd] in *. subst v. now exists i, span, (rest ++ [x]).
    + now constructor.
Qed.

Lemma fold_file_run_first_pages rs : forall g,
  Forall (fun r => snd r <> []) rs -> Forall has_first_page g ->
  Forall has_first_page (fold_left Grouping.file_run rs g).
Proof.
  induction rs as [|r rs IH]; intros g Hrs Hg; [exact Hg|].
  inversion Hrs; subst. cbn [fold_left]. apply IH; [assumption|].
  unfold Grouping.file_run. now apply setdefault_append_first_page.
Qed.

(** Every group of the grouping has a first span with a first page, so the
    test [if spans and spans[0]] of the endpoints holds for each. *)
Lemma chunk_has_first_pages pages :
  Forall has_first_page (Grouping.chunk_consecutive_by_type pages).
Proof.
  destruct pages as [|p0 rest]; [constructor|].
  unfold Grouping.chunk_consecutive_by_type.
  rewrite GroupingFacts.chunk_loop_runs.
  apply fold_file_run_first_pages; [|constructor].
  apply GroupingFacts.runs_from_nonempty. discriminate.
Qed.

Lemma keys_chunk pages :
  keys (Grouping.chunk_consecutive_by_type pages)
  = Grouping.first_appearance (map doc_type pages).
Proof.
  destruct pages as [|p0 rest]; [reflexivity|].
  unfold Grouping.chunk_consecutive_by_type.
  rewrite GroupingFacts.chunk_loop_runs, GroupingFacts.keys_fold_file_run.
  rewrite GroupingFacts.first_appearance_runs_from.
  change (keys []) with (@nil string). cbn [app].
  apply GroupingFacts.filter_notin_nil.
Qed.

Lemma NoDup_first_appearance l : NoDup (Grouping.first_appearance l).
Proof.
  induction l as [|x l IH]; cbn [Grouping.first_appearance]; constructor.
  - intros H. apply filter_In in H as [_ H]. now rewrite String.eqb_refl in H.
  - now apply NoDup_filter.
Qed.

Lemma get_of_in {V} (d : dict V) k v :
  NoDup (keys d) -> In (k, v) d -> get k d = Some v.
Proof.
  induction d as [|[k' v'] d IH]; intros Hnd H; [destruct H|].
  destruct H as [H|H]; cbn [get].
  - injection H as -> ->. now rewrite String.eqb_refl.
  - inversion Hnd as [|? ? Hnotin Hnd']; subst.
    destruct (String.eqb k' k) eqn:E; [|now apply IH].
    apply String.eqb_eq in E. subst k'. exfalso. apply Hnotin.
    apply in_map_iff. now exists (k, v).
Qed.

(** The pages of all groups are the pages of the document. *)
Lemma emitted_chunk pages :
  Permutation (Grouping.emitted_indices (Grouping.chunk_consecutive_by_type pages))
              (map page_index pages).
Proof.
  destruct pages as [|p0 rest]; [constructor|].
  unfold Grouping.chunk_consecutive_by_type.
  rewrite GroupingFacts.chunk_loop_runs.
  rewrite GroupingFacts.emitted_fold_file_run.
  change (Grouping.emitted_indices []) with (@nil Z). cbn [app].
  rewrite GroupingFacts.concat_runs_expand, GroupingFacts.runs_from_expand.
  cbn [map app fst snd]. rewrite map_map. reflexivity.
Qed.

Lemma emitted_cons k spans (groups : dict (list (list Z))) :
  Grouping.emitted_indices ((k, spans) :: groups)
  = Grouping.pages_flat spans ++ Grouping.emitted_indices groups.
Proof. reflexivity. Qed.

Lemma NoDup_app_disjoint {A} (a b : list A) x :
  NoDup (a ++ b) -> In x a -> ~ In x b.
Proof.
  induction a as [|y a IH]; intros Hnd Hin Hb; [destruct Hin|].
  cbn [app] in Hnd. inversion Hnd as [|? ? Hn Hnd']; subst.
  destruct Hin as [<-|Hin].
  - apply Hn, in_or_app. now right.
  - now apply (IH Hnd' Hin).
Qed.

(** The view of an accumulator reads the page records of its owners only. *)
Lemma view_ext st1 st2 combined :
  (forall e, In e combined -> nth_error st1 (snd e) = nth_error st2 (snd e)) ->
  view st1 combined = view st2 combined.
Proof.
  induction combined as [|[k s] rest IH]; intros H; [reflexivity|].
  cbn [view]. unfold cell.
  pose proof (H (k, s) (or_introl eq_refl)) as Hs. cbn [snd] in Hs.
  rewrite Hs.
  rewrite IH; [reflexivity|]. intros e He. apply H. now right.
Qed.

Lemma record_at_ext st1 st2 i :
  nth_error st1 (Z.to_nat i) = nth_error st2 (Z.to_nat i) ->
  record_at st1 i = record_at st2 i.
Proof.
  unfold record_at. intros H.
  destruct (nth_error st2 (Z.to_nat i)) as [rec|] eqn:E.
  - rewrite (nth_error_nth _ _ _ H). now rewrite (nth_error_nth _ _ _ E).
  - rewrite (nth_error_nth_None _ _ _ H). now rewrite (nth_error_nth_None _ _ _ E).
Qed.

(** The loop over the groups, when no page is met twice: it returns, it
    builds one group per entry, it changes the records of the pages it
    merges only, and each group reads, when the loop is over, as the merge
    in the words of the specification of the records its pages had at the
    start. *)
Lemma combine_loop_refines st0 :
  Forall record_ok st0 ->
  forall groups st done,
    List.length st = List.length st0 ->
    (forall s, ~ In s done -> nth_error st s = nth_error st0 s) ->
    Forall has_first_page groups ->
    Forall (fun i => 0 <= i < Z.of_nat (List.length st0))
           (Grouping.emitted_indices groups) ->
    NoDup (Grouping.emitted_indices groups) ->
    (forall i, In i (Grouping.emitted_indices groups) -> ~ In (Z.to_nat i) done) ->
    exists built st',
      combine_loop st groups = Ok (built, st')
      /\ map built_doc_type built = keys groups
      /\ map built_spans built = values groups
      /\ List.length st' = List.length st0
      /\ (forall s, ~ In (Z.of_nat s) (Grouping.emitted_indices groups) ->
                    nth_error st' s = nth_error st s)
      /\ Forall (fun b =>
                   view st' (built_data b)
                   = spec_merge (map (record_at st0)
                                     (Grouping.pages_flat (built_spans b))))
                built.
Proof.
  intros Hok.
  induction groups as [|[k spans] groups IH];
    intros st done Hlen Hframe Hfp Hr Hnd Hfresh.
  - exists [], st. cbn [combine_loop map].
    split; [reflexivity|]. split; [reflexivity|]. split; [reflexivity|].
    split; [exact Hlen|]. split; [reflexivity|constructor].
  - inversion Hfp as [|? ? (i & span & more & Hs) Hfp']; subst.
    cbn [snd] in Hs. rewrite emitted_cons in Hr, Hnd, Hfresh.
    apply Forall_app in Hr as [Hr1 Hr2].
    pose proof (NoDup_app_remove_r _ _ Hnd) as Hnd1.
    pose proof (NoDup_app_remove_l _ _ Hnd) as Hnd2.
    assert (Hsame : forall j, In j (Grouping.pages_flat spans) ->
                              record_at st j = record_at st0 j).
    { intros j Hj. apply record_at_ext. apply Hframe, Hfresh.
      apply in_or_app. now left. }
    destruct (merge_pages_refines st (Grouping.pages_flat spans) []
                (@pair (dict nat) store [] st))
      as (acc & Hrun & Hview & Hinv).
    { now rewrite Hlen. }
    { exact Hnd1. }
    { intros j _ H. exact H. }
    { apply Forall_forall. intros j Hj. rewrite (Hsame j Hj).
      now apply record_ok_at. }
    { apply inv_start. }
    rewrite app_nil_r in Hinv.
    destruct Hinv as (_ & _ & Hown & Hfr & Hl).
    assert (Hin_done : forall s, In s (rev (map Z.to_nat (Grouping.pages_flat spans)))
                                 -> In (Z.of_nat s) (Grouping.pages_flat spans)).
    { intros s Hin. apply in_rev, in_map_iff in Hin as (j & <- & Hj).
      rewrite Forall_forall in Hr1. specialize (Hr1 j Hj).
      now rewrite Z2Nat.id by lia. }
    destruct (IH (snd acc)
                 (rev (map Z.to_nat (Grouping.pages_flat spans)) ++ done))
      as (built & st' & Hloop & Hk & Hv & Hl' & Hfr' & Hviews).
    { now rewrite Hl. }
    { intros s Hnot. rewrite Hfr.
      - apply Hframe. intros H. apply Hnot, in_or_app. now right.
      - intros H. apply Hnot, in_or_app. now left. }
    { exact Hfp'. }
    { exact Hr2. }
    { exact Hnd2. }
    { intros j Hj Hin. apply in_app_or in Hin as [Hin|Hin].
      - apply Hin_done in Hin.
        rewrite Forall_forall in Hr2. specialize (Hr2 j Hj).
        rewrite Z2Nat.id in Hin by lia.
        exact (NoDup_app_disjoint _ _ _ Hnd Hin Hj).
      - apply (Hfresh j); [apply in_or_app; now right|exact Hin]. }
    exists (mkBuilt k spans (fst acc) :: built), st'.
    split.
    { cbn [combine_loop]. rewrite Hs at 1.
      match goal with
      | |- context [merge_pages ?a (Grouping.pages_flat spans)] =>
          change a with (@pair (dict nat) store [] st)
      end.
      rewrite Hrun. cbn [bind]. rewrite Hloop. reflexivity. }
    split; [cbn [map keys built_doc_type fst]; f_equal; exact Hk|].
    split; [cbn [map values built_spans snd]; f_equal; exact Hv|].
    split; [exact Hl'|]. split.
    { intros s Hs'. rewrite emitted_cons in Hs'.
      rewrite Hfr'; [|intros H; apply Hs', in_or_app; now right].
      apply Hfr. intros H. apply Hs', in_or_app. left. now apply Hin_done. }
    constructor; [|exact Hviews]. cbn [built_data built_spans].
    transitivity (view_of acc).
    { apply view_ext. intros [key s] He. cbn [snd].
      unfold owned in Hown. rewrite Forall_forall in Hown.
      destruct (Hown _ He) as [Hd|[_ []]]. cbn [snd] in Hd.
      apply Hfr'. intros H.
      exact (NoDup_app_disjoint _ _ _ Hnd (Hin_done _ Hd) H). }
    rewrite Hview. unfold spec_merge. f_equal.
    apply map_ext_in. exact Hsame.
Qed.

(** Whatever the pages, a group that is built has the type and the spans of
    its entry and holds the flattened spans under [pages_used]. *)
Lemma grouped_results_shape groups : forall st gs,
  Forall has_first_page groups ->
  grouped_results_of st groups = Ok gs ->
  map group_doc_type gs = keys groups
  /\ map page_spans gs = values groups
  /\ Forall stamped_with_spans gs.
Proof.
  unfold grouped_results_of. intros st gs Hfp.
  destruct (combine_loop st groups) as [[built st']|e] eqn:E; [|discriminate].
  cbn [bind fst snd]. intros [= <-]. revert st built st' E.
  induction groups as [|[k spans] groups IH]; intros st built st' E;
    cbn [combine_loop] in E.
  - injection E as <- <-. repeat split; constructor.
  - inversion Hfp as [|? ? (i & span & rest & Hs) Hfp']; subst.
    cbn [snd] in Hs. subst spans.
    destruct (merge_pages ([], st) (Grouping.pages_flat ((i :: span) :: rest)))
      as [acc|e]; [|discriminate]. cbn [bind] in E.
    destruct (combine_loop (snd acc) groups) as [[built' st'']|e] eqn:E';
      [|discriminate].
    cbn [bind fst snd] in E. injection E as <- <-.
    destruct (IH Hfp' _ _ _ E') as (H1 & H2 & H3).
    cbn [map keys values fst snd group_of group_doc_type page_spans
           built_doc_type built_spans].
    fold (keys groups). fold (values groups).
    split; [f_equal; exact H1|]. split; [f_equal; exact H2|].
    constructor; [|exact H3].
    unfold stamped_with_spans. cbn [data page_spans].
    apply get_set_same.
Qed.

(** The loop over the groups of [/ocr/stream] is the one of [/ocr]: it
    yields one [progress] event for each group it builds, and what it
    returns or raises is what [Merge.combine_loop] does. *)
Lemma combine_groups_run groups : forall st,
  match combine_loop st groups with
  | Ok (built, st') =>
      combine_groups st groups
      = (map (fun b => combine_event (group_of st' b)) built, Ok (built, st'))
  | Raise e =>
      exists built st',
        combine_groups st groups
        = (map (fun b => combine_event (group_of st' b)) built, Raise e)
  end.
Proof.
  induction groups as [|[k spans] groups IH]; intros st;
    cbn [combine_loop combine_groups].
  - reflexivity.
  - destruct spans as [|[|i span] more]; try apply IH.
    destruct (merge_pages ([], st) (Grouping.pages_flat ((i :: span) :: more)))
      as [acc|e]; cbn [bind sbind await yield fst snd app].
    + specialize (IH (snd acc)).
      destruct (combine_loop (snd acc) groups) as [[built st']|e];
        cbn [bind fst snd].
      * rewrite IH. cbn [sbind ret fst snd map]. now rewrite app_nil_r.
      * destruct IH as (built & st' & ->). cbn [sbind fst snd].
        now exists (mkBuilt k ((i :: span) :: more) (fst acc) :: built), st'.
    + now exists [], st.
Qed.

(** A page that the loop meets twice finds its own list in the accumulator
    and appends the list to itself; the record of a page whose index no
    page result holds is not merged at all. *)
Lemma merge_meets_page_twice :
  grouped_results_of
    [JObj [("items", JList [JInt 1])]; JObj [("items", JList [JInt 2])]]
    [("TaxInvoice", [[0; 0]])]
  = Ok [mkGroup "TaxInvoice" [[0; 0]]
          [("items", JList [JInt 1; JInt 1]);
           ("pages_used", JList [JInt 0; JInt 0])]].
Proof. reflexivity. Qed.

(** The dictionary of a group holds the lists of the page records
    themselves: when a later group reaches the record of a page of an
    earlier group, the list it extends is the one the earlier group
    shows. Here the second and the third page both say they are page 0 and
    page 1 of the document. *)
Lemma later_group_extends_earlier_group :
  grouped_results_of
    [JObj [("items", JList [JInt 1])]; JObj [("items", JList [JInt 2])];
     JObj [("items", JList [JInt 3])]]
    (Grouping.chunk_consecutive_by_type
       [Grouping.mk "TaxInvoice" 0; Grouping.mk "EWayBill" 0;
        Grouping.mk "EWayBill" 1])
  = Ok [mkGroup "TaxInvoice" [[0]]
          [("items", JList [JInt 1; JInt 2]); ("pages_used", JList [JInt 0])];
        mkGroup "EWayBill" [[0; 1]]
          [("items", JList [JInt 1; JInt 2]);
           ("pages_used", JList [JInt 0; JInt 1])]].
Proof. reflexivity. Qed.

(** C2, as stated, fails: the pages of a group are the values of
    [page_index] of its page results, which the classification reply can
    set, not the positions of the pages. For three pages of one type whose
    replies give the indices 0, 1 and 0, the loop merges the records at 0, 1
    and 0 again: the items of the group are 1, 2, 1, 2, where the merge of
    the records of the three pages, as the statement words it, has the items
    1, 2, 3; the record of the third page is never read. *)
Lemma merge_follows_page_index_of_reply :
  grouped_results_of
    [JObj [("items", JList [JInt 1])]; JObj [("items", JList [JInt 2])];
     JObj [("items", JList [JInt 3])]]
    (Grouping.chunk_consecutive_by_type
       [Grouping.mk "TaxInvoice" 0; Grouping.mk "TaxInvoice" 1;
        Grouping.mk "TaxInvoice" 0])
  = Ok [mkGroup "TaxInvoice" [[0; 1; 0]]
          [("items", JList [JInt 1; JInt 2; JInt 1; JInt 2]);
           ("pages_used", JList [JInt 0; JInt 1; JInt 0])]]
  /\ spec_merge
       [JObj [("items", JList [JInt 1])]; JObj [("items", JList [JInt 2])];
        JObj [("items", JList [JInt 3])]]
     = [("items", JList [JInt 1; JInt 2; JInt 3])].
Proof. split; reflexivity. Qed.

(** C2 (amended): the merge of the groups, for page results whose
    [page_index] is their position in the document and page records that are
    JSON objects (or count as false, and are skipped). The loop over the
    groups of [/ocr] and [/ocr/stream] then returns one group per document
    type, in the order in which the types first appear, each with the spans
    the grouping gave it; the pages of each group are in ascending order,
    and the data of each group, read when the loop is over, is the merge of
    the records of its pages as the specification words it, with
    [pages_used] set to the flattened spans. That merge takes the page's
    value for an absent field, appends the page's list to the accumulator's
    when both are lists, replaces a null by the page's non-null value, and
    keeps the first-seen value otherwise. Whatever the indices, a group that
    is built holds the flattened spans under [pages_used], and the loop of
    [/ocr/stream], which yields an event per group, returns or raises what
    the loop of [/ocr] does. The three examples of the merge law follow,
    run on the loop itself. *)
Theorem merge_law (pages : list PageResult) (st0 : store) :
  (index_aligned pages st0 -> Forall record_ok st0 ->
   exists groups,
     grouped_results_of st0 (Grouping.chunk_consecutive_by_type pages)
     = Ok groups
     /\ map group_doc_type groups
        = Grouping.first_appearance (map doc_type pages)
     /\ map page_spans groups
        = values (Grouping.chunk_consecutive_by_type pages)
     /\ Forall (fun g =>
                  ascending (Grouping.pages_flat (page_spans g))
                  /\ data g
                     = set "pages_used"
                           (JList (map JInt (Grouping.pages_flat (page_spans g))))
                           (spec_merge
                              (map (record_at st0)
                                   (Grouping.pages_flat (page_spans g)))))
               groups)
  /\ (forall groups,
        grouped_results_of st0 (Grouping.chunk_consecutive_by_type pages)
        = Ok groups ->
        Forall stamped_with_spans groups)
  /\ (forall groups : dict (list (list Z)),
        snd (combine_groups st0 groups) = combine_loop st0 groups)
  /\ (forall acc key value,
        (get key acc = None ->
         spec_merge_field acc (key, value) = set key value acc)
        /\ (forall l l',
              get key acc = Some (JList l) -> value = JList l' ->
              spec_merge_field acc (key, value) = set key (JList (l ++ l')) acc)
        /\ (get key acc = Some JNull -> value <> JNull ->
            spec_merge_field acc (key, value) = set key value acc)
        /\ (forall current,
              get key acc = Some current ->
              is_list current && is_list value = false ->
              is_none current && negb (is_none value) = false ->
              spec_merge_field acc (key, value) = acc))
  /\ grouped_results_of [JObj [("a", JInt 1)]; JObj [("a", JNull)]]
                        [("TaxInvoice", [[0; 1]])]
     = Ok [mkGroup "TaxInvoice" [[0; 1]]
             [("a", JInt 1); ("pages_used", JList [JInt 0; JInt 1])]]
  /\ grouped_results_of
       [JObj [("items", JList [JInt 1])]; JObj [("items", JList [JInt 2])]]
       [("TaxInvoice", [[0; 1]])]
     = Ok [mkGroup "TaxInvoice" [[0; 1]]
             [("items", JList [JInt 1; JInt 2]);
              ("pages_used", JList [JInt 0; JInt 1])]]
  /\ grouped_results_of [JObj [("a", JNull)]; JObj [("a", JInt 5)]]
                        [("TaxInvoice", [[0; 1]])]
     = Ok [mkGroup "TaxInvoice" [[0; 1]]
             [("a", JInt 5); ("pages_used", JList [JInt 0; JInt 1])]].
Proof.
  split; [|split; [|split; [|split; [|repeat split]]]].
  - intros Hal Hok. pose proof Hal as [Hidx Hlen].
    pose proof (emitted_chunk pages) as Hperm. rewrite Hidx in Hperm.
    destruct (combine_loop_refines st0 Hok
                (Grouping.chunk_consecutive_by_type pages) st0 [])
      as (built & st' & Hloop & Hk & Hv & _ & _ & Hviews).
    { reflexivity. }
    { reflexivity. }
    { apply chunk_has_first_pages. }
    { apply (Permutation_Forall (Permutation_sym Hperm)).
      apply Forall_forall. intros i Hi.
      apply in_map_iff in Hi as (m & <- & Hm). apply in_seq in Hm. lia. }
    { apply (Permutation_NoDup (Permutation_sym Hperm)).
      apply ascending_NoDup, ascending_positions. }
    { intros i _ []. }
    exists (map (group_of st') built).
    split; [unfold grouped_results_of; now rewrite Hloop|].
    split; [rewrite map_map; cbn [group_of group_doc_type];
            rewrite <- keys_chunk, <- Hk; reflexivity|].
    split; [rewrite map_map; cbn [group_of page_spans];
            rewrite <- Hv; reflexivity|].
    apply Forall_forall. intros g Hg.
    apply in_map_iff in Hg as (b & <- & Hb).
    cbn [group_of page_spans data]. split.
    + assert (Hin : In (built_spans b)
                       (values (Grouping.chunk_consecutive_by_type pages))).
      { rewrite <- Hv. now apply in_map. }
      apply in_map_iff in Hin as ([k spans] & Hs & Hin). cbn [snd] in Hs.
      subst spans.
      assert (Hget : get k (Grouping.chunk_consecutive_by_type pages)
                     = Some (built_spans b)).
      { apply get_of_in; [|exact Hin].
        rewrite keys_chunk. apply NoDup_first_appearance. }
      exact (proj1 (group_merge_refines _ _ _ _ Hal Hok Hget)).
    + rewrite Forall_forall in Hviews. now rewrite (Hviews b Hb).
  - intros groups Hg.
    exact (proj2 (proj2 (grouped_results_shape _ _ _
                           (chunk_has_first_pages pages) Hg))).
  - intros groups. pose proof (combine_groups_run groups st0) as H.
    destruct (combine_loop st0 groups) as [[built st']|e].
    + now rewrite H.
    + destruct H as (built & st' & ->). reflexivity.
  - intros acc key value. unfold spec_merge_field. repeat split.
    + now intros ->.
    + now intros l l' -> ->.
    + intros -> Hv. destruct value; simpl; congruence.
    + intros current -> Hl Hn.
      destruct current, value; simpl in *; congruence.
Qed.

(** The statement at two pages of one invoice that both list items. *)
Lemma merge_law_witness :
  exists groups,
    grouped_results_of
      [JObj [("items", JList [JInt 1])]; JObj [("items", JList [JInt 2])]]
      (Grouping.chunk_consecutive_by_type
         [Grouping.mk "TaxInvoice" 0; Grouping.mk "TaxInvoice" 1])
    = Ok groups
    /\ map data groups
       = [[("items", JList [JInt 1; JInt 2]);
           ("pages_used", JList [JInt 0; JInt 1])]].
Proof.
  destruct (merge_law [Grouping.mk "TaxInvoice" 0; Grouping.mk "TaxInvoice" 1]
              [JObj [("items", JList [JInt 1])]; JObj [("items", JList [JInt 2])]])
    as [H _].
  destruct H as (groups & Hrun & _ & Hspans & Hdata).
  - split; reflexivity.
  - repeat constructor; simpl; tauto.
  - exists groups. split; [exact Hrun|].
    destruct groups as [|g [|g' groups]]; try discriminate.
    inversion Hdata as [|? ? [_ Hd] _]; subst.
    injection Hspans as Hs. rewrite Hs in Hd. cbn [map]. now rewrite Hd.
Defined.

(** *** Page indices that are not positions of the document *)

Lemma merge_page_beyond acc i :
  Z.of_nat (List.length (snd acc)) <= i -> merge_page acc i = Ok acc.
Proof.
  destruct acc as [combined st]. cbn [snd]. intros H. unfold merge_page.
  destruct (Z.ltb_spec i (Z.of_nat (List.length st))); [lia|reflexivity].
Qed.

Lemma merge_pages_beyond pages : forall acc,
  Forall (fun i => Z.of_nat (List.length (snd acc)) <= i) pages ->
  merge_pages acc pages = Ok acc.
Proof.
  induction pages as [|i pages IH]; intros acc H; [reflexivity|].
  inversion H; subst. cbn [merge_pages].
  rewrite merge_page_beyond by assumption. cbn [bind]. now apply IH.
Qed.

Lemma merge_page_from_the_end acc i :
  - Z.of_nat (List.length (snd acc)) <= i < 0 ->
  merge_page acc i = merge_page acc (i + Z.of_nat (List.length (snd acc))).
Proof.
  destruct acc as [combined st]. cbn [snd]. intros H. unfold merge_page.
  destruct (Z.ltb_spec i (Z.of_nat (List.length st))); [|lia].
  destruct (Z.ltb_spec (i + Z.of_nat (List.length st))
                       (Z.of_nat (List.length st))); [|lia].
  rewrite (py_index_in_range st (i + Z.of_nat (List.length st))) by lia.
  unfold py_index. cbv zeta.
  destruct (Z.leb_spec 0 i); [lia|]. cbn [andb].
  destruct (Z.ltb_spec i 0); [|lia].
  destruct (Z.leb_spec 0 (Z.of_nat (List.length st) + i)); [|lia].
  cbn [andb]. now rewrite Z.add_comm.
Qed.

Lemma merge_page_before_the_start acc i :
  i < - Z.of_nat (List.length (snd acc)) -> merge_page acc i = Raise IndexError.
Proof.
  destruct acc as [combined st]. cbn [snd]. intros H. unfold merge_page.
  destruct (Z.ltb_spec i (Z.of_nat (List.length st))); [|lia].
  unfold py_index. cbv zeta.
  destruct (Z.leb_spec 0 i); [lia|]. cbn [andb].
  destruct (Z.ltb_spec i 0); [|lia].
  destruct (Z.leb_spec 0 (Z.of_nat (List.length st) + i)); [lia|].
  reflexivity.
Qed.

(** The merge goes by [page_index], and a page index need not be a position
    of the document. An index at or beyond the number of pages is skipped:
    a group all of whose indices are such holds [pages_used] and nothing
    else, and the page records are left as they are. A negative index
    counts from the end, as Python's indexing does, so the index -1 merges
    the record of the last page; and an index below minus the number of
    pages makes the loop raise [IndexError]. *)
Theorem merge_goes_by_page_index (st : store) (doc_type : string)
        (spans : list (list Z)) (acc : dict nat * store) (i : Z)
        (rest : list Z) :
  (has_first_page (doc_type, spans) ->
   Forall (fun j => Z.of_nat (List.length st) <= j) (Grouping.pages_flat spans) ->
   combine_loop st [(doc_type, spans)] = Ok ([mkBuilt doc_type spans []], st)
   /\ grouped_results_of st [(doc_type, spans)]
      = Ok [mkGroup doc_type spans
              [("pages_used", JList (map JInt (Grouping.pages_flat spans)))]])
  /\ (- Z.of_nat (List.length (snd acc)) <= i < 0 ->
      merge_pages acc (i :: rest)
      = merge_pages acc (i + Z.of_nat (List.length (snd acc)) :: rest))
  /\ (i < - Z.of_nat (List.length (snd acc)) ->
      merge_pages acc (i :: rest) = Raise IndexError)
  /\ (forall first span more groups,
        first < - Z.of_nat (List.length st) ->
        grouped_results_of st ((doc_type, (first :: span) :: more) :: groups)
        = Raise IndexError).
Proof.
  split; [|split; [|split]].
  - intros (j & span & more & Hs) Hall. cbn [snd] in Hs. subst spans.
    assert (Hrun : combine_loop st [(doc_type, (j :: span) :: more)]
                   = Ok ([mkBuilt doc_type ((j :: span) :: more) []], st)).
    { cbn [combine_loop].
      match goal with
      | |- context [merge_pages ?a ?p] =>
          pose proof (merge_pages_beyond p (@pair (dict nat) store [] st) Hall
                      : merge_pages a p = Ok a) as Hm
      end.
      rewrite Hm. reflexivity. }
    split; [exact Hrun|].
    unfold grouped_results_of. rewrite Hrun. reflexivity.
  - intros H. cbn [merge_pages]. now rewrite merge_page_from_the_end.
  - intros H. cbn [merge_pages]. now rewrite merge_page_before_the_start.
  - intros first span more groups H.
    unfold grouped_results_of. cbn [combine_loop].
    unfold Grouping.pages_flat. cbn [concat app merge_pages].
    match goal with
    | |- context [merge_page ?a first] =>
        pose proof (merge_page_before_the_start (@pair (dict nat) store [] st)
                      first H
                    : merge_page a first = Raise IndexError) as Hm
    end.
    now rewrite Hm.
Qed.

End GroupLoopFacts.

Module PageProcessorFacts.
Import PageProcessor PageExamples.

Lemma clamp_in_unit_interval f : in_unit_interval (clamp f).
Proof.
  unfold clamp, py_min, py_max, in_unit_interval.
  destruct f as [q| | |]; cbn [flt].
  - destruct (Qle_bool 1 q) eqn:E1; cbn [negb flt].
    + exists 1%Q. split; [reflexivity|]. split; discriminate.
    + destruct (Qle_bool q 0) eqn:E0; cbn [negb].
      * exists 0%Q. split; [reflexivity|]. split; [apply Qle_refl|discriminate].
      * exists q. split; [reflexivity|]. split.
        -- apply Qlt_le_weak, Qnot_le_lt. intros H.
           apply Qle_bool_iff in H. congruence.
        -- apply Qlt_le_weak, Qnot_le_lt. intros H.
           apply Qle_bool_iff in H. congruence.
  - exists 1%Q. split; [reflexivity|]. split; discriminate.
  - exists 0%Q. split; [reflexivity|]. split; [apply Qle_refl|discriminate].
  - exists 1%Q. split; [reflexivity|]. split; discriminate.
Qed.

Lemma clamp_keeps q : (0 <= q <= 1)%Q -> exists q', clamp (Fin q) = Fin q' /\ (q' == q)%Q.
Proof.
  intros [H0 H1]. unfold clamp, py_min, py_max. cbn [flt].
  destruct (Qle_bool 1 q) eqn:E1; cbn [negb flt].
  - exists 1%Q. split; [reflexivity|]. apply Qle_bool_iff in E1.
    now apply Qle_antisym.
  - destruct (Qle_bool q 0) eqn:E0; cbn [negb].
    + exists 0%Q. split; [reflexivity|]. apply Qle_bool_iff in E0.
      now apply Qle_antisym.
    + exists q. split; reflexivity.
Qed.

Lemma unknown_in_TYPE_ORDER : In "Unknown" TYPE_ORDER.
Proof.
  assert (H : existsb (String.eqb "Unknown") TYPE_ORDER = true) by reflexivity.
  apply existsb_exists in H as (x & Hx & E). apply String.eqb_eq in E. now subst.
Qed.

Lemma checked_type_in v : In (checked_type v) TYPE_ORDER.
Proof.
  destruct v; try exact unknown_in_TYPE_ORDER. cbn [checked_type].
  destruct (existsb (String.eqb s) TYPE_ORDER) eqn:E; [|exact unknown_in_TYPE_ORDER].
  apply existsb_exists in E as (x & Hx & E). apply String.eqb_eq in E. now subst.
Qed.

Lemma checked_type_known s : In s TYPE_ORDER -> checked_type (JStr s) = s.
Proof.
  intros H. cbn [checked_type].
  assert (E : existsb (String.eqb s) TYPE_ORDER = true).
  { apply existsb_exists. exists s. split; [exact H|apply String.eqb_refl]. }
  now rewrite E.
Qed.

Lemma checked_type_other v :
  (forall s, v = JStr s -> ~ In s TYPE_ORDER) -> checked_type v = "Unknown".
Proof.
  intros H. destruct v; try reflexivity. cbn [checked_type].
  destruct (existsb (String.eqb s) TYPE_ORDER) eqn:E; [|reflexivity].
  apply existsb_exists in E as (x & Hx & E). apply String.eqb_eq in E. subst x.
  now elim (H s eq_refl).
Qed.

Lemma gather_all_ok {A} (tasks : list (result A)) :
  Forall (fun t => exists a, t = Ok a) tasks ->
  exists l, gather tasks = Ok l /\ map Ok l = tasks.
Proof.
  induction 1 as [|t tasks [a ->] _ (l & Hl & Hm)].
  - now exists [].
  - exists (a :: l). cbn [gather]. rewrite Hl. split; [reflexivity|].
    cbn [map]. now rewrite Hm.
Qed.

Section Workflow.

Variable float_of_int : Z -> result pyfloat.
Variable float_of_str : string -> result pyfloat.
Variable int_of_str : string -> result Z.

Local Abbreviation py_int := (PageProcessor.py_int int_of_str).
Local Abbreviation confidence_of :=
  (PageProcessor.confidence_of float_of_int float_of_str).
Local Abbreviation process_page_try :=
  (PageProcessor.process_page_try float_of_int float_of_str int_of_str).
Local Abbreviation process_page_with_thread :=
  (PageProcessor.process_page_with_thread float_of_int float_of_str int_of_str).
Local Abbreviation page_tasks :=
  (PageProcessor.page_tasks float_of_int float_of_str int_of_str).
Local Abbreviation process_pages :=
  (PageProcessor.process_pages float_of_int float_of_str int_of_str).
Local Abbreviation fails :=
  (PageProcessor.fails float_of_int float_of_str int_of_str).

(** What a [try] block that returns has gone through. *)
Lemma process_page_try_ok page_index r res :
  process_page_try page_index r = Ok res ->
  exists cls o reply_type ext reply_index index,
    classification_reply r = Ok cls /\ cls = JObj o
    /\ dict_get cls "doc_type" (JStr "Unknown") = Ok reply_type
    /\ extraction_reply r (checked_type reply_type) = Ok ext
    /\ dict_get cls "page_index" (JInt page_index) = Ok reply_index
    /\ py_int reply_index = Ok index
    /\ res = (mkPageResult index (checked_type reply_type) (confidence_of cls)
                None None,
              stamp_pages_used page_index ext).
Proof.
  unfold PageProcessor.process_page_try.
  destruct (created_thread r) as [thread_id|]; [|discriminate]. cbn [bind].
  destruct (sent_classification r); [|discriminate]. cbn [bind].
  destruct (classification_reply r) as [cls|]; [|discriminate]. cbn [bind].
  destruct cls as [|b|z|f|s|l|o]; try discriminate. cbn [dict_get bind].
  set (reply_type := match get "doc_type" o with Some v => v | None => JStr "Unknown" end).
  destruct (sent_extraction r (checked_type reply_type)); [|discriminate]. cbn [bind].
  destruct (extraction_reply r (checked_type reply_type)) as [ext|] eqn:Eext;
    [|discriminate]. cbn [bind].
  set (reply_index := match get "page_index" o with Some v => v | None => JInt page_index end).
  destruct (PageProcessor.py_int int_of_str reply_index) as [index|] eqn:Eidx;
    [|discriminate]. cbn [bind].
  intros [= <-].
  exists (JObj o), o, reply_type, ext, reply_index, index. repeat split; assumption.
Qed.

(** The workflow returns, whatever the service does. *)
Lemma process_page_returns page_index r :
  exists res, process_page_with_thread page_index r = Ok res.
Proof.
  unfold PageProcessor.process_page_with_thread.
  destruct (negb (assistants_ready r)); [now eexists|].
  destruct (process_page_try page_index r) as [res|e]; now eexists.
Qed.

(** A failure gives the degraded result. *)
Lemma process_page_degrades page_index r :
  fails page_index r ->
  process_page_with_thread page_index r = Ok (degraded page_index).
Proof.
  unfold PageProcessor.process_page_with_thread.
  intros [H|[e H]].
  - now rewrite H.
  - destruct (negb (assistants_ready r)); [reflexivity|]. now rewrite H.
Qed.

Lemma nth_error_page_tasks remotes : forall start i r,
  nth_error remotes i = Some r ->
  nth_error (page_tasks start remotes) i
  = Some (process_page_with_thread (Z.of_nat (start + i)) r).
Proof.
  induction remotes as [|r0 remotes IH]; intros start [|i] r H; try discriminate.
  - simpl in H. injection H as ->. simpl. now rewrite Nat.add_0_r.
  - simpl in H. simpl. rewrite (IH (S start) i r H).
    now rewrite Nat.add_succ_r.
Qed.

Lemma page_tasks_all_return remotes : forall start,
  Forall (fun t => exists a, t = Ok a) (page_tasks start remotes).
Proof.
  induction remotes as [|r remotes IH]; intros start; simpl; constructor.
  - apply process_page_returns.
  - apply IH.
Qed.

Lemma length_page_tasks remotes : forall start,
  List.length (page_tasks start remotes) = List.length remotes.
Proof.
  induction remotes as [|r remotes IH]; intros start; simpl; [reflexivity|].
  now rewrite IH.
Qed.

(** The batch returns, and the result at position [i] is the result of the
    workflow for page [i]. *)
Lemma process_pages_positions remotes :
  exists results,
    process_pages remotes = Ok results
    /\ List.length results = List.length remotes
    /\ forall i r, nth_error remotes i = Some r ->
         exists res, nth_error results i = Some res
                     /\ process_page_with_thread (Z.of_nat i) r = Ok res.
Proof.
  destruct (gather_all_ok _ (page_tasks_all_return remotes 0%nat))
    as (results & Hg & Hm).
  exists results. split; [exact Hg|split].
  - rewrite <- (length_page_tasks remotes 0%nat), <- Hm. now rewrite length_map.
  - intros i r Hr. pose proof (nth_error_page_tasks remotes 0%nat i r Hr) as Hn.
    rewrite <- Hm, nth_error_map in Hn. simpl in Hn.
    destruct (nth_error results i) as [res|]; [|discriminate].
    exists res. split; [reflexivity|]. simpl in Hn. now injection Hn as <-.
Qed.

(** C3: [process_page_with_thread] returns whatever the remote service
    does, and when anything fails (the assistants are missing, or a call of
    the [try] block raises: the creation of the thread, the sending of a
    message, a run, the reading of the classification) the result is the
    degraded one: [doc_type] Unknown, [confidence] 0.0 and an empty
    extraction record. The batch of [ocr_endpoint] therefore returns for
    every list of pages, with at position [i] the result page [i] has on its
    own. *)
Theorem process_page_never_raises (page_index : Z) (r : remote) :
  (exists res, process_page_with_thread page_index r = Ok res)
  /\ (fails page_index r ->
      process_page_with_thread page_index r
      = Ok (mkPageResult page_index "Unknown" (Fin 0) None None, JObj []))
  /\ ((exists e, created_thread r = Raise e)
      \/ (exists e, sent_classification r = Raise e)
      \/ (exists e, classification_reply r = Raise e)
      \/ (exists v, classification_reply r = Ok v /\ is_dict v = false)
      \/ (forall t, exists e, sent_extraction r t = Raise e)
      \/ (forall t, exists e, extraction_reply r t = Raise e) ->
      fails page_index r)
  /\ (forall remotes,
        exists results,
          process_pages remotes = Ok results
          /\ List.length results = List.length remotes
          /\ forall i r', nth_error remotes i = Some r' ->
               exists res, nth_error results i = Some res
                           /\ process_page_with_thread (Z.of_nat i) r' = Ok res).
Proof.
  split; [apply process_page_returns|].
  split; [apply process_page_degrades|].
  split; [|apply process_pages_positions].
  intros H.
  destruct (process_page_try page_index r) as [res|e] eqn:E;
    [|right; now exists e].
  exfalso.
  destruct (process_page_try_ok _ _ _ E)
    as (cls & o & reply_type & ext & reply_index & index
        & Hc & Hd & Ht & He & _).
  revert E. unfold PageProcessor.process_page_try.
  destruct H as [[e H]|[[e H]|[[e H]|[(v & H & Hv)|[H|H]]]]].
  - now rewrite H.
  - destruct (created_thread r); [|discriminate]. cbn [bind]. now rewrite H.
  - congruence.
  - rewrite Hc in H. injection H as <-. subst cls. discriminate.
  - destruct (created_thread r); [|discriminate]. cbn [bind].
    destruct (sent_classification r); [|discriminate]. cbn [bind].
    rewrite Hc. cbn [bind]. rewrite Ht. cbn [bind].
    destruct (H (checked_type reply_type)) as [e ->]. discriminate.
  - destruct (H (checked_type reply_type)) as [e He']. congruence.
Qed.

(** C5: every [PageResult] that either path produces has a confidence
    between 0 and 1 and a [doc_type] of [TYPE_ORDER]. A [doc_type] of the
    reply that is in the list is kept, any other value becomes Unknown; a
    confidence that [float] does not convert becomes 0.0, and every other is
    clamped. *)
Theorem classification_in_range (page_index : Z) (r : remote)
        (summary_field hints_field : json -> result (option json))
        (i : Z) (reply : result json) :
  (forall res,
      process_page_with_thread page_index r = Ok res ->
      in_unit_interval (confidence (fst res))
      /\ In (doc_type (fst res)) TYPE_ORDER)
  /\ (forall pr,
        classify_one float_of_int float_of_str int_of_str
                     summary_field hints_field i reply = Ok pr ->
        in_unit_interval (confidence pr) /\ In (doc_type pr) TYPE_ORDER)
  /\ (forall v,
        In (checked_type v) TYPE_ORDER
        /\ (forall s, v = JStr s -> In s TYPE_ORDER -> checked_type v = s)
        /\ ((forall s, v = JStr s -> ~ In s TYPE_ORDER) ->
            checked_type v = "Unknown"))
  /\ (forall obj,
        in_unit_interval (confidence_of obj)
        /\ ((exists e,
               (c <- dict_get obj "confidence" (JFloat (Fin 0)) ;;
                PageProcessor.py_float float_of_int float_of_str c) = Raise e) ->
            confidence_of obj = Fin 0)
        /\ (forall c f,
              dict_get obj "confidence" (JFloat (Fin 0)) = Ok c ->
              PageProcessor.py_float float_of_int float_of_str c = Ok f ->
              confidence_of obj = clamp f)).
Proof.
  split; [|split; [|split]].
  - intros res. unfold PageProcessor.process_page_with_thread.
    destruct (negb (assistants_ready r)).
    + intros [= <-]. split; [apply (clamp_in_unit_interval NInf)|].
      exact unknown_in_TYPE_ORDER.
    + destruct (process_page_try page_index r) as [res'|e] eqn:E; cbn [try_except].
      * intros [= <-].
        destruct (process_page_try_ok _ _ _ E)
          as (cls & o & reply_type & ext & reply_index & index & _ & _ & _ & _ & _ & _ & ->).
        split; [apply clamp_in_unit_interval|apply checked_type_in].
      * intros [= <-]. split; [apply (clamp_in_unit_interval NInf)|].
        exact unknown_in_TYPE_ORDER.
  - intros pr. unfold classify_one.
    destruct reply as [obj|]; [|discriminate]. cbn [bind].
    destruct (dict_get obj "page_index" (JInt i)) as [reply_index|]; [|discriminate].
    cbn [bind].
    destruct (PageProcessor.py_int int_of_str _) as [index|]; [|discriminate].
    cbn [bind].
    destruct (v <- dict_get obj "brief_summary" JNull ;; summary_field v);
      [|discriminate]. cbn [bind].
    destruct (v <- dict_get obj "key_hints" JNull ;; hints_field v);
      [|discriminate]. cbn [bind].
    intros [= <-]. split; [apply clamp_in_unit_interval|apply checked_type_in].
  - intros v. split; [apply checked_type_in|split].
    + intros s -> H. now apply checked_type_known.
    + apply checked_type_other.
  - intros obj. split; [apply clamp_in_unit_interval|split].
    + intros [e H]. unfold PageProcessor.confidence_of. cbv zeta. now rewrite H.
    + intros c f Hc Hf. unfold PageProcessor.confidence_of. cbv zeta.
      now rewrite Hc; cbn [bind]; rewrite Hf.
Qed.

(** The record a page returns has [pages_used] set to the page's own index,
    whatever the reply held under that key. *)
Lemma stamp_pages_used_overwrites page_index o :
  exists o',
    stamp_pages_used page_index (JObj o) = JObj o'
    /\ get "pages_used" o' = Some (JList [JInt page_index]).
Proof.
  exists (set "pages_used" (JList [JInt page_index]) o).
  split; [reflexivity|apply MergeFacts.get_set_same].
Qed.

(** C9 (amended): the batch returns one result per page, the result at
    position [i] is the one of the workflow for page [i], and its
    [page_index] is [i] when the workflow fails for the page or the
    classification reply has no [page_index]; a [page_index] of the reply is
    taken instead, converted by [int]. *)
Theorem page_results_positions (remotes : list remote) :
  exists results,
    process_pages remotes = Ok results
    /\ List.length results = List.length remotes
    /\ forall i r, nth_error remotes i = Some r ->
         exists res,
           nth_error results i = Some res
           /\ process_page_with_thread (Z.of_nat i) r = Ok res
           /\ (fails (Z.of_nat i) r -> page_index (fst res) = Z.of_nat i)
           /\ (forall o, assistants_ready r = true ->
                 classification_reply r = Ok (JObj o) ->
                 get "page_index" o = None ->
                 page_index (fst res) = Z.of_nat i)
           /\ (forall o v, ~ fails (Z.of_nat i) r ->
                 classification_reply r = Ok (JObj o) ->
                 get "page_index" o = Some v ->
                 py_int v = Ok (page_index (fst res))).
Proof.
  destruct (process_pages_positions remotes) as (results & Hrun & Hlen & Hpos).
  exists results. split; [exact Hrun|split; [exact Hlen|]].
  intros i r Hr. destruct (Hpos i r Hr) as (res & Hn & Hres).
  exists res. split; [exact Hn|split; [exact Hres|]].
  split; [|split].
  - intros Hf. rewrite (process_page_degrades _ _ Hf) in Hres.
    now injection Hres as <-.
  - intros o Hready Hcls Hnone. revert Hres.
    unfold PageProcessor.process_page_with_thread. rewrite Hready. cbn [negb].
    destruct (process_page_try (Z.of_nat i) r) as [res'|e] eqn:E; cbn [try_except].
    + intros [= <-].
      destruct (process_page_try_ok _ _ _ E)
        as (cls & o' & reply_type & ext & reply_index & index
            & Hc & -> & _ & _ & Hi & Hint & ->).
      rewrite Hcls in Hc. injection Hc as ->.
      cbn [dict_get] in Hi. rewrite Hnone in Hi. injection Hi as <-.
      cbn [PageProcessor.py_int] in Hint. injection Hint as <-. reflexivity.
    + now intros [= <-].
  - intros o v Hnf Hcls Hsome. revert Hres.
    unfold PageProcessor.process_page_with_thread.
    destruct (assistants_ready r) eqn:Hready; [|elim Hnf; now left]. cbn [negb].
    destruct (process_page_try (Z.of_nat i) r) as [res'|e] eqn:E; cbn [try_except].
    + intros [= <-].
      destruct (process_page_try_ok _ _ _ E)
        as (cls & o' & reply_type & ext & reply_index & index
            & Hc & -> & _ & _ & Hi & Hint & ->).
      rewrite Hcls in Hc. injection Hc as ->.
      cbn [dict_get] in Hi. rewrite Hsome in Hi. injection Hi as <-.
      exact Hint.
    + elim Hnf. right. now exists e.
Qed.

End Workflow.

(** *** The statements at the example replies *)

(** A page whose thread cannot be created gets the degraded result. *)
Lemma process_page_never_raises_witness :
  process_page_with_thread float_of_small_int no_numeral_float no_numeral_int
                           3 unreachable
  = Ok (mkPageResult 3 "Unknown" (Fin 0) None None, JObj []).
Proof.
  apply (proj1 (proj2 (process_page_never_raises
                         float_of_small_int no_numeral_float no_numeral_int
                         3 unreachable))).
  right. eexists. reflexivity.
Defined.

(** A batch of three pages of which the second cannot be reached: the
    first and the third have their results. *)
Lemma batch_with_one_failing_page :
  process_pages float_of_small_int no_numeral_float no_numeral_int
                [answering invoice_reply (JObj []); unreachable;
                 answering invoice_reply (JObj [])]
  = Ok [(mkPageResult 0 "TaxInvoice" (Fin (9 # 10)) None None,
         JObj [("pages_used", JList [JInt 0])]);
        (mkPageResult 1 "Unknown" (Fin 0) None None, JObj []);
        (mkPageResult 2 "TaxInvoice" (Fin (9 # 10)) None None,
         JObj [("pages_used", JList [JInt 2])])].
Proof. reflexivity. Qed.

(** The invariant at the invoice reply. *)
Lemma classification_in_range_witness :
  in_unit_interval (Fin (9 # 10)) /\ In "TaxInvoice" TYPE_ORDER.
Proof.
  apply (proj1 (classification_in_range
                  float_of_small_int no_numeral_float no_numeral_int
                  0 (answering invoice_reply (JObj []))
                  (fun _ => Ok None) (fun _ => Ok None) 0 (Ok JNull))
           (mkPageResult 0 "TaxInvoice" (Fin (9 # 10)) None None,
            JObj [("pages_used", JList [JInt 0])])).
  reflexivity.
Defined.

(** C9, as stated, fails: a classification reply that holds [page_index] 7
    for the first page of the document puts 7 in the first page result. *)
Lemma page_index_of_reply_overrides :
  process_pages float_of_small_int no_numeral_float no_numeral_int
                [answering invoice_reply_page_7 (JObj [])]
  = Ok [(mkPageResult 7 "TaxInvoice" (Fin (9 # 10)) None None,
         JObj [("pages_used", JList [JInt 0])])].
Proof. reflexivity. Qed.

(** The amended statement at a reply without [page_index]. *)
Lemma page_results_positions_witness :
  exists res,
    process_page_with_thread float_of_small_int no_numeral_float no_numeral_int
                             0 (answering invoice_reply (JObj [])) = Ok res
    /\ page_index (fst res) = 0.
Proof.
  destruct (page_results_positions
              float_of_small_int no_numeral_float no_numeral_int
              [answering invoice_reply (JObj [])])
    as (results & _ & _ & H).
  destruct (H 0%nat _ eq_refl) as (res & _ & Hres & _ & Habsent & _).
  exists res. split; [exact Hres|].
  exact (Habsent _ eq_refl eq_refl eq_refl).
Defined.

(** C10 at its failing input. The extraction reply of page 0 holds
    [pages_used] = [5]; the record the workflow returns holds [0]: the
    assignment is not guarded by a test for the key. [extract_for_group],
    which makes the same stamp for a group, leaves the reply's value. *)
Theorem pages_used_of_reply_overwritten :
  process_page_with_thread float_of_small_int no_numeral_float no_numeral_int
                           0 (answering invoice_reply extraction_with_pages_used)
  = Ok (mkPageResult 0 "TaxInvoice" (Fin (9 # 10)) None None,
        JObj [("pages_used", JList [JInt 0]); ("invoice_number", JStr "INV-1")])
  /\ stamp_if_absent [0] extraction_with_pages_used = extraction_with_pages_used
  /\ stamp_if_absent [0] (JObj [("invoice_number", JStr "INV-1")])
     = JObj [("invoice_number", JStr "INV-1"); ("pages_used", JList [JInt 0])].
Proof. repeat split. Qed.

End PageProcessorFacts.

(** ** The streaming endpoints *)

Module StreamFacts.
Import PageProcessor PageExamples Merge Stream.

Lemma sbind_ok {A B} (m : stream A) (k : A -> stream B) a :
  snd m = Ok a -> sbind m k = (fst m ++ fst (k a), snd (k a)).
Proof. intros H. unfold sbind. now rewrite H. Qed.

Lemma sbind_raise {A B} (m : stream A) (k : A -> stream B) e :
  snd m = Raise e -> sbind m k = (fst m, Raise e).
Proof. intros H. unfold sbind. now rewrite H. Qed.

Lemma fst_sbind_incl {A B} (m : stream A) (k : A -> stream B) (P : event -> Prop) :
  Forall P (fst m) -> (forall a, Forall P (fst (k a))) ->
  Forall P (fst (sbind m k)).
Proof.
  intros Hm Hk. unfold sbind. destruct (snd m); simpl; [|exact Hm].
  apply Forall_app. split; [exact Hm|apply Hk].
Qed.

Lemma Forall_firstn {A} (P : A -> Prop) n l : Forall P l -> Forall P (firstn n l).
Proof.
  intros H. rewrite <- (firstn_skipn n l) in H. now apply Forall_app in H.
Qed.

Lemma count_some_full {A} (slots : list (option A)) :
  (forall i, (i < List.length slots)%nat ->
             exists a, nth_error slots i = Some (Some a)) ->
  count_some slots = List.length slots.
Proof.
  unfold count_some. induction slots as [|s slots IH]; intros H; [reflexivity|].
  destruct (H 0%nat) as [a Ha]; [cbn [List.length]; lia|].
  cbn [nth_error] in Ha. injection Ha as ->.
  cbn [filter List.length]. f_equal. apply IH. intros i Hi.
  apply (H (S i)). cbn [List.length]. lia.
Qed.

Lemma count_some_le {A} (slots : list (option A)) :
  (count_some slots <= List.length slots)%nat.
Proof. unfold count_some. apply filter_length_le. Qed.

Section Endpoints.

Variable float_of_int : Z -> result pyfloat.
Variable float_of_str : string -> result pyfloat.
Variable int_of_str : string -> result Z.
Variable describe : exn -> string.

Local Abbreviation process_page_with_thread :=
  (PageProcessor.process_page_with_thread float_of_int float_of_str int_of_str).
Local Abbreviation process_single_page :=
  (Stream.process_single_page float_of_int float_of_str int_of_str describe).
Local Abbreviation arrivals :=
  (Stream.arrivals float_of_int float_of_str int_of_str describe).
Local Abbreviation concurrent_try := (Stream.concurrent_try).
Local Abbreviation concurrent_stream := (Stream.concurrent_stream describe).
Local Abbreviation process_each :=
  (Stream.process_each float_of_int float_of_str int_of_str).
Local Abbreviation sequential_pipeline :=
  (Stream.sequential_pipeline float_of_int float_of_str int_of_str).
Local Abbreviation sequential_try :=
  (Stream.sequential_try float_of_int float_of_str int_of_str describe).
Local Abbreviation sequential_stream :=
  (Stream.sequential_stream float_of_int float_of_str int_of_str describe).

(** *** [/ocr-stream] *)

(** The page loop yields page events only. *)
Lemma drain_page_events got : forall slots,
  Forall page_event (fst (drain slots got)).
Proof.
  induction got as [|g got IH]; intros slots; cbn [drain].
  - constructor.
  - apply fst_sbind_incl; [constructor|]. intros [i pr ext|i err].
    + apply fst_sbind_incl; [constructor|]. intros slots'.
      apply fst_sbind_incl; [repeat constructor|]. intros _. apply IH.
    + apply fst_sbind_incl; [repeat constructor|]. intros _. apply IH.
Qed.

Lemma page_events_no_done l : Forall page_event l -> ~ In Done l.
Proof.
  intros H Hin. rewrite Forall_forall in H. exact (H _ Hin).
Qed.

(** The events of [/ocr-stream]: the start, page events, and then the
    counts or the error. *)
Lemma concurrent_stream_shape n got :
  exists page_events,
    Forall page_event page_events
    /\ match snd (concurrent_try n got) with
       | Ok _ =>
           exists k, concurrent_stream n got
                     = Start n :: page_events ++ [CompleteCounts n k]
       | Raise e =>
           concurrent_stream n got
           = Start n :: page_events ++ [Error (describe e)]
       end.
Proof.
  exists (fst (drain (repeat None n) (firstn n got))).
  split; [apply drain_page_events|].
  unfold Stream.concurrent_stream, try_stream, Stream.concurrent_try.
  destruct (drain (repeat None n) (firstn n got)) as [evs [slots|e]];
    cbn [sbind yield fst snd app].
  - now exists (count_some slots).
  - reflexivity.
Qed.

Lemma concurrent_stream_no_done n got : ~ In Done (concurrent_stream n got).
Proof.
  destruct (concurrent_stream_shape n got) as (evs & Hev & H).
  destruct (snd (concurrent_try n got)) as [u|e].
  - destruct H as [k ->]. intros [H|H]; [discriminate|].
    apply in_app_or in H as [H|[H|[]]]; [|discriminate].
    exact (page_events_no_done _ Hev H).
  - rewrite H. intros [H'|H']; [discriminate|].
    apply in_app_or in H' as [H'|[H'|[]]]; [|discriminate].
    exact (page_events_no_done _ Hev H').
Qed.

Lemma drain_cons_done slots i pr ext rest :
  (i < List.length slots)%nat ->
  drain slots (Ok (PageDone i pr ext) :: rest)
  = (PageResultEvent i pr ext
       :: fst (drain (update_nth i (fun _ => Some pr) slots) rest),
     snd (drain (update_nth i (fun _ => Some pr) slots) rest)).
Proof.
  intros Hi. cbn [drain sbind await fst snd]. unfold assign.
  rewrite (proj2 (Nat.ltb_lt _ _) Hi). reflexivity.
Qed.

Lemma drain_cons_failed slots i err rest :
  drain slots (Ok (PageFailed i err) :: rest)
  = (PageError i err :: fst (drain slots rest), snd (drain slots rest)).
Proof. reflexivity. Qed.

(** The loop over results of the queue that name pages of the document:
    one event for each, in the order of arrival, and the loop comes to its
    end. *)
Lemma drain_items n items : forall slots,
  List.length slots = n ->
  Forall (item_in_range n) items ->
  exists slots',
    drain slots (map Ok items) = (map event_of_item items, Ok slots')
    /\ List.length slots' = n.
Proof.
  induction items as [|item items IH]; intros slots Hlen Hr.
  - now exists slots.
  - inversion Hr as [|? ? Hi Hr']; subst. cbn [map].
    destruct item as [i pr ext|i err].
    + cbn [item_in_range] in Hi.
      destruct (IH (update_nth i (fun _ => Some pr) slots)) as (slots' & Hd & Hl);
        [apply MergeFacts.length_update_nth|exact Hr'|].
      exists slots'. rewrite drain_cons_done by exact Hi.
      rewrite Hd. now split.
    + destruct (IH slots eq_refl Hr') as (slots' & Hd & Hl).
      exists slots'. rewrite drain_cons_failed, Hd. now split.
Qed.

Lemma arrivals_length remotes order :
  Forall (fun i => (i < List.length remotes)%nat) order ->
  List.length (arrivals remotes order) = List.length order.
Proof.
  induction 1 as [|i order Hi _ IH]; [reflexivity|].
  cbn [Stream.arrivals flat_map]. apply nth_error_Some in Hi.
  destruct (nth_error remotes i); [|contradiction].
  cbn [app List.length]. f_equal. exact IH.
Qed.

Lemma arrivals_cons remotes i order r :
  nth_error remotes i = Some r ->
  arrivals remotes (i :: order)
  = Ok (process_single_page i r) :: arrivals remotes order.
Proof.
  intros H. unfold Stream.arrivals. cbn [flat_map]. now rewrite H.
Qed.

(** The loop over the queue when every task has put its result: one
    [page_result] event per arrival, and the slot of every page that
    arrived is filled. *)
Lemma drain_arrivals remotes order : forall slots,
  List.length slots = List.length remotes ->
  Forall (fun i => (i < List.length remotes)%nat) order ->
  exists evs slots',
    drain slots (arrivals remotes order) = (evs, Ok slots')
    /\ Forall2 (fun i ev => exists r page_result extraction_data,
                  nth_error remotes i = Some r
                  /\ process_page_with_thread (Z.of_nat i) r
                     = Ok (page_result, extraction_data)
                  /\ ev = PageResultEvent i page_result extraction_data)
               order evs
    /\ List.length slots' = List.length remotes
    /\ (forall i, In i order -> exists pr, nth_error slots' i = Some (Some pr))
    /\ (forall i pr, nth_error slots i = Some (Some pr) ->
                     exists pr', nth_error slots' i = Some (Some pr')).
Proof.
  induction order as [|i order IH]; intros slots Hlen Hord.
  - exists [], slots. cbn [Stream.arrivals flat_map drain]. unfold ret.
    repeat split; try assumption; try constructor.
    + intros i [].
    + intros i pr H. now exists pr.
  - inversion Hord as [|? ? Hi Hord']; subst.
    destruct (nth_error remotes i) as [r|] eqn:Er;
      [|apply nth_error_None in Er; lia].
    destruct (PageProcessorFacts.process_page_returns
                float_of_int float_of_str int_of_str (Z.of_nat i) r)
      as [[pr ext] Hp].
    rewrite (arrivals_cons _ _ _ _ Er).
    unfold Stream.process_single_page at 1. rewrite Hp.
    destruct (IH (update_nth i (fun _ => Some pr) slots)) as
        (evs & slots' & Hd & Hev & Hlen' & Hin & Hkeep);
      [now rewrite MergeFacts.length_update_nth|exact Hord'|].
    exists (PageResultEvent i pr ext :: evs), slots'.
    split; [|split; [|split; [exact Hlen'|split]]].
    + rewrite drain_cons_done by lia. now rewrite Hd.
    + constructor; [|exact Hev]. now exists r, pr, ext.
    + intros j [<-|Hj]; [|now apply Hin].
      apply (Hkeep i pr). rewrite MergeFacts.nth_error_update_same.
      destruct (nth_error slots i) eqn:E; [reflexivity|].
      apply nth_error_None in E. lia.
    + intros j pr' Hj. destruct (Nat.eq_dec i j) as [<-|Hne].
      * apply (Hkeep i pr). rewrite MergeFacts.nth_error_update_same.
        now rewrite Hj.
      * apply (Hkeep j pr').
        now rewrite MergeFacts.nth_error_update_other.
Qed.

(** When every page task puts its result on the queue, in whatever order
    the tasks finish, there is one [page_result] event per page, in the
    order of arrival, and every page is counted as processed. *)
Lemma concurrent_stream_every_page (remotes : list remote) (order : list nat) :
  Permutation order (seq 0 (List.length remotes)) ->
  exists page_events,
    concurrent_stream (List.length remotes) (arrivals remotes order)
    = Start (List.length remotes) :: page_events
      ++ [CompleteCounts (List.length remotes) (List.length remotes)]
    /\ Forall2 (fun i ev => exists r page_result extraction_data,
                  nth_error remotes i = Some r
                  /\ process_page_with_thread (Z.of_nat i) r
                     = Ok (page_result, extraction_data)
                  /\ ev = PageResultEvent i page_result extraction_data)
               order page_events.
Proof.
  intros Hperm.
  assert (Hord : Forall (fun i => (i < List.length remotes)%nat) order).
  { apply Forall_forall. intros i Hi.
    apply (Permutation_in _ Hperm), in_seq in Hi. lia. }
  assert (Hn : List.length order = List.length remotes).
  { rewrite (Permutation_length Hperm). apply length_seq. }
  destruct (drain_arrivals remotes order (repeat None (List.length remotes)))
    as (evs & slots' & Hd & Hev & Hlen & Hin & _);
    [apply repeat_length|exact Hord|].
  exists evs. split; [|exact Hev].
  unfold Stream.concurrent_stream, try_stream, Stream.concurrent_try.
  rewrite firstn_all2 by (rewrite arrivals_length by exact Hord; lia).
  rewrite Hd. cbn [sbind yield fst snd app].
  rewrite count_some_full; [now rewrite Hlen|].
  intros i Hi. apply Hin. apply (Permutation_in _ (Permutation_sym Hperm)).
  apply in_seq. lia.
Qed.

(** The events for any results of the queue that name pages of the
    document. *)
Lemma concurrent_stream_items n items :
  Forall (item_in_range n) items ->
  exists k,
    (k <= n)%nat
    /\ concurrent_stream n (map Ok items)
       = Start n :: map event_of_item (firstn n items) ++ [CompleteCounts n k].
Proof.
  intros Hr.
  destruct (drain_items n (firstn n items) (repeat None n))
    as (slots' & Hd & Hl); [apply repeat_length|now apply Forall_firstn|].
  exists (count_some slots'). split.
  - rewrite <- Hl. apply count_some_le.
  - unfold Stream.concurrent_stream, try_stream, Stream.concurrent_try.
    rewrite firstn_map, Hd. reflexivity.
Qed.

(** *** [/ocr/stream] *)

(** The workflow of each page in turn: it never fails, it yields one
    [progress] event per page, and the result at each position is the one
    of the workflow of that page. *)
Lemma process_each_run remotes : forall i,
  exists results,
    process_each i remotes
    = (map process_event (combine (seq i (List.length remotes)) results),
       Ok results)
    /\ List.length results = List.length remotes
    /\ forall j r, nth_error remotes j = Some r ->
         exists res, nth_error results j = Some res
                     /\ process_page_with_thread (Z.of_nat (i + j)) r = Ok res.
Proof.
  induction remotes as [|r remotes IH]; intros i.
  - exists []. repeat split. intros [|j] r H; discriminate.
  - destruct (PageProcessorFacts.process_page_returns
                float_of_int float_of_str int_of_str (Z.of_nat i) r) as [res Hp].
    destruct (IH (S i)) as (results & He & Hlen & Hnth).
    exists (res :: results). split; [|split].
    + cbn [Stream.process_each]. rewrite Hp.
      cbn [sbind await yield fst snd app]. rewrite He.
      cbn [sbind ret fst snd List.length seq combine map].
      now rewrite app_nil_r.
    + cbn [List.length]. now rewrite Hlen.
    + intros [|j] r' H; cbn [nth_error] in *.
      * injection H as <-. exists res. split; [reflexivity|].
        now rewrite Nat.add_0_r.
      * destruct (Hnth j r' H) as (res' & H1 & H2). exists res'.
        split; [exact H1|]. now replace (i + S j)%nat with (S i + j)%nat by lia.
Qed.

(** A document that does not open: the error event is the last one, and no
    sentinel follows it. *)
Lemma sequential_stream_invalid_pdf e rendered remotes t :
  sequential_stream (Ok tt) (Raise e) rendered remotes t
  = [Status (Text "Processing started...");
     Error ("Invalid PDF: " ++ describe e)].
Proof. reflexivity. Qed.

(** C8 (amended): the two streaming endpoints end differently.

    The sequential endpoint [/ocr/stream], for a document that opens. When
    the document cannot be read or rendered, the stream ends with the
    [error] event of the handler followed by the sentinel. Otherwise every
    page is processed, with one [progress] event per page; then, when the
    loop over the groups returns, the stream has one [progress] event per
    group and ends with the [complete] event followed by the sentinel, and
    the [complete] event carries the response: the page count, the page
    results, the grouped and merged documents that the loop over the groups
    gives for these page results and their records, and the timings; when
    the loop over the groups raises, the stream ends with the [error] event
    followed by the sentinel.

    The concurrent endpoint [/ocr-stream] never yields the sentinel. It
    yields the start event, then one event per result taken from the queue
    in the order of arrival, and ends with a [complete] event that carries
    the two page counts only; when every page task has put its result, in
    whatever order, there is exactly one [page_result] event per page, with
    the result of the workflow of that page, and both counts are the number
    of pages. When an exception reaches its handler the stream ends with the
    [error] event. *)
Theorem stream_endings (remotes : list remote) (t : clock) :
  (forall e rendered,
      sequential_stream (Raise e) (Ok tt) rendered remotes t
      = [Status (Text "Processing started..."); Error (describe e); Done])
  /\ (forall e,
        sequential_stream (Ok tt) (Ok tt) (Raise e) remotes t
        = [Status (Text "Processing started...");
           Status (Text "Rendering pages..."); Error (describe e); Done])
  /\ (exists results,
        List.length results = List.length remotes
        /\ (forall i r, nth_error remotes i = Some r ->
              exists res, nth_error results i = Some res
                          /\ process_page_with_thread (Z.of_nat i) r = Ok res)
        /\ let page_results := map fst results in
           let grouped_spans := Grouping.chunk_consecutive_by_type page_results in
           let pages_done :=
             [Status (Text "Processing started...");
              Status (Text "Rendering pages...");
              ProgressRender (render_ms t) (List.length remotes);
              Status (Text "Processing pages...")]
             ++ map process_event
                    (combine (seq 0 (List.length remotes)) results)
             ++ [ProgressClassifyComplete (classify_ms t);
                 Status (FoundGroups (List.length grouped_spans));
                 Status (Text "Combining extraction data...")] in
           match grouped_results_of (map snd results) grouped_spans with
           | Ok grouped_results =>
               sequential_stream (Ok tt) (Ok tt) (Ok tt) remotes t
               = pages_done ++ map combine_event grouped_results
                 ++ [CompleteData
                       (mkResponse (List.length remotes) page_results
                                   grouped_results (timings t));
                     Done]
           | Raise e =>
               exists groups_done,
                 sequential_stream (Ok tt) (Ok tt) (Ok tt) remotes t
                 = pages_done ++ map combine_event groups_done
                   ++ [Error (describe e); Done]
           end)
  /\ (forall n got, ~ In Done (concurrent_stream n got))
  /\ (forall order,
        Permutation order (seq 0 (List.length remotes)) ->
        exists page_events,
          concurrent_stream (List.length remotes) (arrivals remotes order)
          = Start (List.length remotes) :: page_events
            ++ [CompleteCounts (List.length remotes) (List.length remotes)]
          /\ Forall2 (fun i ev => exists r page_result extraction_data,
                        nth_error remotes i = Some r
                        /\ process_page_with_thread (Z.of_nat i) r
                           = Ok (page_result, extraction_data)
                        /\ ev = PageResultEvent i page_result extraction_data)
                     order page_events)
  /\ (forall n items,
        Forall (item_in_range n) items ->
        exists k,
          (k <= n)%nat
          /\ concurrent_stream n (map Ok items)
             = Start n :: map event_of_item (firstn n items)
               ++ [CompleteCounts n k])
  /\ (forall n got e,
        snd (concurrent_try n got) = Raise e ->
        exists page_events,
          Forall page_event page_events
          /\ concurrent_stream n got
             = Start n :: page_events ++ [Error (describe e)]).
Proof.
  split; [reflexivity|]. split; [reflexivity|]. split.
  { destruct (process_each_run remotes 0%nat) as (results & He & Hlen & Hnth).
    exists results. split; [exact Hlen|]. split; [exact Hnth|]. cbv zeta.
    unfold grouped_results_of.
    pose proof (GroupLoopFacts.combine_groups_run
                  (Grouping.chunk_consecutive_by_type (map fst results))
                  (map snd results)) as Hc.
    unfold Stream.sequential_stream, Stream.sequential_try,
      Stream.sequential_pipeline.
    rewrite He. cbn [sbind yield await fst snd app].
    destruct (combine_loop (map snd results)
                (Grouping.chunk_consecutive_by_type (map fst results)))
      as [[built st']|e]; cbn [bind fst snd].
    - rewrite Hc. unfold try_stream. cbn [sbind yield await fst snd app].
      rewrite map_map. rewrite <- !app_assoc. reflexivity.
    - destruct Hc as (built & st' & ->).
      exists (map (group_of st') built).
      unfold try_stream. cbn [sbind yield await fst snd app].
      rewrite map_map. rewrite <- !app_assoc. reflexivity. }
  split; [intros n got; apply concurrent_stream_no_done|].
  split; [apply concurrent_stream_every_page|].
  split; [apply concurrent_stream_items|].
  intros n got e He.
  destruct (concurrent_stream_shape n got) as (evs & Hev & H).
  rewrite He in H. now exists evs.
Qed.

End Endpoints.

(** C8, as stated, fails for [/ocr-stream]: for a document of one page that
    is classified and extracted, the last event is the [complete] event with
    the counts 1 and 1; it carries no aggregate result and no sentinel
    follows it. *)
Lemma concurrent_stream_ends_without_sentinel :
  Stream.concurrent_stream describe_status 1
    (Stream.arrivals float_of_small_int no_numeral_float no_numeral_int
                     describe_status [answering invoice_reply (JObj [])] [0%nat])
  = [Start 1;
     PageResultEvent 0 (mkPageResult 0 "TaxInvoice" (Fin (9 # 10)) None None)
                     (JObj [("pages_used", JList [JInt 0])]);
     CompleteCounts 1 1].
Proof. reflexivity. Qed.

(** The sequential endpoint on the same document. *)
Lemma sequential_stream_example :
  Stream.sequential_stream float_of_small_int no_numeral_float no_numeral_int
    describe_status (Ok tt) (Ok tt) (Ok tt)
    [answering invoice_reply (JObj [("invoice_number", JStr "INV-1")])]
    (mkClock 10 20 30 60)
  = [Status (Text "Processing started...");
     Status (Text "Rendering pages...");
     ProgressRender 10 1;
     Status (Text "Processing pages...");
     ProgressProcess 0 "TaxInvoice" (Fin (9 # 10));
     ProgressClassifyComplete 20;
     Status (FoundGroups 1);
     Status (Text "Combining extraction data...");
     ProgressCombine "TaxInvoice" [0];
     CompleteData
       (mkResponse 1 [mkPageResult 0 "TaxInvoice" (Fin (9 # 10)) None None]
          [mkGroup "TaxInvoice" [[0]]
             [("invoice_number", JStr "INV-1"); ("pages_used", JList [JInt 0])]]
          [("render_ms", 10); ("classify_ms", 20); ("extract_ms", 30);
           ("total_ms", 60)]);
     Done].
Proof. reflexivity. Qed.

End StreamFacts.

(** ** Bounds of the remote calls *)

Module RemoteCallsFacts.
Import Retry ChatCompletions RemoteCalls.

Lemma retry_delay_sum :
  (total_sleep (map retry_delay (seq 0 3)) == 35 # 4)%Q.
Proof. reflexivity. Qed.

(** What one attempt of [create_openai_thread] can do: before the last, it
    returns an identifier of a 200 or 201 response or sleeps the delay of the
    attempt; the last returns, falls through or raises status 502. *)
Lemma create_thread_attempt_cases net a :
  (exists status id txt,
      create_thread_attempt net a = Return id
      /\ net a = Responded status (Some id) txt /\ (status = 200 \/ status = 201))
  \/ ((a < RETRY_MAX - 1)%nat
      /\ create_thread_attempt net a = Continue (retry_delay a))
  \/ (~ (a < RETRY_MAX - 1)%nat
      /\ (create_thread_attempt net a = NextAttempt
          \/ exists d, create_thread_attempt net a = Throw (HTTPException 502 d))).
Proof.
  unfold create_thread_attempt, create_thread_try.
  destruct (Nat.ltb_spec a (RETRY_MAX - 1)) as [Hlt|Hge];
    destruct (net a) as [status body_id txt|msg].
  - destruct ((status =? 200) || (status =? 201)) eqn:E.
    + destruct body_id as [id|]; [|right; left; now split].
      left. exists status, id, txt. repeat split.
      apply orb_true_iff in E as [E|E]; apply Z.eqb_eq in E; tauto.
    + right; left. split; [exact Hlt|]. now destruct (transient_status status).
  - right; left. now split.
  - destruct ((status =? 200) || (status =? 201)) eqn:E.
    + destruct body_id as [id|].
      * left. exists status, id, txt. repeat split.
        apply orb_true_iff in E as [E|E]; apply Z.eqb_eq in E; tauto.
      * right; right. split; [lia|]. right. now eexists.
    + right; right. split; [lia|].
      destruct (transient_status status); [now left|right; now eexists].
  - right; right. split; [lia|]. right. now eexists.
Qed.

(** [create_openai_thread], whatever the service answers: between one and
    four requests; a sleep of [RETRY_BASE_DELAY * 2 ** attempt] after every
    request but the last one made, so at most 8.75 seconds in all; an
    identifier returned is the one of a 200 or 201 response to the last
    request; and the only exception raised is status 502, after the fourth
    request. *)
Theorem create_openai_thread_bounds (net : nat -> outcome) :
  (1 <= requests (create_openai_thread net) <= RETRY_MAX)%nat
  /\ sleeps (create_openai_thread net)
     = map retry_delay (seq 0 (requests (create_openai_thread net) - 1))
  /\ (total_sleep (sleeps (create_openai_thread net)) <= 35 # 4)%Q
  /\ (forall id, value (create_openai_thread net) = Ok id ->
        exists status txt,
          net (requests (create_openai_thread net) - 1)%nat
          = Responded status (Some id) txt
          /\ (status = 200 \/ status = 201))
  /\ (forall e, value (create_openai_thread net) = Raise e ->
        requests (create_openai_thread net) = RETRY_MAX
        /\ exists d, e = HTTPException 502 d).
Proof.
  unfold create_openai_thread, RETRY_MAX. cbn [seq for_attempts].
  destruct (create_thread_attempt_cases net 0)
    as [(s0 & i0 & t0 & -> & Hn0 & Hs0)|[[_ ->]|[H _]]];
    [|cbn [value sleeps requests]|unfold RETRY_MAX in H; lia].
  { cbn. repeat split; try lia; try discriminate.
    intros id [= <-]. now exists s0, t0. }
  destruct (create_thread_attempt_cases net 1)
    as [(s1 & i1 & t1 & -> & Hn1 & Hs1)|[[_ ->]|[H _]]];
    [|cbn [value sleeps requests]|unfold RETRY_MAX in H; lia].
  { cbn. repeat split; try lia; try discriminate.
    intros id [= <-]. now exists s1, t1. }
  destruct (create_thread_attempt_cases net 2)
    as [(s2 & i2 & t2 & -> & Hn2 & Hs2)|[[_ ->]|[H _]]];
    [|cbn [value sleeps requests]|unfold RETRY_MAX in H; lia].
  { cbn. repeat split; try lia; try discriminate.
    intros id [= <-]. now exists s2, t2. }
  destruct (create_thread_attempt_cases net 3)
    as [(s3 & i3 & t3 & -> & Hn3 & Hs3)|[[H _]|[_ [->|[d ->]]]]];
    [| unfold RETRY_MAX in H; lia| |].
  - cbn. repeat split; try lia; try discriminate.
    intros id [= <-]. now exists s3, t3.
  - cbn. repeat split; try lia; try discriminate.
    match goal with H : Raise _ = Raise _ |- _ => injection H as <- end.
    now eexists.
  - cbn. repeat split; try lia; try discriminate.
    match goal with H : Raise _ = Raise _ |- _ => injection H as <- end.
    now eexists.
Qed.

Section EmptyOutput.

Variable json_loads : ReplyParser.text -> option json.

(** A completion without content is not a failure: the text
    [{"error": "empty_output"}] takes its place, so the first call returns
    what that text decodes to, without retry or sleep. *)
Theorem empty_completion_is_returned
        (api : nat -> result (option ReplyParser.text)) (v : json) :
  api 1%nat = Ok None \/ api 1%nat = Ok (Some []) ->
  json_loads empty_output = Some v ->
  openai_json_response json_loads api = mkRun (Ok v) [] 1.
Proof.
  intros Hapi Hv. unfold openai_json_response, RETRY_MAX.
  cbn [seq for_attempts]. unfold chat_attempt, chat_try.
  destruct Hapi as [-> | ->]; cbn [bind];
    unfold ReplyParser.parse_reply; now rewrite Hv.
Qed.

End EmptyOutput.

(** The statement with a decoder that knows the fallback text. *)
Lemma empty_completion_is_returned_witness :
  openai_json_response
    (fun t => if ReplyExamples.text_eqb t empty_output
              then Some (JObj [("error", JStr "empty_output")]) else None)
    (fun _ => Ok None)
  = mkRun (Ok (JObj [("error", JStr "empty_output")])) [] 1.
Proof.
  apply empty_completion_is_returned; [now left|reflexivity].
Defined.







End RemoteCallsFacts.

(** ** The registry of uploaded files *)

Module FilesFacts.
Import Files.

Lemma get_remove_same {V} k (d : dict V) :
  NoDup (keys d) -> get k (remove k d) = None.
Proof.
  induction d as [|[k' v] d IH]; intros Hnd; [reflexivity|].
  inversion Hnd as [|? ? Hnotin Hnd']; subst. cbn [remove].
  destruct (String.eqb k' k) eqn:E.
  - apply String.eqb_eq in E. subst. now apply MergeFacts.get_none_notin.
  - cbn [get]. rewrite E. now apply IH.
Qed.

Lemma get_remove_other {V} k k' (d : dict V) :
  k <> k' -> get k' (remove k d) = get k' d.
Proof.
  intros Hne. induction d as [|[k0 v] d IH]; [reflexivity|]. cbn [remove].
  destruct (String.eqb k0 k) eqn:E.
  - apply String.eqb_eq in E. subst. cbn [get].
    destruct (String.eqb k k') eqn:E'; [|reflexivity].
    apply String.eqb_eq in E'. contradiction.
  - cbn [get]. now rewrite IH.
Qed.

Lemma get_setdefault_append_other {A} (d : dict (list A)) k k' x :
  k <> k' -> get k' (setdefault_append d k x) = get k' d.
Proof.
  intros Hne. induction d as [|[k0 v] d IH]; cbn [setdefault_append get].
  - destruct (String.eqb k k') eqn:E; [|reflexivity].
    apply String.eqb_eq in E. contradiction.
  - destruct (String.eqb k0 k) eqn:E; cbn [get].
    + apply String.eqb_eq in E. subst.
      destruct (String.eqb k k') eqn:E'; [|reflexivity].
      apply String.eqb_eq in E'. contradiction.
    + now rewrite IH.
Qed.

Lemma get_setdefault_append_same {A} (d : dict (list A)) k x :
  get k (setdefault_append d k x)
  = Some (match get k d with Some l => l | None => [] end ++ [x]).
Proof.
  induction d as [|[k0 v] d IH]; cbn [setdefault_append get].
  - now rewrite String.eqb_refl.
  - destruct (String.eqb k0 k) eqn:E; cbn [get]; rewrite E; [reflexivity|exact IH].
Qed.

Lemma keys_setdefault_append_nodup {A} (d : dict (list A)) k x :
  NoDup (keys d) -> NoDup (keys (setdefault_append d k x)).
Proof.
  induction d as [|[k0 v] d IH]; cbn [setdefault_append]; intros Hnd.
  - repeat constructor. intros [].
  - inversion Hnd as [|? ? Hnotin Hnd']; subst.
    destruct (String.eqb k0 k) eqn:E; [exact Hnd|].
    cbn [keys map fst]. constructor; [|now apply IH].
    intros Hin. apply Hnotin.
    assert (Hk : forall y, In y (keys (setdefault_append d k x)) ->
                           y = k \/ In y (keys d)).
    { clear. induction d as [|[k1 v1] d IH]; cbn [setdefault_append]; intros y.
      - intros [<-|[]]. now left.
      - destruct (String.eqb k1 k); cbn [keys map fst]; intros [<-|H];
          try (right; now left); try (right; now right).
        destruct (IH y H) as [->|H']; [now left|right; now right]. }
    destruct (Hk _ Hin) as [->|H]; [|exact H].
    apply String.eqb_neq in E. contradiction.
Qed.

(** The files uploaded for a thread are exactly the ones its cleanup asks
    to delete, in the order of upload, and the cleanup leaves no entry for
    the thread and does not change the entry of any other thread. *)
Theorem tracked_files_are_deleted (reg : registry) (t : string)
        (uploads : list string) :
  NoDup (keys reg) -> t <> "" -> uploads <> [] ->
  let reg' := fold_left (fun r f => track r (Some t) f) uploads reg in
  snd (delete_files_for_thread reg' t)
  = match get t reg with Some l => l | None => [] end ++ uploads
  /\ get t (fst (delete_files_for_thread reg' t)) = None
  /\ forall t', t' <> t ->
       get t' (fst (delete_files_for_thread reg' t)) = get t' reg.
Proof.
  intros Hnd Ht Hup. cbv zeta.
  assert (Hfold : forall ups r, NoDup (keys r) ->
            let r' := fold_left (fun r f => track r (Some t) f) ups r in
            NoDup (keys r')
            /\ (ups <> [] ->
                get t r' = Some (match get t r with Some l => l | None => [] end
                                 ++ ups))
            /\ forall t', t' <> t -> get t' r' = get t' r).
  { induction ups as [|f ups IH]; intros r Hr; cbv zeta; cbn [fold_left].
    - repeat split; [exact Hr|congruence].
    - assert (Etrack : track r (Some t) f = setdefault_append r t f).
      { unfold track. apply String.eqb_neq in Ht. now rewrite Ht. }
      rewrite Etrack.
      destruct (IH (setdefault_append r t f)
                  (keys_setdefault_append_nodup _ _ _ Hr)) as (H1 & H2 & H3).
      cbv zeta in H1, H2, H3. split; [exact H1|split].
      + intros _. destruct ups as [|f' ups'].
        * cbn [fold_left]. apply get_setdefault_append_same.
        * rewrite H2 by discriminate. rewrite get_setdefault_append_same.
          now rewrite <- app_assoc.
      + intros t' Hne. rewrite (H3 t' Hne).
        apply get_setdefault_append_other. congruence. }
  destruct (Hfold uploads reg Hnd) as (Hnd' & Hget & Hother).
  cbv zeta in Hnd', Hget, Hother. specialize (Hget Hup).
  unfold delete_files_for_thread. rewrite Hget.
  destruct (match get t reg with Some l => l | None => [] end ++ uploads)
    as [|f files] eqn:E.
  { destruct (match get t reg with Some l => l | None => [] end);
      [contradiction|discriminate]. }
  cbn [fst snd]. split; [reflexivity|split].
  - now apply get_remove_same.
  - intros t' Hne. rewrite get_remove_other by congruence. now apply Hother.
Qed.

(** The statement at two uploads for a thread beside another thread. *)
Lemma tracked_files_are_deleted_witness :
  snd (delete_files_for_thread
         (track (track [("thread_a", ["file_0"])] (Some "thread_b") "file_1")
                (Some "thread_b") "file_2")
         "thread_b")
  = ["file_1"; "file_2"].
Proof.
  pose proof (tracked_files_are_deleted [("thread_a", ["file_0"])] "thread_b"
                ["file_1"; "file_2"]) as H.
  cbv zeta in H. destruct H as (H1 & _ & _).
  - repeat constructor. simpl. tauto.
  - discriminate.
  - discriminate.
  - exact H1.
Defined.

End FilesFacts.

(** ** More on the polling loop, the parser and the reply of a run *)

Module PollingBounds.
Import Retry Polling.

(** What one status request can lead to. *)
Lemma poll_attempt_cases a d o :
  poll_attempt a d o = PCompleted
  \/ poll_attempt a d o = PPollAgain (seconds d) (next_delay d)
  \/ ((a < RETRY_MAX - 1)%nat /\ poll_attempt a d o = PRetry (retry_delay a))
  \/ (~ (a < RETRY_MAX - 1)%nat
      /\ poll_attempt a d o
         = PThrow (HTTPException 502 "Failed to check run status after 4 attempts")).
Proof.
  unfold poll_attempt, poll_try.
  destruct (Nat.ltb_spec a (RETRY_MAX - 1)) as [Hlt|Hge];
    destruct o as [http run_status txt|msg];
    try destruct (http =? 200);
    try destruct (String.eqb run_status "completed");
    try destruct (terminal_failure run_status);
    try destruct (transient_status http);
    cbn [andb]; auto;
    try (right; right; left; split; [exact Hlt|reflexivity]);
    try (right; right; right; split; [lia|reflexivity]).
Qed.

Lemma retry_delay_at_most_5 a : (a < RETRY_MAX - 1)%nat -> (retry_delay a <= 5)%Q.
Proof.
  unfold RETRY_MAX. intros H.
  destruct a as [|[|[|a]]]; [discriminate|discriminate|discriminate|lia].
Qed.

Lemma poll_loop_bounds replies : forall a d,
  (a <= RETRY_MAX - 1)%nat -> In d backoff_delays ->
  Forall (fun s => (s <= 5)%Q) (poll_sleeps (poll_loop a d replies))
  /\ (forall e, ended (poll_loop a d replies) = Raised e ->
        e = HTTPException 502 "Failed to check run status after 4 attempts"
        /\ (RETRY_MAX - a <= polls (poll_loop a d replies))%nat).
Proof.
  induction replies as [|o replies IH]; intros a d Ha Hd; cbn [poll_loop].
  - destruct (RETRY_MAX <=? a)%nat eqn:E.
    + apply Nat.leb_le in E. unfold RETRY_MAX in *. lia.
    + cbn. split; [constructor|discriminate].
  - destruct (RETRY_MAX <=? a)%nat eqn:E.
    { apply Nat.leb_le in E. unfold RETRY_MAX in *. lia. }
    destruct (poll_attempt_cases a d o) as [->|[->|[[Hlt ->]|[Hge ->]]]].
    + cbn. split; [constructor|discriminate].
    + destruct (IH 0%nat (next_delay d)) as [Hs Hr];
        [unfold RETRY_MAX; lia|now apply PollingFacts.backoff_delays_closed|].
      cbn [ended poll_sleeps polls]. split.
      * constructor; [|exact Hs].
        apply (Qle_trans _ 2); [|discriminate].
        now apply PollingFacts.backoff_delays_at_most_2.
      * intros e He. destruct (Hr e He) as [-> Hp]. split; [reflexivity|].
        unfold RETRY_MAX in *. lia.
    + destruct (IH (S a) d) as [Hs Hr]; [unfold RETRY_MAX in *; lia|exact Hd|].
      cbn [ended poll_sleeps polls]. split.
      * constructor; [now apply retry_delay_at_most_5|exact Hs].
      * intros e He. destruct (Hr e He) as [-> Hp]. split; [reflexivity|].
        unfold RETRY_MAX in *. lia.
    + cbn [ended poll_sleeps polls]. split; [constructor|].
      intros e [= <-]. split; [reflexivity|].
      unfold RETRY_MAX in *. lia.
Qed.

(** The polling of a run, whatever the status requests answer: it never
    sleeps longer than five seconds at once, and it only gives up with
    status 502, after at least four status requests. *)
Theorem poll_until_done_bounds (replies : list poll_reply) :
  Forall (fun s => (s <= 5)%Q) (poll_sleeps (poll_until_done replies))
  /\ (forall e, ended (poll_until_done replies) = Raised e ->
        e = HTTPException 502 "Failed to check run status after 4 attempts"
        /\ (RETRY_MAX <= polls (poll_until_done replies))%nat).
Proof.
  unfold poll_until_done.
  destruct (poll_loop_bounds replies 0%nat initial_delay) as [Hs Hr];
    [unfold RETRY_MAX; lia|now left|].
  split; [exact Hs|]. intros e He. destruct (Hr e He) as [-> Hp].
  split; [reflexivity|]. lia.
Qed.

End PollingBounds.

Module ParserShape.
Import ReplyParser.

Lemma skip_ws_split s :
  exists ws, s = ws ++ skip_ws s /\ forallb is_space ws = true.
Proof.
  induction s as [|c s (ws & Hs & Hws)]; [now exists []|].
  cbn [skip_ws]. destruct (is_space c) eqn:E.
  - exists (c :: ws). split; [cbn [app]; now rewrite <- Hs|].
    cbn [forallb]. now rewrite E.
  - now exists [].
Qed.

Lemma skip_ws_not_space s c r : skip_ws s = c :: r -> is_space c = false.
Proof.
  induction s as [|c' s IH]; [discriminate|]. cbn [skip_ws].
  destruct (is_space c') eqn:E; [exact IH|]. now intros [= <- _].
Qed.

Lemma lstrip_bom_suffix s : exists p, s = p ++ lstrip_bom s.
Proof.
  induction s as [|c s [p Hp]]; [now exists []|]. cbn [lstrip_bom].
  destruct (c =? BOM)%N; [|now exists []].
  exists (c :: p). cbn [app]. now rewrite <- Hp.
Qed.

Lemma lstrip_bom_head s c r : lstrip_bom s = c :: r -> c <> BOM.
Proof.
  induction s as [|c' s IH]; [discriminate|]. cbn [lstrip_bom].
  destruct (N.eqb_spec c' BOM) as [->|Hne]; [exact IH|].
  now intros [= <- _].
Qed.

Lemma skip_ws_fixed s :
  match s with c :: _ => is_space c = false | [] => True end -> skip_ws s = s.
Proof. destruct s as [|c s]; [reflexivity|]. cbn [skip_ws]. now intros ->. Qed.

(** The cleaned text of step (2): it does not start with a byte-order mark
    and does not end with white space, and a text that has neither white
    space around it nor a mark in front is left as it is. *)
Theorem clean_shape (s : text) :
  (forall r, clean s <> BOM :: r)
  /\ (forall r c, clean s = r ++ [c] -> is_space c = false)
  /\ (match s with c :: _ => is_space c = false /\ c <> BOM | [] => True end ->
      match rev s with c :: _ => is_space c = false | [] => True end ->
      clean s = s).
Proof.
  split; [|split].
  - intros r H. unfold clean in H. now apply lstrip_bom_head in H.
  - intros r c H. unfold clean in H.
    destruct (lstrip_bom_suffix (strip s)) as [p Hp]. rewrite H in Hp.
    unfold strip in Hp. apply (f_equal (@rev N)) in Hp.
    rewrite rev_involutive, !rev_app_distr in Hp. cbn [rev app] in Hp.
    exact (skip_ws_not_space _ _ _ Hp).
  - intros Hhead Hlast. unfold clean, strip.
    rewrite (skip_ws_fixed s) by (destruct s; tauto).
    rewrite (skip_ws_fixed (rev s)) by exact Hlast.
    rewrite rev_involutive. destruct s as [|c s]; [reflexivity|].
    cbn [lstrip_bom]. destruct Hhead as [_ Hb].
    apply N.eqb_neq in Hb. now rewrite Hb.
Qed.

(** The statement at an object with nothing around it. *)
Lemma clean_shape_witness : clean (str "{}") = str "{}".
Proof.
  apply (proj2 (proj2 (clean_shape (str "{}")))); [split|]; [reflexivity|discriminate|reflexivity].
Defined.

Lemma closes_split r :
  closes r = true ->
  exists ws post, r = ws ++ fence ++ post /\ forallb is_space ws = true.
Proof.
  unfold closes, starts_with. intros H.
  destruct (skip_ws_split r) as (ws & Hr & Hws).
  destruct (strip_prefix fence (skip_ws r)) as [post|] eqn:E; [|discriminate].
  apply ParserFacts.strip_prefix_split in E.
  exists ws, post. split; [|exact Hws]. rewrite Hr at 1. now rewrite E.
Qed.

Lemma lazy_body_split s b :
  lazy_body s = Some b ->
  exists body ws post,
    b = body ++ [rbrace] /\ s = b ++ ws ++ fence ++ post
    /\ forallb is_space ws = true.
Proof.
  revert b. induction s as [|c s IH]; intros b; [discriminate|]. cbn [lazy_body].
  destruct ((c =? rbrace)%N && closes s) eqn:E.
  - intros [= <-]. apply andb_true_iff in E as [Ec Hc].
    apply N.eqb_eq in Ec. subst c.
    destruct (closes_split _ Hc) as (ws & post & -> & Hws).
    now exists [], ws, post.
  - destruct (lazy_body s) as [b'|]; [|discriminate]. intros [= <-].
    destruct (IH b' eq_refl) as (body & ws & post & -> & Hs & Hws).
    exists (c :: body), ws, post. repeat split; [|exact Hws].
    cbn [app]. now rewrite Hs at 1.
Qed.

Lemma match_group_split s g :
  match_group s = Some g ->
  exists ws1 body ws2 post,
    g = lbrace :: body ++ [rbrace]
    /\ s = ws1 ++ g ++ ws2 ++ fence ++ post
    /\ forallb is_space ws1 = true /\ forallb is_space ws2 = true.
Proof.
  unfold match_group. intros H.
  destruct (skip_ws_split s) as (ws1 & Hs & Hws1).
  destruct (skip_ws s) as [|c r]; [discriminate|].
  destruct (N.eqb_spec c lbrace) as [->|]; [|discriminate].
  destruct (lazy_body r) as [b|] eqn:E; [|discriminate]. injection H as <-.
  destruct (lazy_body_split _ _ E) as (body & ws2 & post & -> & Hr & Hws2).
  exists ws1, body, ws2, post. repeat split; try assumption.
  rewrite Hs at 1. cbn [app]. now rewrite Hr at 1.
Qed.

(** What the search of step (3) returns: a text that starts with an opening
    brace and ends with a closing brace, and that stands in the reply
    between an opening fence, bare or tagged [json], and a closing fence,
    with nothing but white space around it. *)
Theorem fence_search_shape (s g : text) :
  fence_search s = Some g ->
  exists before tag ws1 body ws2 post,
    g = lbrace :: body ++ [rbrace]
    /\ s = before ++ fence ++ tag ++ ws1 ++ g ++ ws2 ++ fence ++ post
    /\ (tag = [] \/ tag = str "json")
    /\ forallb is_space ws1 = true /\ forallb is_space ws2 = true.
Proof.
  induction s as [|c s IH]; cbn [fence_search].
  - discriminate.
  - destruct (match_here (c :: s)) as [g'|] eqn:E.
    + intros [= <-]. unfold match_here in E.
      destruct (strip_prefix fence (c :: s)) as [s1|] eqn:E1; [|discriminate].
      apply ParserFacts.strip_prefix_split in E1.
      assert (Hbare : match_group s1 = Some g' ->
                exists before tag ws1 body ws2 post,
                  g' = lbrace :: body ++ [rbrace]
                  /\ c :: s = before ++ fence ++ tag ++ ws1 ++ g' ++ ws2 ++ fence ++ post
                  /\ (tag = [] \/ tag = str "json")
                  /\ forallb is_space ws1 = true /\ forallb is_space ws2 = true).
      { intros Hm.
        destruct (match_group_split _ _ Hm) as (ws1 & body & ws2 & post & Hg & Hs & H1 & H2).
        exists [], [], ws1, body, ws2, post. repeat split; try assumption; [|now left].
        rewrite E1. cbn [app]. now rewrite Hs at 1. }
      destruct (strip_prefix (str "json") s1) as [s2|] eqn:E2; [|now apply Hbare].
      destruct (match_group s2) as [g2|] eqn:E3; [|now apply Hbare].
      injection E as <-. apply ParserFacts.strip_prefix_split in E2.
      destruct (match_group_split _ _ E3) as (ws1 & body & ws2 & post & Hg & Hs & H1 & H2).
      exists [], (str "json"), ws1, body, ws2, post.
      repeat split; try assumption; [|now right].
      rewrite E1, E2. cbn [app]. now rewrite Hs at 1.
    + intros H. destruct (IH H) as (before & tag & ws1 & body & ws2 & post & Hg & Hs & Ht).
      exists (c :: before), tag, ws1, body, ws2, post.
      split; [exact Hg|split; [|exact Ht]]. cbn [app]. now rewrite Hs at 1.
Qed.

(** The statement at the reply tagged [json]. *)
Lemma fence_search_shape_witness :
  exists body, str "{}" = lbrace :: body ++ [rbrace].
Proof.
  destruct (fence_search_shape ReplyExamples.tagged_json (str "{}") eq_refl)
    as (before & tag & ws1 & body & ws2 & post & Hg & _).
  now exists body.
Defined.

End ParserShape.

Module RunReplyFacts.
Import ReplyParser RunReply.





Section Replies.

Variable json_loads : text -> option json.





End Replies.


End RunReplyFacts.

(** ** The batch endpoint *)

Module BatchFacts.
Import PageProcessor PageExamples Merge Stream Batch.

Section Endpoint.

Variable float_of_int : Z -> result pyfloat.
Variable float_of_str : string -> result pyfloat.
Variable int_of_str : string -> result Z.

Local Abbreviation process_page_with_thread :=
  (PageProcessor.process_page_with_thread float_of_int float_of_str int_of_str).
Local Abbreviation process_pages :=
  (PageProcessor.process_pages float_of_int float_of_str int_of_str).
Local Abbreviation ocr_endpoint :=
  (Batch.ocr_endpoint float_of_int float_of_str int_of_str).

(** The response of [/ocr]: it counts the pages of the document, has one
    page result per page, one group per document type among the page
    results in the order in which the types first appear, each group with
    the spans the grouping gave it and with [pages_used] set to those spans
    flattened; and no float of it is a NaN or an infinity, since
    [JSONResponse] refuses those. *)
Theorem ocr_endpoint_response (is_pdf : bool) (read opened rendered : result unit)
        (remotes : list remote) (saved : result unit) (t : clock)
        (response : OCRResponse) :
  ocr_endpoint is_pdf read opened rendered remotes saved t = Ok response ->
  num_pages response = List.length remotes
  /\ List.length (page_results response) = List.length remotes
  /\ map group_doc_type (grouped_results response)
     = Grouping.first_appearance (map doc_type (page_results response))
  /\ map page_spans (grouped_results response)
     = values (Grouping.chunk_consecutive_by_type (page_results response))
  /\ Forall stamped_with_spans (grouped_results response)
  /\ response_compliant response = true.
Proof.
  unfold Batch.ocr_endpoint.
  destruct is_pdf; [|discriminate]. cbn [negb].
  destruct read as [u0|e]; [|discriminate]. cbn [bind].
  destruct opened as [u|e]; [|discriminate].
  destruct rendered as [u'|e]; [|discriminate]. cbn [bind].
  destruct (PageProcessorFacts.process_pages_positions
              float_of_int float_of_str int_of_str remotes)
    as (results & Hrun & Hlen & _).
  rewrite Hrun. cbn [bind].
  destruct (grouped_results_of (map snd results)
              (Grouping.chunk_consecutive_by_type (map fst results)))
    as [groups|e] eqn:E; [|discriminate].
  cbn [bind]. destruct saved as [u''|e]; [|discriminate]. cbn [bind].
  destruct (response_compliant _) eqn:Hc; [|discriminate].
  intros [= <-].
  cbn [num_pages page_results grouped_results].
  destruct (GroupLoopFacts.grouped_results_shape _ _ _
              (GroupLoopFacts.chunk_has_first_pages _) E)
    as (H1 & H2 & H3).
  split; [reflexivity|]. split; [now rewrite length_map|].
  split; [now rewrite H1, GroupLoopFacts.keys_chunk|].
  split; [exact H2|]. split; [exact H3|exact Hc].
Qed.

Lemma runs_from_starts t cur ps :
  exists more rs, Grouping.runs_from t cur ps = (t, cur ++ more) :: rs.
Proof.
  revert t cur. induction ps as [|p ps IH]; intros t cur; cbn [Grouping.runs_from].
  - exists [], []. now rewrite app_nil_r.
  - destruct (String.eqb (doc_type p) t).
    + destruct (IH t (cur ++ [page_index p])) as (more & rs & ->).
      exists (page_index p :: more), rs. now rewrite <- app_assoc.
    + exists [], (Grouping.runs_from (doc_type p) [page_index p] ps).
      now rewrite app_nil_r.
Qed.

Lemma fold_file_run_head rs : forall k span spans g,
  exists spans' g',
    fold_left Grouping.file_run rs ((k, span :: spans) :: g)
    = (k, span :: spans') :: g'.
Proof.
  induction rs as [|r rs IH]; intros k span spans g; cbn [fold_left].
  - now exists spans, g.
  - unfold Grouping.file_run at 2. cbn [setdefault_append].
    destruct (String.eqb k (fst r)); cbn [app]; apply IH.
Qed.

(** The first group starts with the first page. *)
Lemma chunk_first_entry p0 ps :
  exists span spans others,
    Grouping.chunk_consecutive_by_type (p0 :: ps)
    = (doc_type p0, (page_index p0 :: span) :: spans) :: others.
Proof.
  unfold Grouping.chunk_consecutive_by_type.
  rewrite GroupingFacts.chunk_loop_runs.
  destruct (runs_from_starts (doc_type p0) [page_index p0] ps) as (more & rs & ->).
  cbn [fold_left app]. unfold Grouping.file_run at 2. cbn [setdefault_append fst snd].
  destruct (fold_file_run_head rs (doc_type p0) (page_index p0 :: more) [] [])
    as (spans' & g' & ->).
  now exists more, spans', g'.
Qed.

Lemma merge_page_not_a_dict combined rec st :
  truthy rec = true -> is_dict rec = false ->
  merge_page (combined, rec :: st) 0 = Raise AttributeError.
Proof.
  intros Ht Hd. unfold merge_page.
  assert (Hlen : (0 <? Z.of_nat (List.length (rec :: st))) = true).
  { apply Z.ltb_lt. cbn [List.length]. lia. }
  rewrite Hlen. unfold py_index. cbv zeta. rewrite Hlen.
  change (0 <=? 0) with true. change (Z.to_nat 0) with 0%nat.
  cbn [andb bind nth_error]. rewrite Ht.
  destruct rec; try reflexivity. discriminate.
Qed.

(** A page can abort the request after all. The workflow of a page returns
    an extraction reply that is no JSON object as it is, and the merge of
    [/ocr] then calls [.items()] on it: when the extraction reply of the
    first page is, say, a non-empty array, the endpoint raises
    [AttributeError] although every page was processed. *)
Theorem ocr_endpoint_aborts_on_reply_that_is_no_object
        (r : remote) (rest : list remote) (saved : result unit) (t : clock)
        (page_result : PageResult) (extraction : json) :
  process_page_with_thread 0 r = Ok (page_result, extraction) ->
  page_index page_result = 0 ->
  truthy extraction = true -> is_dict extraction = false ->
  ocr_endpoint true (Ok tt) (Ok tt) (Ok tt) (r :: rest) saved t
  = Raise AttributeError.
Proof.
  intros Hpage Hidx Ht Hd. unfold Batch.ocr_endpoint. cbn [negb bind].
  unfold PageProcessor.process_pages. cbn [page_tasks]. cbn [Z.of_nat].
  rewrite Hpage.
  destruct (PageProcessorFacts.gather_all_ok _
              (PageProcessorFacts.page_tasks_all_return
                 float_of_int float_of_str int_of_str rest 1%nat))
    as (others & Hg & _).
  cbn [gather]. rewrite Hg. cbn [bind map fst snd].
  destruct (chunk_first_entry page_result (map fst others))
    as (span & spans & groups & ->).
  rewrite Hidx. unfold grouped_results_of. cbn [combine_loop].
  unfold Grouping.pages_flat. cbn [concat app merge_pages].
  match goal with
  | |- context [merge_page ?a 0] =>
      pose proof (merge_page_not_a_dict [] extraction (map snd others) Ht Hd
                  : merge_page a 0 = Raise AttributeError) as Hm
  end.
  now rewrite Hm.
Qed.

End Endpoint.

(** The statement at a page whose extraction reply is the array [[1]]. *)
Lemma ocr_endpoint_aborts_on_reply_that_is_no_object_witness :
  Batch.ocr_endpoint float_of_small_int no_numeral_float no_numeral_int
    true (Ok tt) (Ok tt) (Ok tt) [answering invoice_reply (JList [JInt 1])]
    (Ok tt) (mkClock 0 0 0 0)
  = Raise AttributeError.
Proof.
  apply (ocr_endpoint_aborts_on_reply_that_is_no_object
           float_of_small_int no_numeral_float no_numeral_int
           (answering invoice_reply (JList [JInt 1])) [] (Ok tt)
           (mkClock 0 0 0 0)
           (mkPageResult 0 "TaxInvoice" (Fin (9 # 10)) None None)
           (JList [JInt 1]));
    reflexivity.
Defined.

(** The response for two pages of one invoice. *)
Lemma ocr_endpoint_response_witness :
  response_compliant
    (mkResponse 2
       [mkPageResult 0 "TaxInvoice" (Fin (9 # 10)) None None;
        mkPageResult 1 "TaxInvoice" (Fin (9 # 10)) None None]
       [mkGroup "TaxInvoice" [[0; 1]] [("pages_used", JList [JInt 0; JInt 1])]]
       (batch_timings (mkClock 1 2 3 6)))
  = true.
Proof.
  apply (ocr_endpoint_response
           float_of_small_int no_numeral_float no_numeral_int
           true (Ok tt) (Ok tt) (Ok tt)
           [answering invoice_reply (JObj []); answering invoice_reply (JObj [])]
           (Ok tt) (mkClock 1 2 3 6)).
  reflexivity.
Defined.

(** An extraction reply with a NaN, which [json.loads] accepts: the page is
    processed and its record merged, the response is written to the file,
    and [JSONResponse] then raises [ValueError]. *)
Lemma ocr_endpoint_nan_in_reply :
  Batch.ocr_endpoint float_of_small_int no_numeral_float no_numeral_int
    true (Ok tt) (Ok tt) (Ok tt)
    [answering invoice_reply (JObj [("total", JFloat NaN)])]
    (Ok tt) (mkClock 0 0 0 0)
  = Raise ValueError.
Proof. reflexivity. Qed.

End BatchFacts.

(** ** The upload of a page image *)

Module UploadFacts.
Import Retry Files Upload.

Section Upload.

Variable b64decode_returns : string -> bool.

Local Abbreviation upload_image_data_url_get_file_id :=
  (Upload.upload_image_data_url_get_file_id b64decode_returns).

Local Ltac settle :=
  cbn [fst snd requests sleeps value];
  repeat split; intros;
  try lia; try reflexivity; try congruence;
  repeat match goal with
         | H : Raise _ = Raise _ |- _ => injection H as <-
         | H : Ok _ = Ok _ |- _ => injection H as <-
         end;
  try reflexivity; try assumption; try congruence; try (now eexists).

(** [_upload_image_data_url_get_file_id]: it makes one request at most and
    never sleeps; a data URL that is refused (status 400) costs no request;
    an identifier that is returned is not empty, comes from a response with
    status 200 and is filed under the thread; and a call that raises leaves
    the registry of files as it was. *)
Theorem upload_tracks_returned_file_only (reg : registry) (data_url : string)
        (track_thread_id : option string) (o : outcome) :
  let reg' := fst (upload_image_data_url_get_file_id reg data_url
                     track_thread_id o) in
  let r := snd (upload_image_data_url_get_file_id reg data_url
                  track_thread_id o) in
  (requests r <= 1)%nat
  /\ sleeps r = []
  /\ (forall file_id,
        value r = Ok file_id ->
        file_id <> ""
        /\ requests r = 1%nat
        /\ String.prefix "data:image/" data_url = true
        /\ (exists text, o = Responded 200 (Some file_id) text)
        /\ reg' = track reg track_thread_id file_id)
  /\ (forall e,
        value r = Raise e ->
        reg' = reg
        /\ (requests r = 0%nat -> exists detail, e = HTTPException 400 detail)
        /\ (requests r = 1%nat ->
            e <> HTTPException 400 "Expected data URL for image upload"))
  /\ (String.prefix "data:image/" data_url = false -> requests r = 0%nat).
Proof.
  cbv zeta. unfold Upload.upload_image_data_url_get_file_id.
  destruct (String.prefix "data:image/" data_url) eqn:Ep; cbn [negb];
    [|settle].
  destruct (split_at_comma data_url) as [[header b64part]|]; [|settle].
  destruct (b64decode_returns b64part); cbn [negb]; [|settle].
  unfold upload_image.
  destruct o as [status body_id text|msg]; [|settle].
  destruct (Z.eqb_spec status 200) as [->|Hne]; cbn [negb]; [|settle].
  destruct body_id as [id|]; [|settle].
  destruct (String.eqb_spec id "") as [->|Hid]; settle.
Qed.

End Upload.

End UploadFacts.
